(** * Somewhat Square Sudoku: the divisor pipeline and the grid assembler

    A shallow embedding of [enumerate-by-divisor.py].  Python integers are
    [Z], a Python [str] is a list of characters, a [dict] is a [gmap], a
    [set] is a [gset], and a list indexed by position is a [list] read with
    stdpp's lookup.  An exception that the source can raise is a value of
    [exn]; functions that may raise return a [res]. *)

From Stdlib Require Import ZArith Ascii String.
From stdpp Require Import base tactics option list list_numbers sorting
  numbers countable gmap fin_sets strings.

#[local] Open Scope Z_scope.

(* stdpp's solvers clear hypotheses that may already be gone. *)
#[local] Set Warnings "-clear-no-such-hyp".

(** ** Exceptions *)

Inductive exn : Set :=
| IndexError
| KeyError
| TypeError
| ZeroDivisionError
| RecursionError.

Inductive res (A : Type) : Type :=
| Ok (a : A)
| Raise (e : exn).
Arguments Ok {A} a.
Arguments Raise {A} e.

Definition res_bind {A B} (x : res A) (k : A → res B) : res B :=
  match x with
  | Ok a => k a
  | Raise e => Raise e
  end.

Notation "x ←? e ; k" := (res_bind e (λ x, k))
  (at level 20, e at level 100, k at level 200, right associativity,
   format "x  ←?  e ;  '/' k").
Notation "' p ←? e ; k" := (res_bind e (λ p, k))
  (at level 20, p pattern, e at level 100, k at level 200,
   right associativity, format "' p  ←?  e ;  '/' k").

(** A Python [str]; a character of it is a one-character string. *)
Abbreviation str := (list ascii).

(** [l[i]] for a non-negative index. *)
Definition index {A} (l : list A) (i : nat) : res A :=
  match l !! i with
  | Some x => Ok x
  | None => Raise IndexError
  end.

(** ** Divisor Frequency Analyzer *)

(** [divisor_counts[k] += 1] on a [defaultdict(int)]. *)
Definition incr (k : Z) (divisor_counts : gmap Z Z) : gmap Z Z :=
  <[k := default 0 (divisor_counts !! k) + 1]> divisor_counts.

(** The body of the loop of [count_divisors] for one trial divisor [i]. *)
Definition count_divisors_body (n : Z) (divisor_counts : gmap Z Z) (i : Z)
    : gmap Z Z :=
  if decide (n `mod` i = 0) then
    let divisor_counts := incr i divisor_counts in
    if decide (i ≠ n `div` i) then incr (n `div` i) divisor_counts
    else divisor_counts
  else divisor_counts.

(** [count_divisors] on the integers of the pipeline, [-10^9 < n < 10^9].
    There the float power [n ** 0.5] is exact to well below one unit, so
    [int(n ** 0.5)] is the floor of the square root, [Z.sqrt n]; on a
    negative [n] the power is a complex number and [int] raises
    [TypeError].  The source computes the power in a 64-bit float: from
    about [2^52] on the root may be off by one, and from [2^1024] on the
    conversion raises [OverflowError].  Neither is modelled, so a
    statement that depends on the value of the root holds of the source
    for candidates within the bound only. *)
Definition count_divisors (n : Z) (divisor_counts : gmap Z Z)
    : res (gmap Z Z) :=
  if decide (n < 0) then Raise TypeError
  else Ok (foldl (count_divisors_body n) divisor_counts (seqZ 1 (Z.sqrt n))).

(** The loop of [build_divisor_counts], from a given dictionary. *)
Fixpoint build_from (numbers : list Z) (divisor_counts : gmap Z Z)
    : res (gmap Z Z) :=
  match numbers with
  | [] => Ok divisor_counts
  | num :: numbers =>
      divisor_counts ←? count_divisors num divisor_counts;
      build_from numbers divisor_counts
  end.

Definition build_divisor_counts (numbers : list Z) : res (gmap Z Z) :=
  build_from numbers ∅.

(** The number of candidates [n] with [n % d == 0]. *)
Definition multiples (d : Z) (numbers : list Z) : Z :=
  Z.of_nat (length (filter (λ n, n `mod` d = 0) numbers)).


(** ** Candidate Filter *)

(** The character of a decimal digit [0 ≤ d < 10]. *)
Definition digit_char (d : Z) : ascii := ascii_of_nat (48 + Z.to_nat d).

(** The decimal digits of [n ≥ 0], most significant first; each unit of
    [fuel] produces one digit. *)
Fixpoint decimal_digits (fuel : nat) (n : Z) : str :=
  match fuel with
  | O => []
  | S fuel =>
      if decide (n < 10) then [digit_char n]
      else decimal_digits fuel (n `div` 10) ++ [digit_char (n `mod` 10)]
  end.

(** [str(n)] for [n ≥ 0]: [n < 2 ^ fuel] digits are never needed. *)
Definition str_of_nonneg (n : Z) : str :=
  decimal_digits (S (Z.to_nat (Z.log2 n))) n.

Definition zfill (width : nat) (s : str) : str :=
  replicate (width - length s) "0"%char ++ s.

(** [f"{num:09}"]: zero fill to width 9, the sign (if any) first and
    counted in the width.  CPython refuses to write an integer of more
    digits than its limit (4300 by default, never fewer than 640) and
    raises [ValueError]; that is not modelled, so this is the format of the
    integers [-10^640 < num < 10^640]. *)
Definition format_09 (num : Z) : str :=
  if decide (num < 0) then "-"%char :: zfill 8 (str_of_nonneg (- num))
  else zfill 9 (str_of_nonneg num).

(** [int(s)] on a string of decimal digits. *)
Definition int_of_str (s : str) : Z :=
  foldl (λ acc c, 10 * acc + (Z.of_nat (nat_of_ascii c) - 48)) 0 s.

Definition is_digit (c : ascii) : Prop :=
  (48 ≤ nat_of_ascii c ≤ 57)%nat.

(** [find_numbers_with_divisor]: the comprehension evaluates
    [num % divisor] for each number in turn, which raises on a zero
    divisor. *)
Fixpoint find_numbers_with_divisor (numbers : list Z) (divisor : Z)
    : res (list str) :=
  match numbers with
  | [] => Ok []
  | num :: numbers =>
      if decide (divisor = 0) then Raise ZeroDivisionError
      else
        rest ←? find_numbers_with_divisor numbers divisor;
        Ok (if decide (num `mod` divisor = 0) then format_09 num :: rest
            else rest)
  end.

#[local] Close Scope Z_scope.

(** ** Positional Coverage Checker *)

(** The inner loop of [check_digit_positions] over [enumerate(num)], from
    position [pos]. *)
Fixpoint scan_digits (symbols : gset ascii) (pos : nat) (num : str)
    (position_digits : list (gset ascii)) : res (list (gset ascii)) :=
  match num with
  | [] => Ok position_digits
  | digit :: num =>
      if decide (digit ∈ symbols) then
        s ←? index position_digits pos;
        scan_digits symbols (S pos) num (<[pos := s ∪ {[digit]}]> position_digits)
      else scan_digits symbols (S pos) num position_digits
  end.

Fixpoint scan_numbers (symbols : gset ascii) (numbers : list str)
    (position_digits : list (gset ascii)) : res (list (gset ascii)) :=
  match numbers with
  | [] => Ok position_digits
  | num :: numbers =>
      position_digits ←? scan_digits symbols 0 num position_digits;
      scan_numbers symbols numbers position_digits
  end.

Definition check_digit_positions (numbers : list str) (symbols : gset ascii)
    : res (list (gset ascii)) :=
  scan_numbers symbols numbers (replicate 9 ∅).

(** ** Constraint Model *)

(** A row clue: [(position, digit)], or [None]. *)
Abbreviation row_clue := (option (nat * ascii)).

(** The dictionary of [get_row_constraints], in insertion order. *)
Definition get_row_constraints : list (nat * row_clue) :=
  [ (0, Some (7, "2"%char));
    (1, Some (8, "5"%char));
    (2, Some (1, "2"%char));
    (3, Some (2, "0"%char));
    (4, None);
    (5, Some (3, "2"%char));
    (6, Some (4, "0"%char));
    (7, Some (5, "2"%char));
    (8, Some (6, "5"%char)) ].

(** [d[k]] on a plain dictionary. *)
Definition dict_get {A} (d : gmap nat A) (k : nat) : res A :=
  match d !! k with
  | Some x => Ok x
  | None => Raise KeyError
  end.

Abbreviation box_clue := (nat * nat * ascii)%type.

(** The loop of [get_box_constraints] over the row constraints. *)
Fixpoint add_box_constraints (row_constraints : list (nat * row_clue))
    (box_constraints : gmap nat (list box_clue))
    : res (gmap nat (list box_clue)) :=
  match row_constraints with
  | [] => Ok box_constraints
  | (row, None) :: row_constraints =>
      add_box_constraints row_constraints box_constraints
  | (row, Some (col, digit)) :: row_constraints =>
      let box_num := (row / 3) * 3 + col / 3 in
      l ←? dict_get box_constraints box_num;
      add_box_constraints row_constraints
        (<[box_num := l ++ [(row, col, digit)]]> box_constraints)
  end.

Definition get_box_constraints : res (gmap nat (list box_clue)) :=
  add_box_constraints get_row_constraints
    (list_to_map ((λ i, (i, [])) <$> seq 0 9)).

(** The clues of one box against the three characters of the candidate that
    fall in it: false as soon as a clue of another row has its digit
    there. *)
Definition box_section_ok (row : nat) (box_section : gset ascii)
    (clues : list box_clue) : bool :=
  forallb (λ '(r, c, digit),
             negb (bool_decide (r ≠ row) && bool_decide (digit ∈ box_section)))
          clues.

(** The loop of [check_box_constraints] over [box_col]. *)
Fixpoint check_boxes (box_constraints : gmap nat (list box_clue))
    (num : str) (row box_row : nat) (box_cols : list nat) : res bool :=
  match box_cols with
  | [] => Ok true
  | box_col :: box_cols =>
      let box_num := box_row * 3 + box_col in
      let box_start_col := box_col * 3 in
      let box_section : gset ascii :=
        list_to_set (take 3 (drop box_start_col num)) in
      clues ←? dict_get box_constraints box_num;
      if box_section_ok row box_section clues
      then check_boxes box_constraints num row box_row box_cols
      else Ok false
  end.

Definition check_box_constraints (num : str) (row : nat) : res bool :=
  box_constraints ←? get_box_constraints;
  check_boxes box_constraints num row (row / 3) (seq 0 3).

(** The first loop of [find_valid_row_for_number]: the rows whose clue the
    number matches and whose box check it passes. *)
Fixpoint matching_rows_of (num : str) (constraints : list (nat * row_clue))
    : res (list nat) :=
  match constraints with
  | [] => Ok []
  | (row_idx, None) :: constraints => matching_rows_of num constraints
  | (row_idx, Some (pos, digit)) :: constraints =>
      c ←? index num pos;
      if decide (c = digit) then
        ok ←? check_box_constraints num row_idx;
        rest ←? matching_rows_of num constraints;
        Ok (if ok then row_idx :: rest else rest)
      else matching_rows_of num constraints
  end.

Definition find_valid_row_for_number (num : str)
    (constraints : list (nat * row_clue)) : res (option nat) :=
  matching_rows ←? matching_rows_of num constraints;
  if decide (1 < length matching_rows) then Ok None
  else
    match matching_rows with
    | row :: _ => Ok (Some row)
    | [] =>
        ok ←? check_box_constraints num 4;
        Ok (if ok then Some 4 else None)
    end.

(** [d[k]] on a [defaultdict(list)]. *)
Definition rows_get (d : gmap nat (list str)) (k : nat) : list str :=
  default [] (d !! k).

(** The loop of [categorize_numbers_by_row]. *)
Fixpoint categorize_from (numbers : list str)
    (valid_numbers_by_row : gmap nat (list str))
    : res (gmap nat (list str)) :=
  match numbers with
  | [] => Ok valid_numbers_by_row
  | num :: numbers =>
      valid_row ←? find_valid_row_for_number num get_row_constraints;
      match valid_row with
      | Some row =>
          categorize_from numbers
            (<[row := rows_get valid_numbers_by_row row ++ [num]]>
               valid_numbers_by_row)
      | None => categorize_from numbers valid_numbers_by_row
      end
  end.

Definition categorize_numbers_by_row (numbers : list str)
    : res (gmap nat (list str)) :=
  categorize_from numbers ∅.

(** ** Grid Assembler *)

(** The objects that [backtrack] mutates: its two arguments, which every
    call shares, and the two lists of sets of the enclosing function. *)
Record search_state : Type := SearchState {
  grid : list str;
  used_numbers : gset str;
  column_sets : list (gset ascii);
  box_sets : list (gset ascii)
}.

Definition box_index_of (row_idx col : nat) : nat :=
  (row_idx / 3) * 3 + col / 3.

(** The validity loop of [backtrack] over [enumerate(num)], from column
    [col]; [Ok false] is the [break]. *)
Fixpoint can_place (column_sets box_sets : list (gset ascii))
    (row_idx col : nat) (num : str) : res bool :=
  match num with
  | [] => Ok true
  | digit :: num =>
      cs ←? index column_sets col;
      if decide (digit ∈ cs) then Ok false
      else
        bs ←? index box_sets (box_index_of row_idx col);
        if decide (digit ∈ bs) then Ok false
        else can_place column_sets box_sets row_idx (S col) num
  end.

(** The loop that adds the digits of [num] to the column and box sets. *)
Fixpoint add_digits (row_idx col : nat) (num : str)
    (column_sets box_sets : list (gset ascii))
    : res (list (gset ascii) * list (gset ascii)) :=
  match num with
  | [] => Ok (column_sets, box_sets)
  | digit :: num =>
      cs ←? index column_sets col;
      let column_sets := <[col := cs ∪ {[digit]}]> column_sets in
      let box_index := box_index_of row_idx col in
      bs ←? index box_sets box_index;
      let box_sets := <[box_index := bs ∪ {[digit]}]> box_sets in
      add_digits row_idx (S col) num column_sets box_sets
  end.

(** [s.remove(x)]. *)
Definition set_remove `{Countable A} (s : gset A) (x : A) : res (gset A) :=
  if decide (x ∈ s) then Ok (s ∖ {[x]}) else Raise KeyError.

(** The loop that removes the digits of [num] again. *)
Fixpoint remove_digits (row_idx col : nat) (num : str)
    (column_sets box_sets : list (gset ascii))
    : res (list (gset ascii) * list (gset ascii)) :=
  match num with
  | [] => Ok (column_sets, box_sets)
  | digit :: num =>
      cs ←? index column_sets col;
      cs ←? set_remove cs digit;
      let column_sets := <[col := cs]> column_sets in
      let box_index := box_index_of row_idx col in
      bs ←? index box_sets box_index;
      bs ←? set_remove bs digit;
      let box_sets := <[box_index := bs]> box_sets in
      remove_digits row_idx (S col) num column_sets box_sets
  end.

(** The forward step: append, mark used, add the digits. *)
Definition commit (num : str) (row_idx : nat) (st : search_state)
    : res search_state :=
  '(cols, boxes) ←? add_digits row_idx 0 num (column_sets st) (box_sets st);
  Ok {| grid := grid st ++ [num];
        used_numbers := used_numbers st ∪ {[num]};
        column_sets := cols;
        box_sets := boxes |}.

(** [grid.pop()]. *)
Definition list_pop {A} (l : list A) : res (list A) :=
  match l with
  | [] => Raise IndexError
  | _ => Ok (removelast l)
  end.

(** The undo step: pop, unmark, remove the digits. *)
Definition undo (num : str) (row_idx : nat) (st : search_state)
    : res search_state :=
  g ←? list_pop (grid st);
  used ←? set_remove (used_numbers st) num;
  '(cols, boxes) ←? remove_digits row_idx 0 num (column_sets st) (box_sets st);
  Ok {| grid := g; used_numbers := used; column_sets := cols;
        box_sets := boxes |}.

(** What a call of [backtrack] leaves: its return value, the state of the
    shared objects, and (for the record only) how many calls of [backtrack]
    it took. *)
Abbreviation search_result :=
  (res (option (list str) * search_state * nat)).

(** The [for num in valid_numbers_by_row[row_idx]] loop of [backtrack];
    [recurse] is the recursive call. *)
Fixpoint try_candidates (recurse : search_state → search_result)
    (row_idx : nat) (candidates : list str) (st : search_state)
    : search_result :=
  match candidates with
  | [] => Ok (None, st, 0)
  | num :: candidates =>
      if decide (num ∈ used_numbers st)
      then try_candidates recurse row_idx candidates st
      else
        is_valid ←? can_place (column_sets st) (box_sets st) row_idx 0 num;
        if is_valid : bool then
          st1 ←? commit num row_idx st;
          '(result, st2, calls) ←? recurse st1;
          match result with
          | Some g => Ok (Some g, st2, calls)
          | None =>
              st3 ←? undo num row_idx st2;
              '(result, st4, calls') ←?
                try_candidates recurse row_idx candidates st3;
              Ok (result, st4, calls + calls')
          end
        else try_candidates recurse row_idx candidates st
  end.

(** [backtrack].  The recursion is on [fuel]; the search never goes deeper
    than the nine rows, and running out is [RecursionError]. *)
Fixpoint backtrack (fuel : nat) (valid_numbers_by_row : gmap nat (list str))
    (st : search_state) : search_result :=
  if decide (length (grid st) = 9) then Ok (Some (grid st), st, 1)
  else
    match fuel with
    | O => Raise RecursionError
    | S fuel =>
        let row_idx := length (grid st) in
        '(result, st', calls) ←?
          try_candidates (backtrack fuel valid_numbers_by_row) row_idx
            (rows_get valid_numbers_by_row row_idx) st;
        Ok (result, st', S calls)
    end.

Definition initial_state : search_state :=
  {| grid := []; used_numbers := ∅;
     column_sets := replicate 9 ∅; box_sets := replicate 9 ∅ |}.

(** [try_build_sudoku_grid], with the number of calls of [backtrack]. *)
Definition try_build_sudoku_grid_calls (numbers : list str)
    : res (option (list str) * nat) :=
  valid_numbers_by_row ←? categorize_numbers_by_row numbers;
  if decide (Exists (λ i, rows_get valid_numbers_by_row i = []) (seq 0 9))
  then Ok (None, 0)
  else
    '(result, _, calls) ←? backtrack 9 valid_numbers_by_row initial_state;
    Ok (result, calls).

Definition try_build_sudoku_grid (numbers : list str)
    : res (option (list str)) :=
  '(result, _) ←? try_build_sudoku_grid_calls numbers;
  Ok result.

(** ** Top-level Orchestration *)

#[local] Open Scope Z_scope.

(** [analyze_divisor], without its printing. *)
Definition analyze_divisor (divisor count : Z) (numbers : list Z)
    (symbols : gset ascii) : res bool :=
  divisible_numbers ←? find_numbers_with_divisor numbers divisor;
  position_digits ←? check_digit_positions divisible_numbers symbols;
  let all_positions_complete :=
    forallb (λ digits : gset ascii, bool_decide (size digits = size symbols))
            position_digits in
  if all_positions_complete then
    grid ←? try_build_sudoku_grid divisible_numbers;
    Ok (bool_decide (is_Some grid))
  else Ok false.

(** The order of Python tuples [(divisor, count)], largest first. *)
Definition item_ge (x y : Z * Z) : Prop :=
  y.1 < x.1 ∨ (y.1 = x.1 ∧ y.2 ≤ x.2).

#[global] Instance item_ge_dec : RelDecision item_ge.
Proof. intros x y. unfold item_ge. apply _. Defined.

(** [sorted(divisor_counts.items(), reverse=True)]. *)
Definition sorted_items_desc (divisor_counts : gmap Z Z) : list (Z * Z) :=
  merge_sort item_ge (map_to_list divisor_counts).

(** The loop of [main] over the sorted items.  It returns the divisors
    handed to [analyze_divisor], in order, and how the loop ended:
    [Ok true] by [break], [Ok false] by exhaustion, or by an exception. *)
Fixpoint divisor_loop (items : list (Z * Z)) (numbers : list Z)
    (symbols : gset ascii) : list Z * res bool :=
  match items with
  | [] => ([], Ok false)
  | (divisor, count) :: items =>
      if decide (9 ≤ count) then
        match analyze_divisor divisor count numbers symbols with
        | Ok true => ([divisor], Ok true)
        | Ok false =>
            let '(analyzed, r) := divisor_loop items numbers symbols in
            (divisor :: analyzed, r)
        | Raise e => ([divisor], Raise e)
        end
      else divisor_loop items numbers symbols
  end.

(** [main] from the candidate list and the symbol set on. *)
Definition main_from (numbers : list Z) (symbols : gset ascii)
    : res (list Z * res bool) :=
  divisor_counts ←? build_divisor_counts numbers;
  Ok (divisor_loop (sorted_items_desc divisor_counts) numbers symbols).

(** ** Reading a grid *)

#[local] Close Scope Z_scope.

(** The digits of column [c], top to bottom. *)
Definition column (g : list str) (c : nat) : list ascii :=
  omap (λ row : str, row !! c) g.

(** The digits of the 3x3 box [b] (boxes numbered row by row), row by
    row. *)
Definition box_digits (g : list str) (b : nat) : list ascii :=
  mjoin ((λ row : str, take 3 (drop (3 * (b `mod` 3)) row))
           <$> take 3 (drop (3 * (b / 3)) g)).

(** The candidates offered to the search are 9 distinct characters each. *)
Definition candidates_ok (valid_numbers_by_row : gmap nat (list str)) : Prop :=
  map_Forall (λ _ l, Forall (λ num : str, length num = 9 ∧ NoDup num) l)
             valid_numbers_by_row.

(** The shape of the search state between two steps. *)
Definition state_wf (st : search_state) : Prop :=
  length (grid st) ≤ 9 ∧
  length (column_sets st) = 9 ∧
  length (box_sets st) = 9.

(** The column and box sets hold the digits of the rows placed so far, and
    no column or box of these rows repeats a digit. *)
Definition state_inv (valid_numbers_by_row : gmap nat (list str))
    (st : search_state) : Prop :=
  length (grid st) ≤ 9 ∧
  column_sets st = (λ c, list_to_set (column (grid st) c)) <$> seq 0 9 ∧
  box_sets st = (λ b, list_to_set (box_digits (grid st) b)) <$> seq 0 9 ∧
  (∀ c, c < 9 → NoDup (column (grid st) c)) ∧
  (∀ b, b < 9 → NoDup (box_digits (grid st) b)) ∧
  (∀ r num, grid st !! r = Some num → num ∈ rows_get valid_numbers_by_row r).

(** Every digit of [num] is new to the set of its column and to the set of
    its box: what the validity loop of [backtrack] checks. *)
Definition fresh_for (cols boxes : list (gset ascii)) (row : nat) (num : str)
    : Prop :=
  ∀ i d, num !! i = Some d →
    (∃ s, cols !! i = Some s ∧ d ∉ s) ∧
    (∃ s, boxes !! box_index_of row i = Some s ∧ d ∉ s).

(** The state after the forward step for [num] on row [row]. *)
Definition committed (num : str) (row : nat) (st : search_state)
    : search_state :=
  {| grid := grid st ++ [num];
     used_numbers := used_numbers st ∪ {[num]};
     column_sets := zip_with (λ s d, s ∪ {[d]}) (column_sets st) num;
     box_sets :=
       imap (λ b s, if decide (b / 3 = row / 3)
                    then s ∪ list_to_set (take 3 (drop (3 * (b `mod` 3)) num))
                    else s) (box_sets st) |}.

(** A call of [backtrack] that finds nothing leaves the shared objects as
    it found them. *)
Definition restores (recurse : search_state → search_result) : Prop :=
  ∀ st st' calls, state_wf st → recurse st = Ok (None, st', calls) → st' = st.

(** The three characters of [num] that fall in the box [b]. *)
Definition box_section (b : nat) (num : str) : list ascii :=
  take 3 (drop (3 * (b `mod` 3)) num).

(** What a successful call returns. *)
Definition finds_valid (vnr : gmap nat (list str))
    (recurse : search_state → search_result) : Prop :=
  ∀ st g st' calls, state_inv vnr st → recurse st = Ok (Some g, st', calls) →
    state_inv vnr st' ∧ g = grid st' ∧ length g = 9.

(** A recursive call that returns on every state with [depth] rows. *)
Definition returns_at (depth : nat)
    (recurse : search_state → search_result) : Prop :=
  ∀ st, state_wf st → length (grid st) = depth → ∃ out, recurse st = Ok out.

(** [num] matches the positional clue of [row]. *)
Definition matches_clue (num : str) (row : nat) : Prop :=
  ∃ pos digit, (row, Some (pos, digit)) ∈ get_row_constraints ∧
               num !! pos = Some digit.

(** ** Fixtures *)

(** Two complete grids over the alphabet without 1 that satisfy every clue;
    they share rows 0 to 5. *)
Definition alphabet_without_1 : str := list_ascii_of_string "023456789".

Definition grid_one : list str :=
  list_ascii_of_string <$>
    ["034567829"; "678029345"; "529348067"; "240635798"; "357894206";
     "896270453"; "465703982"; "983452670"; "702986534"]%string.

Definition grid_two : list str :=
  list_ascii_of_string <$>
    ["034567829"; "678029345"; "529348067"; "240635798"; "357894206";
     "896270453"; "485706932"; "703952684"; "962483570"]%string.

#[local] Open Scope Z_scope.

(** ** Auxiliary notions for the divisor pipeline *)

(** The count of [d], 0 when [d] is not a key. *)
Definition count_at (m : gmap Z Z) (d : Z) : Z := default 0 (m !! d).

(** [hit n k d]: the trial divisors [1..k] of [n] have reached [d], as a
    trial divisor itself or as the cofactor of one. *)
Definition hit (n k d : Z) : Prop :=
  0 < d ∧ n `mod` d = 0 ∧ (d ≤ k ∨ n `div` d ≤ k).

#[global] Instance hit_dec (n k d : Z) : Decision (hit n k d).
Proof. unfold hit. apply _. Defined.

(** The value of a decimal digit character. *)
Definition digit_value (c : ascii) : Z := Z.of_nat (nat_of_ascii c) - 48.

(** Strictly decreasing divisors. *)
Definition key_gt (x y : Z * Z) : Prop := y.1 < x.1.

(** ** Notions for the further properties *)

#[local] Close Scope Z_scope.

(** [num] has a symbol at a position that has no set: position [limit] or
    beyond. *)
Definition symbol_beyond (symbols : gset ascii) (limit : nat) (num : str)
    : Prop :=
  ∃ i c, num !! i = Some c ∧ c ∈ symbols ∧ limit ≤ i.

(** The box of the cell [(row, col)]. *)
Definition box_of (row col : nat) : nat := (row / 3) * 3 + col / 3.

(** The clues of [row_constraints] that fall in box [b], in order. *)
Definition clues_of_box (row_constraints : list (nat * row_clue)) (b : nat)
    : list box_clue :=
  omap (λ rc : nat * row_clue,
          match rc.2 with
          | Some (col, digit) =>
              if decide (box_of rc.1 col = b) then Some (rc.1, col, digit)
              else None
          | None => None
          end) row_constraints.
Arguments box_of : simpl never.
Arguments clues_of_box : simpl never.

(** The dictionary [{i: [] for i in range(9)}]. *)
Definition empty_boxes : gmap nat (list box_clue) :=
  list_to_map ((λ i, (i, [])) <$> seq 0 9).

#[global] Instance exn_eq_dec : EqDecision exn.
Proof. solve_decision. Defined.

#[global] Instance res_eq_dec `{EqDecision A} : EqDecision (res A).
Proof. solve_decision. Defined.

(** [num] matches the clue of [row] and passes the box check there: the
    rows that [find_valid_row_for_number] collects. *)
Definition eligible (num : str) (row : nat) : Prop :=
  matches_clue num row ∧ check_box_constraints num row = Ok true.

(** The numbers that [find_valid_row_for_number] sends to [row]. *)
Definition goes_to (row : nat) (num : str) : Prop :=
  find_valid_row_for_number num get_row_constraints = Ok (Some row).

#[global] Instance goes_to_dec (row : nat) (num : str) :
  Decision (goes_to row num).
Proof. unfold goes_to. apply _. Defined.

(** A complete grid that meets every rule: nine rows of nine characters, no
    column and no box with a repeated character, every clue in place. *)
Definition valid_grid (g : list str) : Prop :=
  length g = 9 ∧
  Forall (λ row : str, length row = 9) g ∧
  (∀ c, c < 9 → NoDup (column g c)) ∧
  (∀ b, b < 9 → NoDup (box_digits g b)) ∧
  (∀ r pos d, (r, Some (pos, d)) ∈ get_row_constraints →
     ∃ row, g !! r = Some row ∧ row !! pos = Some d).

(** The invariant of the search together with what [used_numbers] holds:
    the rows placed so far. *)
Definition state_inv_used (valid_numbers_by_row : gmap nat (list str))
    (st : search_state) : Prop :=
  state_inv valid_numbers_by_row st ∧
  used_numbers st = list_to_set (grid st).

(** A call that finds a grid. *)
Definition finds (recurse : search_state → search_result)
    (st : search_state) : Prop :=
  ∃ g st' calls, recurse st = Ok (Some g, st', calls).

(** ** Symbols and candidates *)

(** What [generate_symbols] gives: a set of one-character strings, or
    [ValueError]. *)
Inductive symbols_result : Type :=
  | Symbols (symbols : gset ascii)
  | ValueError.

(** [generate_symbols].  The digits [str(i)] are one-character strings, so
    taking out [{excluded_digit}] removes a character only when
    [excluded_digit] is one character long. *)
Definition generate_symbols (excluded_digit : str) : symbols_result :=
  if decide (excluded_digit ∈ [["0"%char]; ["2"%char]; ["5"%char]])
  then ValueError
  else
    Symbols (list_to_set (digit_char <$> seqZ 0 10) ∖
             match excluded_digit with [c] => {[c]} | _ => ∅ end).

(** Every way to take one element out of [pool], in the order of [pool]:
    the element and the others. *)
Fixpoint picks {A} (pool : list A) : list (A * list A) :=
  match pool with
  | [] => []
  | x :: pool => (x, pool) :: ((λ p, (p.1, x :: p.2)) <$> picks pool)
  end.

(** [itertools.permutations(pool, r)]: the tuples of [r] elements at
    distinct positions of [pool], in lexicographic order of the positions;
    none when [r] exceeds the length of [pool]. *)
Fixpoint itertools_permutations {A} (r : nat) (pool : list A)
    : list (list A) :=
  match r with
  | O => [[]]
  | S r => p ← picks pool; ((p.1 ::.) <$> itertools_permutations r p.2)
  end.

(** [generate_permutations] for a set of decimal digits, as a function of
    the order [pool] in which the set is iterated; on a string of decimal
    digits [int] is [int_of_str]. *)
Definition generate_permutations (pool : list ascii) : list Z :=
  int_of_str <$> itertools_permutations 9 pool.

(** [n (n-1) ... (n-r+1)]. *)
Fixpoint falling_factorial (n r : nat) : nat :=
  match r with
  | O => 1
  | S r => n * falling_factorial (n - 1) r
  end.

#[local] Open Scope Z_scope.

(** The strings that [find_numbers_with_divisor] hands on for a non-zero
    divisor. *)
Definition multiples_of (d : Z) (numbers : list Z) : list str :=
  format_09 <$> filter (λ n, n `mod` d = 0) numbers.

(** Every symbol occurs at every one of the nine positions. *)
Definition covers (numbers : list str) (symbols : gset ascii) : Prop :=
  ∀ (pos : nat) c, (pos < 9)%nat → c ∈ symbols →
    ∃ num, num ∈ numbers ∧ num !! pos = Some c.

(** Some valid grid can be made of the strings. *)
Definition buildable (numbers : list str) : Prop :=
  ∃ g, valid_grid g ∧ ∀ row, row ∈ g → row ∈ numbers.

(** What makes [analyze_divisor] answer [True]. *)
Definition succeeds (d : Z) (numbers : list Z) (symbols : gset ascii) : Prop :=
  covers (multiples_of d numbers) symbols ∧ buildable (multiples_of d numbers).

(** The candidates behind the rows of [grid_one] and [grid_two]. *)
Definition candidates_one_two : list Z := int_of_str <$> (grid_one ++ grid_two).

(** * Properties *)


(** ** Divisor counting *)

Section divisor_counts.
Implicit Types (n d i k : Z) (m : gmap Z Z).

Lemma lookup_incr k m d :
  incr k m !! d = if decide (d = k) then Some (count_at m d + 1) else m !! d.
Proof.
  unfold incr, count_at. destruct (decide (d = k)) as [->|].
  - by rewrite lookup_insert_eq.
  - by rewrite lookup_insert_ne.
Qed.

Lemma count_at_incr k m d :
  count_at (incr k m) d = if decide (d = k) then count_at m d + 1 else count_at m d.
Proof. unfold count_at at 1. rewrite lookup_incr. by destruct (decide _). Qed.

Lemma divisor_cofactor n i :
  0 < i → n `mod` i = 0 → n = i * (n `div` i).
Proof. intros ? Hmod. apply Z.div_exact; [lia|done]. Qed.

Lemma cofactor_of_cofactor n i :
  0 < n → 0 < i → n `mod` i = 0 →
  0 < n `div` i ∧ n `mod` (n `div` i) = 0 ∧ n `div` (n `div` i) = i.
Proof.
  intros Hn Hi Hmod. pose proof (divisor_cofactor n i Hi Hmod) as Hq.
  set (q := n `div` i) in *. assert (0 < q) by nia.
  split; [done|]. rewrite Hq at 1 2. split.
  - by apply Z_mod_mult.
  - apply Z.div_mul. lia.
Qed.

(** One more trial divisor: the divisors newly reached are [i] and its
    cofactor, and neither was reached before. *)
Lemma hit_succ n k d :
  0 < n → 0 ≤ k → (k + 1) * (k + 1) ≤ n →
  (hit n (k + 1) d ↔
     hit n k d ∨ (n `mod` (k + 1) = 0 ∧ (d = k + 1 ∨ d = n `div` (k + 1)))) ∧
  ¬ (hit n k d ∧ n `mod` (k + 1) = 0 ∧ (d = k + 1 ∨ d = n `div` (k + 1))).
Proof.
  intros Hn Hk Hsq. unfold hit. split; [split|].
  - intros (Hd & Hmod & Hle).
    destruct (decide (d ≤ k ∨ n `div` d ≤ k)) as [|Hnot]; [by left|right].
    destruct (cofactor_of_cofactor n d Hn Hd Hmod) as (Hq & Hqmod & Hqq).
    destruct Hle as [Hle|Hle].
    + assert (d = k + 1) as -> by lia. auto.
    + assert (n `div` d = k + 1) as Heq by lia.
      rewrite <-Heq. rewrite Hqmod, Hqq. auto.
  - intros [(Hd & Hmod & Hle)|(Hmod & Heq)].
    + split_and!; [done..|]. lia.
    + destruct (cofactor_of_cofactor n (k + 1)) as (Hq & Hqmod & Hqq); [lia..|].
      destruct Heq as [->| ->]; split_and!; try done; try lia.
  - intros ((Hd & Hmod & Hle) & Hmod' & Heq).
    destruct (cofactor_of_cofactor n (k + 1)) as (Hq & Hqmod & Hqq); [lia..|].
    pose proof (divisor_cofactor n (k + 1)) as Hn'.
    destruct Heq as [->| ->].
    + nia.
    + rewrite Hqq in Hle. nia.
Qed.

Lemma count_divisors_loop n m (j : nat) :
  0 < n → Z.of_nat j * Z.of_nat j ≤ n →
  ∀ d, foldl (count_divisors_body n) m (seqZ 1 (Z.of_nat j)) !! d =
       if decide (hit n (Z.of_nat j) d) then Some (count_at m d + 1) else m !! d.
Proof.
  intros Hn. induction j as [|j IH]; intros Hsq d.
  - simpl. rewrite decide_False; [done|]. unfold hit.
    intros (? & Hmod & [?|Hq]); [lia|].
    destruct (cofactor_of_cofactor n d) as (? & _); lia.
  - rewrite seqZ_S, foldl_app. simpl.
    set (m' := foldl _ _ _) in *. replace (1 + Z.of_nat j) with (Z.of_nat j + 1) by lia.
    assert (Z.of_nat j * Z.of_nat j ≤ n) as Hsq' by nia.
    specialize (IH Hsq').
    destruct (hit_succ n (Z.of_nat j) d) as [Hiff Hexcl]; [lia..|].
    replace (Z.of_nat (S j)) with (Z.of_nat j + 1) by lia.
    assert (count_at m' d = if decide (hit n (Z.of_nat j) d)
                            then count_at m d + 1 else count_at m d) as Hcnt.
    { unfold count_at at 1. rewrite IH. by destruct (decide _). }
    unfold count_divisors_body.
    destruct (decide (n `mod` (Z.of_nat j + 1) = 0)) as [Hmod|Hmod].
    + destruct (decide (Z.of_nat j + 1 ≠ n `div` (Z.of_nat j + 1))) as [Hne|Heq].
      * rewrite !lookup_incr, count_at_incr, Hcnt, IH.
        repeat case_decide; try done; exfalso; first [tauto | congruence].
      * apply dec_stable in Heq. rewrite <-Heq in Hiff, Hexcl.
        rewrite lookup_incr, Hcnt, IH.
        repeat case_decide; try done; exfalso; first [tauto | congruence].
    + rewrite IH. repeat case_decide; try done; exfalso; first [tauto | congruence].
Qed.

Lemma hit_sqrt n d :
  0 < n → hit n (Z.sqrt n) d ↔ 0 < d ∧ n `mod` d = 0.
Proof.
  intros Hn. unfold hit. split; [tauto|]. intros [Hd Hmod].
  split_and!; [done..|].
  destruct (decide (d ≤ Z.sqrt n)); [by left|right].
  pose proof (Z.sqrt_spec n ltac:(lia)) as [_ Hlt].
  pose proof (divisor_cofactor n d Hd Hmod).
  pose proof (Z.sqrt_nonneg n). nia.
Qed.

Lemma count_divisors_lookup n m :
  0 < n →
  ∃ m', count_divisors n m = Ok m' ∧
    ∀ d, m' !! d = if decide (0 < d ∧ n `mod` d = 0)
                   then Some (count_at m d + 1) else m !! d.
Proof.
  intros Hn. unfold count_divisors. rewrite decide_False by lia.
  eexists; split; [done|]. intros d.
  pose proof (Z.sqrt_nonneg n). pose proof (Z.sqrt_spec n ltac:(lia)) as [Hsq _].
  rewrite <-(Z2Nat.id (Z.sqrt n)) at 1 by done.
  rewrite count_divisors_loop; [|done|rewrite Z2Nat.id by done; lia].
  rewrite Z2Nat.id by done.
  pose proof (hit_sqrt n d Hn). repeat case_decide; try done; tauto.
Qed.

Lemma multiples_cons d n numbers :
  multiples d (n :: numbers) =
    if decide (n `mod` d = 0) then multiples d numbers + 1 else multiples d numbers.
Proof.
  unfold multiples. rewrite filter_cons. destruct (decide _); simpl; lia.
Qed.

Lemma multiples_pos d numbers :
  0 < multiples d numbers ↔ ∃ n, n ∈ numbers ∧ n `mod` d = 0.
Proof.
  unfold multiples. split.
  - intros Hpos. destruct (filter _ numbers) as [|n l] eqn:Hf; [simpl in *; lia|].
    exists n. apply and_comm, (list_elem_of_filter (λ n, n `mod` d = 0)).
    rewrite Hf. left.
  - intros (n & Hin & Hmod).
    assert (n ∈ filter (λ n, n `mod` d = 0) numbers) as Hel
      by by apply list_elem_of_filter.
    destruct (filter _ numbers); [by apply elem_of_nil in Hel|simpl; lia].
Qed.

Lemma build_from_lookup numbers m :
  Forall (λ n, 0 < n) numbers →
  ∃ m', build_from numbers m = Ok m' ∧
    ∀ d, m' !! d = if decide (0 < d ∧ 0 < multiples d numbers)
                   then Some (count_at m d + multiples d numbers) else m !! d.
Proof.
  intros Hpos. revert m. induction Hpos as [|n numbers Hn _ IH]; intros m.
  - exists m. split; [done|]. intros d. rewrite decide_False; [done|].
    unfold multiples; simpl; lia.
  - simpl. destruct (count_divisors_lookup n m Hn) as (m1 & -> & Hm1). simpl.
    destruct (IH m1) as (m' & -> & Hm'). exists m'. split; [done|].
    intros d. rewrite Hm', multiples_cons. unfold count_at at 1. rewrite Hm1.
    assert (0 ≤ multiples d numbers) by (unfold multiples; lia).
    repeat case_decide; simpl; try done; try (f_equal; lia); try (exfalso; lia).
    all: try (exfalso; intuition lia).
    all: f_equal; unfold count_at; lia.
Qed.
End divisor_counts.

(** C5. For a list of positive candidates below [10^9]
    [build_divisor_counts] returns a mapping; it has an entry for every
    divisor of every candidate; every key is positive and its count is the
    number of candidates [n] with [n % d == 0]. *)
Theorem build_divisor_counts_exact (numbers : list Z) :
  Forall (λ n, 0 < n < 10 ^ 9) numbers →
  ∃ m, build_divisor_counts numbers = Ok m ∧
    (∀ n d, n ∈ numbers → 0 < d → n `mod` d = 0 → is_Some (m !! d)) ∧
    (∀ d c, m !! d = Some c → 0 < d ∧ c = multiples d numbers).
Proof.
  intros Hrange.
  assert (Forall (λ n, 0 < n) numbers) as Hpos.
  { eapply Forall_impl; [exact Hrange|]. simpl. lia. }
  clear Hrange. unfold build_divisor_counts.
  destruct (build_from_lookup numbers ∅ Hpos) as (m & Hm & Hlook).
  exists m. split; [done|]. split.
  - intros n d Hin Hd Hmod. rewrite Hlook, decide_True; [done|].
    split; [done|]. apply multiples_pos; eauto.
  - intros d c. rewrite Hlook. case_decide as Hdec.
    + unfold count_at. rewrite lookup_empty. simpl.
      intros [= <-]. split; [tauto|lia].
    + by rewrite lookup_empty.
Qed.

Lemma build_divisor_counts_exact_witness :
  ∃ m, build_divisor_counts [12; 24; 36] = Ok m ∧
    (∀ n d, n ∈ [12; 24; 36] → 0 < d → n `mod` d = 0 → is_Some (m !! d)) ∧
    (∀ d c, m !! d = Some c → 0 < d ∧ c = multiples d [12; 24; 36]).
Proof.
  apply (build_divisor_counts_exact [12; 24; 36]).
  repeat constructor; lia.
Defined.

(** The counts do not depend on the order of the candidates, and so
    neither does the order in which the divisors are analysed. *)
Lemma build_divisor_counts_order_independent (numbers numbers' : list Z) :
  Forall (λ n, 0 < n) numbers → numbers ≡ₚ numbers' →
  build_divisor_counts numbers = build_divisor_counts numbers'.
Proof.
  intros Hpos Hperm.
  assert (Forall (λ n, 0 < n) numbers') as Hpos' by by rewrite <-Hperm.
  unfold build_divisor_counts.
  destruct (build_from_lookup numbers ∅ Hpos) as (m & -> & Hm).
  destruct (build_from_lookup numbers' ∅ Hpos') as (m' & -> & Hm').
  f_equal. apply map_eq. intros d. rewrite Hm, Hm'.
  assert (multiples d numbers = multiples d numbers') as ->; [|done].
  unfold multiples. by rewrite Hperm.
Qed.

(** ** The candidate filter *)

Section candidate_filter.
Implicit Types (n d : Z) (s : str).

Lemma digit_char_value d :
  0 ≤ d < 10 → digit_value (digit_char d) = d ∧ is_digit (digit_char d).
Proof.
  intros Hd. unfold digit_value, digit_char, is_digit.
  rewrite nat_ascii_embedding by lia. lia.
Qed.

Lemma int_of_str_snoc s c :
  int_of_str (s ++ [c]) = 10 * int_of_str s + digit_value c.
Proof. unfold int_of_str. by rewrite foldl_app. Qed.

Lemma int_of_str_zeros k s :
  int_of_str (replicate k "0"%char ++ s) = int_of_str s.
Proof.
  unfold int_of_str. rewrite foldl_app. f_equal.
  induction k as [|k IH]; [done|]. simpl. exact IH.
Qed.

Lemma decimal_digits_spec fuel n :
  0 ≤ n < 2 ^ Z.of_nat fuel →
  int_of_str (decimal_digits fuel n) = n ∧
  Forall is_digit (decimal_digits fuel n) ∧
  ∀ k : nat, (0 < k)%nat → n < 10 ^ Z.of_nat k →
             (length (decimal_digits fuel n) ≤ k)%nat.
Proof.
  revert n. induction fuel as [|fuel IH]; intros n Hn.
  { simpl in Hn. assert (n = 0) as -> by lia. simpl.
    split_and!; [done|constructor|intros; lia]. }
  simpl. destruct (decide (n < 10)) as [Hlt|Hge].
  - destruct (digit_char_value n) as [Hv Hd]; [lia|].
    split_and!.
    + unfold int_of_str. simpl. fold (digit_value (digit_char n)). lia.
    + constructor; [done|constructor].
    + simpl. intros; lia.
  - assert (0 ≤ n `div` 10 < 2 ^ Z.of_nat fuel) as Hdiv.
    { rewrite Nat2Z.inj_succ, Z.pow_succ_r in Hn by lia.
      split; [apply Z.div_pos; lia|].
      apply Z.div_lt_upper_bound; lia. }
    destruct (IH _ Hdiv) as (Hval & Hdig & Hlen).
    destruct (digit_char_value (n `mod` 10)) as [Hv Hd].
    { apply Z.mod_pos_bound; lia. }
    split_and!.
    + rewrite int_of_str_snoc, Hval, Hv. symmetry. apply Z.div_mod. lia.
    + apply Forall_app. split; [done|]. constructor; [done|constructor].
    + intros k Hk Hnk. rewrite length_app. simpl.
      destruct k as [|[|k]]; [lia|simpl in Hnk; lia|].
      assert (length (decimal_digits fuel (n `div` 10)) ≤ S k)%nat; [|lia].
      apply Hlen; [lia|].
      rewrite (Nat2Z.inj_succ (S k)), Z.pow_succ_r in Hnk by lia.
      apply Z.div_lt_upper_bound; lia.
Qed.

Lemma str_of_nonneg_spec n :
  0 ≤ n →
  int_of_str (str_of_nonneg n) = n ∧
  Forall is_digit (str_of_nonneg n) ∧
  ∀ k : nat, (0 < k)%nat → n < 10 ^ Z.of_nat k →
             (length (str_of_nonneg n) ≤ k)%nat.
Proof.
  intros Hn. apply decimal_digits_spec. split; [done|].
  destruct (decide (n = 0)) as [->|]; [by apply Z.pow_pos_nonneg; lia|].
  rewrite Nat2Z.inj_succ, Z2Nat.id by apply Z.log2_nonneg.
  apply Z.log2_spec. lia.
Qed.

(** On a 9-digit candidate the formatted string has nine characters, all
    decimal digits, and denotes the candidate. *)
Lemma format_09_spec n :
  0 ≤ n < 10 ^ 9 →
  length (format_09 n) = 9%nat ∧
  Forall is_digit (format_09 n) ∧
  int_of_str (format_09 n) = n.
Proof.
  intros Hn. unfold format_09. rewrite decide_False by lia.
  destruct (str_of_nonneg_spec n) as (Hval & Hdig & Hlen); [lia|].
  specialize (Hlen 9%nat ltac:(lia) ltac:(change (Z.of_nat 9) with 9; lia)).
  unfold zfill. split_and!.
  - rewrite length_app, length_replicate. lia.
  - apply Forall_app. split; [|done].
    apply Forall_replicate. unfold is_digit.
    change (nat_of_ascii "0") with 48%nat. lia.
  - by rewrite int_of_str_zeros.
Qed.

Lemma find_numbers_with_divisor_filter numbers d :
  d ≠ 0 →
  find_numbers_with_divisor numbers d =
    Ok (format_09 <$> filter (λ n, n `mod` d = 0) numbers).
Proof.
  intros Hd. induction numbers as [|n numbers IH]; [done|].
  simpl. rewrite decide_False by done. rewrite IH. simpl.
  rewrite filter_cons. by destruct (decide _).
Qed.
End candidate_filter.

(** C8. For candidates [0 ≤ n < 10^9] and a positive divisor [d],
    [find_numbers_with_divisor] returns, in order, the strings of the
    candidates with [n % d == 0] and of no others; each such string has
    length 9, consists of decimal digits and reads back as its candidate.  *)
Theorem find_numbers_with_divisor_exact (numbers : list Z) (d : Z) :
  Forall (λ n, 0 ≤ n < 10 ^ 9) numbers → 0 < d →
  ∃ l, find_numbers_with_divisor numbers d = Ok l ∧
    l = format_09 <$> filter (λ n, n `mod` d = 0) numbers ∧
    (∀ s, s ∈ l ↔ ∃ n, n ∈ numbers ∧ n `mod` d = 0 ∧ s = format_09 n) ∧
    Forall (λ s, length s = 9%nat) l ∧
    (∀ n, n ∈ numbers →
          length (format_09 n) = 9%nat ∧ Forall is_digit (format_09 n) ∧
          int_of_str (format_09 n) = n).
Proof.
  intros Hrange Hd. eexists. split; [apply find_numbers_with_divisor_filter; lia|].
  rewrite Forall_forall in Hrange.
  split_and!; [done| | |].
  - intros s. rewrite list_elem_of_fmap. setoid_rewrite list_elem_of_filter.
    naive_solver.
  - apply Forall_fmap, Forall_forall. intros n [_ Hin]%list_elem_of_filter.
    simpl. by apply format_09_spec, Hrange.
  - intros n Hin. by apply format_09_spec, Hrange.
Qed.

Lemma find_numbers_with_divisor_exact_witness :
  ∃ l, find_numbers_with_divisor [12345678; 123456789; 987654321] 9 = Ok l ∧
    l = format_09 <$> filter (λ n, n `mod` 9 = 0) [12345678; 123456789; 987654321] ∧
    (∀ s, s ∈ l ↔ ∃ n, n ∈ [12345678; 123456789; 987654321] ∧ n `mod` 9 = 0
                       ∧ s = format_09 n) ∧
    Forall (λ s, length s = 9%nat) l ∧
    (∀ n, n ∈ [12345678; 123456789; 987654321] →
          length (format_09 n) = 9%nat ∧ Forall is_digit (format_09 n) ∧
          int_of_str (format_09 n) = n).
Proof.
  apply (find_numbers_with_divisor_exact [12345678; 123456789; 987654321] 9).
  - repeat constructor; lia.
  - lia.
Defined.

(** ** The positional coverage checker *)

Section coverage.
Close Scope Z_scope.
Implicit Types (num : str) (numbers : list str) (symbols digits : gset ascii)
  (pd : list (gset ascii)) (pos i : nat).

(** The inner loop stays within the nine sets when the rest of the string
    does, and adds to set [i] exactly the character of the string that
    falls on [i], if it is a symbol. *)
Lemma scan_digits_spec symbols num pos pd :
  pos + length num ≤ length pd →
  ∃ pd', scan_digits symbols pos num pd = Ok pd' ∧ length pd' = length pd ∧
    ∀ i digits', pd' !! i = Some digits' →
      ∃ digits, pd !! i = Some digits ∧
        ∀ c, c ∈ digits' ↔
             c ∈ digits ∨ (c ∈ symbols ∧ pos ≤ i ∧ num !! (i - pos) = Some c).
Proof.
  revert pos pd. induction num as [|digit num IH]; intros pos pd Hlen.
  { exists pd. split_and!; [done..|]. intros i digits' Hi.
    exists digits'. split; [done|]. intros c. rewrite lookup_nil. naive_solver. }
  simpl in *. destruct (decide (digit ∈ symbols)) as [Hin|Hnin].
  - unfold index. destruct (lookup_lt_is_Some_2 pd pos) as [s Hs]; [lia|].
    rewrite Hs. simpl.
    destruct (IH (S pos) (<[pos:=s ∪ {[digit]}]> pd)) as (pd' & -> & Hl & Hpd').
    { rewrite length_insert. lia. }
    rewrite length_insert in Hl.
    exists pd'. split_and!; [done..|]. intros i digits' Hi.
    destruct (Hpd' i digits' Hi) as (digits & Hdig & Hc).
    destruct (decide (i = pos)) as [->|Hne].
    + rewrite list_lookup_insert_eq in Hdig by lia. simplify_eq.
      exists s. split; [done|]. intros c. rewrite Hc, Nat.sub_diag. simpl.
      rewrite elem_of_union, elem_of_singleton. split.
      * intros [[?| ->]|(_ & ? & _)]; [by left|by right|lia].
      * intros [?|(? & _ & [= ->])]; left; [by left|by right].
    + rewrite list_lookup_insert_ne in Hdig by done.
      exists digits. split; [done|]. intros c. rewrite Hc.
      split; (intros [?|(? & ? & Hnth)]; [by left|right]).
      * split_and!; [done|lia|].
        replace (i - pos) with (S (i - S pos)) by lia. done.
      * split_and!; [done|lia|].
        replace (i - pos) with (S (i - S pos)) in Hnth by lia. done.
  - destruct (IH (S pos) pd) as (pd' & -> & Hl & Hpd'); [lia|].
    exists pd'. split_and!; [done..|]. intros i digits' Hi.
    destruct (Hpd' i digits' Hi) as (digits & Hdig & Hc).
    exists digits. split; [done|]. intros c. rewrite Hc.
    split; (intros [?|(? & ? & Hnth)]; [by left|right]).
    + split_and!; [done|lia|].
      replace (i - pos) with (S (i - S pos)) by lia. done.
    + destruct (decide (i = pos)) as [->|].
      { rewrite Nat.sub_diag in Hnth. simpl in Hnth. congruence. }
      split_and!; [done|lia|].
      replace (i - pos) with (S (i - S pos)) in Hnth by lia. done.
Qed.

Lemma scan_numbers_spec symbols numbers pd :
  Forall (λ num, length num ≤ length pd) numbers →
  ∃ pd', scan_numbers symbols numbers pd = Ok pd' ∧ length pd' = length pd ∧
    ∀ i digits', pd' !! i = Some digits' →
      ∃ digits, pd !! i = Some digits ∧
        ∀ c, c ∈ digits' ↔
             c ∈ digits ∨ (c ∈ symbols ∧ ∃ num, num ∈ numbers ∧ num !! i = Some c).
Proof.
  intros Hall. revert pd Hall.
  induction numbers as [|num numbers IH]; intros pd Hall.
  { exists pd. split_and!; [done..|]. intros i digits' Hi. exists digits'.
    split; [done|]. intros c. setoid_rewrite elem_of_nil. naive_solver. }
  apply Forall_cons in Hall as [Hnum Hall]. simpl.
  destruct (scan_digits_spec symbols num 0 pd) as (pd1 & -> & Hl1 & Hpd1); [lia|].
  simpl. destruct (IH pd1) as (pd' & -> & Hl & Hpd').
  { by rewrite Hl1. }
  exists pd'. split_and!; [done|congruence|]. intros i digits' Hi.
  destruct (Hpd' i digits' Hi) as (digits1 & Hdig1 & Hc').
  destruct (Hpd1 i digits1 Hdig1) as (digits & Hdig & Hc).
  exists digits. split; [done|]. intros c. rewrite Hc', Hc, Nat.sub_0_r.
  setoid_rewrite elem_of_cons. naive_solver lia.
Qed.
End coverage.

(** C10. On 9-character strings [check_digit_positions] returns nine sets;
    the set of a position holds exactly the symbols of [S] seen at that
    position, so it is a subset of [S], and it has the size of [S] exactly
    when it is [S]. *)
Theorem check_digit_positions_subset (numbers : list str) (symbols : gset ascii) :
  Forall (λ num, length num = 9%nat) numbers →
  ∃ position_digits,
    check_digit_positions numbers symbols = Ok position_digits ∧
    length position_digits = 9%nat ∧
    ∀ (pos : nat) (digits : gset ascii),
      position_digits !! pos = Some digits →
      (∀ c, c ∈ digits ↔
            c ∈ symbols ∧ ∃ num, num ∈ numbers ∧ num !! pos = Some c) ∧
      digits ⊆ symbols ∧
      (size digits = size symbols ↔ digits = symbols).
Proof.
  intros Hlen. unfold check_digit_positions.
  destruct (scan_numbers_spec symbols numbers (replicate 9 ∅))
    as (pd & Hpd & Hl & Hspec).
  { rewrite length_replicate. eapply Forall_impl; [done|]. simpl. lia. }
  rewrite length_replicate in Hl.
  exists pd. split_and!; [done..|]. intros pos digits Hpos.
  destruct (Hspec pos digits Hpos) as (digits0 & Hd0 & Hc).
  apply lookup_replicate in Hd0 as [-> _].
  assert (∀ c, c ∈ digits ↔
               c ∈ symbols ∧ ∃ num, num ∈ numbers ∧ num !! pos = Some c) as Hmem.
  { intros c. rewrite Hc. set_solver. }
  assert (digits ⊆ symbols) as Hsub.
  { intros c. rewrite Hmem. tauto. }
  split_and!; [done..|]. split; [|by intros ->].
  intros Hsize. apply set_subseteq_size_eq; [done|lia].
Qed.

Lemma check_digit_positions_subset_witness :
  ∃ position_digits,
    check_digit_positions
      [list_ascii_of_string "123456789"; list_ascii_of_string "x23456780"]
      (list_to_set (list_ascii_of_string "012345678")) = Ok position_digits ∧
    length position_digits = 9%nat ∧
    ∀ (pos : nat) (digits : gset ascii),
      position_digits !! pos = Some digits →
      (∀ c, c ∈ digits ↔
            c ∈ (list_to_set (list_ascii_of_string "012345678") : gset ascii) ∧
            ∃ num, num ∈ [list_ascii_of_string "123456789";
                          list_ascii_of_string "x23456780"] ∧
                   num !! pos = Some c) ∧
      digits ⊆ list_to_set (list_ascii_of_string "012345678") ∧
      (size digits = size (list_to_set (list_ascii_of_string "012345678") : gset ascii)
       ↔ digits = list_to_set (list_ascii_of_string "012345678")).
Proof.
  apply (check_digit_positions_subset
           [list_ascii_of_string "123456789"; list_ascii_of_string "x23456780"]
           (list_to_set (list_ascii_of_string "012345678"))).
  repeat constructor.
Defined.

(** ** The divisor loop *)

Section divisor_loop.
Implicit Types (m : gmap Z Z) (items : list (Z * Z)) (analyzed : list Z)
  (numbers : list Z) (symbols : gset ascii).

#[local] Instance item_ge_trans : Transitive item_ge.
Proof. intros [??] [??] [??]. unfold item_ge. simpl. lia. Qed.

#[local] Instance item_ge_total : Total item_ge.
Proof. intros [??] [??]. unfold item_ge. simpl. lia. Qed.

Lemma strictly_sorted_keys items :
  StronglySorted item_ge items → NoDup items.*1 →
  StronglySorted key_gt items.
Proof.
  induction 1 as [|x items Hsorted IH Hall]; intros Hnodup; [constructor|].
  rewrite fmap_cons in Hnodup. apply NoDup_cons in Hnodup as [Hnotin Hnodup].
  constructor; [by apply IH|].
  rewrite Forall_forall in Hall |- *. intros y Hy.
  destruct (Hall y Hy) as [?|[Heq _]]; [done|]. exfalso.
  apply Hnotin. rewrite <-Heq. by apply list_elem_of_fmap_2.
Qed.

Lemma sorted_items_desc_spec m :
  StronglySorted key_gt (sorted_items_desc m) ∧
  ∀ d c, (d, c) ∈ sorted_items_desc m ↔ m !! d = Some c.
Proof.
  unfold sorted_items_desc. split.
  - apply strictly_sorted_keys; [apply StronglySorted_merge_sort; apply _|].
    rewrite merge_sort_Permutation. apply NoDup_fst_map_to_list.
  - intros d c. rewrite merge_sort_Permutation. apply elem_of_map_to_list.
Qed.

Lemma divisor_loop_spec items numbers symbols :
  StronglySorted key_gt items →
  let analyzed := (divisor_loop items numbers symbols).1 in
  let r := (divisor_loop items numbers symbols).2 in
  StronglySorted Z.gt analyzed ∧
  (∀ d, d ∈ analyzed → ∃ c, (d, c) ∈ items ∧ 9 ≤ c) ∧
  (∀ (i : nat) d, analyzed !! i = Some d →
     ∃ c, (d, c) ∈ items ∧
       analyze_divisor d c numbers symbols =
         if decide (S i = length analyzed) then r else Ok false) ∧
  (analyzed = [] → r = Ok false) ∧
  (∀ d c, (d, c) ∈ items → 9 ≤ c →
     d ∈ analyzed ∨ (r ≠ Ok false ∧ ∃ d', last analyzed = Some d' ∧ d < d')).
Proof.
  induction 1 as [|[d0 c0] items Hsorted IH Hall]; simpl.
  { split_and!; [constructor|by intros ? ?%elem_of_nil|done|done|].
    by intros ?? ?%elem_of_nil. }
  rewrite Forall_forall in Hall.
  destruct IH as (IH1 & IH2 & IH3 & IH4 & IH5).
  destruct (decide (9 ≤ c0)) as [Hc0|Hc0]; cycle 1.
  { split_and!; [done| | |done|].
    - intros d Hd. destruct (IH2 d Hd) as (c & ? & ?). exists c.
      split; [by right|done].
    - intros i d Hi. destruct (IH3 i d Hi) as (c & ? & ?). exists c.
      split; [by right|done].
    - intros d c [[= -> ->]|Hin]%elem_of_cons Hc; [lia|]. by apply (IH5 d c). }
  destruct (analyze_divisor d0 c0 numbers symbols) as [[|]|e] eqn:Han; simpl.
  - split_and!.
    + repeat constructor.
    + intros d ->%list_elem_of_singleton. exists c0. split; [left|done].
    + intros [|i] d [= <-]. exists c0. split; [left|done].
    + done.
    + intros d c [[= -> ->]|Hin]%elem_of_cons Hc; [left; left|right].
      split; [done|]. exists d0. split; [done|]. apply (Hall _ Hin).
  - destruct (divisor_loop items numbers symbols) as [analyzed r] eqn:Hloop.
    simpl in *. split_and!.
    + constructor; [done|]. apply Forall_forall. intros d Hd.
      destruct (IH2 d Hd) as (c & Hin & _). apply Z.lt_gt, (Hall _ Hin).
    + intros d [->|Hd]%elem_of_cons.
      * exists c0. split; [left|done].
      * destruct (IH2 d Hd) as (c & ? & ?). exists c. split; [by right|done].
    + intros [|i] d Hi; simpl in Hi.
      * injection Hi as <-. exists c0. split; [left|].
        rewrite Han. destruct analyzed; simpl.
        -- by rewrite IH4.
        -- done.
      * destruct (IH3 i d Hi) as (c & ? & Hc). exists c. split; [by right|].
        rewrite Hc. repeat case_decide; try done; lia.
    + done.
    + intros d c [[= -> ->]|Hin]%elem_of_cons Hc; [left; left|].
      destruct (IH5 d c Hin Hc) as [?|(Hr & d' & Hlast & Hlt)]; [left; by right|].
      right. split; [done|]. exists d'. split; [|done].
      destruct analyzed; [done|]. by rewrite last_cons_cons.
  - split_and!.
    + repeat constructor.
    + intros d ->%list_elem_of_singleton. exists c0. split; [left|done].
    + intros [|i] d [= <-]. exists c0. split; [left|done].
    + done.
    + intros d c [[= -> ->]|Hin]%elem_of_cons Hc; [left; left|right].
      split; [done|]. exists d0. split; [done|]. apply (Hall _ Hin).
Qed.
End divisor_loop.

(** C7. The divisors that the loop of [main] hands to [analyze_divisor]
    are strictly descending and each has a count of at least 9; every one
    of them but the last failed, and the last decides how the loop ended,
    so no divisor is analysed after a success; and a qualifying divisor
    is left out only when the loop stopped at a larger one. *)
Theorem divisor_loop_descending_first_success
    (divisor_counts : gmap Z Z) (numbers : list Z) (symbols : gset ascii) :
  let run := divisor_loop (sorted_items_desc divisor_counts) numbers symbols in
  StronglySorted Z.gt run.1 ∧
  (∀ d, d ∈ run.1 → ∃ c, divisor_counts !! d = Some c ∧ 9 ≤ c) ∧
  (∀ (i : nat) d, run.1 !! i = Some d →
     ∃ c, divisor_counts !! d = Some c ∧
       analyze_divisor d c numbers symbols =
         if decide (S i = length run.1) then run.2 else Ok false) ∧
  (run.1 = [] → run.2 = Ok false) ∧
  (∀ d c, divisor_counts !! d = Some c → 9 ≤ c →
     d ∈ run.1 ∨ (run.2 ≠ Ok false ∧ ∃ d', last run.1 = Some d' ∧ d < d')).
Proof.
  destruct (sorted_items_desc_spec divisor_counts) as [Hsorted Hitems].
  destruct (divisor_loop_spec _ numbers symbols Hsorted)
    as (H1 & H2 & H3 & H4 & H5).
  simpl. split_and!; [done| | |done|].
  - intros d Hd. destruct (H2 d Hd) as (c & ?%Hitems & ?). eauto.
  - intros i d Hi. destruct (H3 i d Hi) as (c & ?%Hitems & ?). eauto.
  - intros d c Hd%Hitems Hc. by apply (H5 d c).
Qed.

(** ** The grid assembler: one forward step and its undo *)

Section forward_undo.
Close Scope Z_scope.
Implicit Types (num : str) (cols boxes : list (gset ascii))
  (row col : nat) (st : search_state).

Ltac nine l H :=
  do 9 (destruct l as [|? l]; [discriminate H|]);
  destruct l; [clear H|discriminate H].

Ltac list_eq :=
  repeat (apply (f_equal2 cons); [set_solver|]); reflexivity.

(** A candidate that passes the validity loop has, in every column, a
    digit that is neither in the set of the column nor in the set of the
    box of the column. *)
Lemma can_place_true cols boxes row col num :
  can_place cols boxes row col num = Ok true →
  ∀ i d, num !! i = Some d →
    (∃ s, cols !! (col + i) = Some s ∧ d ∉ s) ∧
    (∃ s, boxes !! box_index_of row (col + i) = Some s ∧ d ∉ s).
Proof.
  revert col. induction num as [|digit num IH]; intros col Hok i d Hi.
  { by rewrite lookup_nil in Hi. }
  simpl in Hok. unfold index in Hok.
  destruct (cols !! col) as [cs|] eqn:Hcs; [simpl in Hok|done].
  destruct (decide (digit ∈ cs)); [done|].
  destruct (boxes !! box_index_of row col) as [bs|] eqn:Hbs; [simpl in Hok|done].
  destruct (decide (digit ∈ bs)); [done|].
  destruct i as [|i]; simpl in Hi.
  - injection Hi as <-. rewrite Nat.add_0_r. split; eauto.
  - replace (col + S i) with (S col + i) by lia. by apply IH.
Qed.

(** Only the band [row / 3] of the row matters to the box index. *)
Lemma box_index_of_band row col :
  box_index_of row col = box_index_of (3 * (row / 3)) col.
Proof.
  unfold box_index_of. f_equal. f_equal.
  rewrite Nat.mul_comm, Nat.div_mul; lia.
Qed.

Lemma add_digits_same_boxes row row' col num cols boxes :
  (∀ c, box_index_of row c = box_index_of row' c) →
  add_digits row col num cols boxes = add_digits row' col num cols boxes.
Proof.
  intros Hbox. revert col cols boxes.
  induction num as [|d num IH]; intros; [done|].
  simpl. rewrite Hbox.
  destruct (index cols col); [simpl|done].
  destruct (index boxes _); [simpl|done]. apply IH.
Qed.

Lemma remove_digits_same_boxes row row' col num cols boxes :
  (∀ c, box_index_of row c = box_index_of row' c) →
  remove_digits row col num cols boxes = remove_digits row' col num cols boxes.
Proof.
  intros Hbox. revert col cols boxes.
  induction num as [|d num IH]; intros; [done|].
  simpl. rewrite Hbox.
  destruct (index cols col); [simpl|done].
  destruct (set_remove _ _); [simpl|done].
  destruct (index boxes _); [simpl|done].
  destruct (set_remove _ _); [simpl|done]. apply IH.
Qed.

Ltac each_band row Hrow :=
  let k := fresh "k" in
  let Hk := fresh "Hk" in
  assert (row / 3 < 3) as Hk by (apply Nat.Div0.div_lt_upper_bound; lia);
  set (k := row / 3) in *; clearbody k; clear Hrow;
  destruct k as [|[|[|?]]]; [..|exfalso; lia]; clear Hk.



Lemma add_digits_nine row num cols boxes :
  row < 9 → length num = 9 → length cols = 9 → length boxes = 9 →
  add_digits row 0 num cols boxes =
    Ok (zip_with (λ s d, s ∪ {[d]}) cols num,
        imap (λ b s, if decide (b / 3 = row / 3)
                     then s ∪ list_to_set (take 3 (drop (3 * (b `mod` 3)) num))
                     else s) boxes).
Proof.
  intros Hrow Hnum Hcols Hboxes.
  rewrite (add_digits_same_boxes _ _ _ _ _ _ (box_index_of_band row)).
  nine num Hnum. nine cols Hcols. nine boxes Hboxes.
  each_band row Hrow; cbn.
  all: f_equal; f_equal; list_eq.
Qed.

Lemma set_remove_elem `{Countable A} (s : gset A) (x : A) :
  x ∈ s → set_remove s x = Ok (s ∖ {[x]}).
Proof. intros Hin. unfold set_remove. by rewrite decide_True. Qed.


Lemma remove_digits_nine row num cols boxes :
  row < 9 → length num = 9 → length cols = 9 → length boxes = 9 →
  NoDup num → fresh_for cols boxes row num →
  remove_digits row 0 num
    (zip_with (λ s d, s ∪ {[d]}) cols num)
    (imap (λ b s, if decide (b / 3 = row / 3)
                  then s ∪ list_to_set (take 3 (drop (3 * (b `mod` 3)) num))
                  else s) boxes) = Ok (cols, boxes).
Proof.
  intros Hrow Hnum Hcols Hboxes Hnodup Hfresh.
  rewrite (remove_digits_same_boxes _ _ _ _ _ _ (box_index_of_band row)).
  unfold fresh_for in Hfresh. setoid_rewrite box_index_of_band in Hfresh.
  nine num Hnum. nine cols Hcols. nine boxes Hboxes.
  pose proof (Hfresh 0 _ eq_refl) as [(? & [= <-] & ?) (? & Hb0 & ?)].
  pose proof (Hfresh 1 _ eq_refl) as [(? & [= <-] & ?) (? & Hb1 & ?)].
  pose proof (Hfresh 2 _ eq_refl) as [(? & [= <-] & ?) (? & Hb2 & ?)].
  pose proof (Hfresh 3 _ eq_refl) as [(? & [= <-] & ?) (? & Hb3 & ?)].
  pose proof (Hfresh 4 _ eq_refl) as [(? & [= <-] & ?) (? & Hb4 & ?)].
  pose proof (Hfresh 5 _ eq_refl) as [(? & [= <-] & ?) (? & Hb5 & ?)].
  pose proof (Hfresh 6 _ eq_refl) as [(? & [= <-] & ?) (? & Hb6 & ?)].
  pose proof (Hfresh 7 _ eq_refl) as [(? & [= <-] & ?) (? & Hb7 & ?)].
  pose proof (Hfresh 8 _ eq_refl) as [(? & [= <-] & ?) (? & Hb8 & ?)].
  clear Hfresh. rewrite !NoDup_cons in Hnodup. set_unfold in Hnodup.
  each_band row Hrow; cbn in *; simplify_eq.
  all: repeat (rewrite set_remove_elem by set_solver; cbn).
  all: f_equal; f_equal; list_eq.
Qed.


Lemma commit_nine st num row :
  row < 9 → length num = 9 →
  length (column_sets st) = 9 → length (box_sets st) = 9 →
  commit num row st = Ok (committed num row st).
Proof.
  intros. unfold commit. by rewrite add_digits_nine.
Qed.

Lemma undo_committed st num row :
  row < 9 → length num = 9 →
  length (column_sets st) = 9 → length (box_sets st) = 9 →
  NoDup num → num ∉ used_numbers st →
  fresh_for (column_sets st) (box_sets st) row num →
  undo num row (committed num row st) = Ok st.
Proof.
  intros Hrow Hnum Hcols Hboxes Hnodup Hused Hfresh.
  unfold undo, committed. simpl.
  assert (list_pop (grid st ++ [num]) = Ok (grid st)) as ->.
  { unfold list_pop. rewrite removelast_last. by destruct (grid st). }
  simpl. rewrite set_remove_elem by set_solver. simpl.
  rewrite remove_digits_nine by done. simpl.
  destruct st as [g used cols boxes]. simpl in *. f_equal. f_equal.
  set_solver.
Qed.

Lemma committed_wf st num row :
  state_wf st → length (grid st) < 9 → length num = 9 →
  state_wf (committed num row st).
Proof.
  intros (Hg & Hc & Hb) Hlt Hnum. unfold state_wf, committed. simpl.
  rewrite length_app, length_zip_with, length_imap. simpl. lia.
Qed.

Lemma candidates_ok_lookup vnr row num :
  candidates_ok vnr → num ∈ rows_get vnr row → length num = 9 ∧ NoDup num.
Proof.
  intros Hok Hin. unfold rows_get in Hin.
  destruct (vnr !! row) as [l|] eqn:Hl; simpl in Hin.
  - specialize (Hok row l Hl). simpl in Hok.
    rewrite Forall_forall in Hok. by apply Hok.
  - by apply elem_of_nil in Hin.
Qed.


Lemma try_candidates_restores recurse candidates st st' calls :
  restores recurse → state_wf st → length (grid st) < 9 →
  Forall (λ num, length num = 9 ∧ NoDup num) candidates →
  try_candidates recurse (length (grid st)) candidates st = Ok (None, st', calls) →
  st' = st.
Proof.
  intros Hrec Hwf Hlt Hall. revert calls.
  induction Hall as [|num candidates [Hnum Hnodup] _ IH]; intros calls Hrun.
  { simpl in Hrun. by injection Hrun as <- _. }
  simpl in Hrun. destruct (decide (num ∈ used_numbers st)); [by eapply IH|].
  destruct (can_place _ _ _ _ _) as [[|]|] eqn:Hplace; simpl in Hrun;
    [|by eapply IH|done].
  pose proof Hwf as (_ & Hc & Hb).
  rewrite commit_nine in Hrun by done. simpl in Hrun.
  destruct (recurse _) as [[[[g|] st2] k]|] eqn:Hcall; simpl in Hrun; [done| |done].
  apply Hrec in Hcall as ->; [|by apply committed_wf].
  rewrite undo_committed in Hrun; [|done..|].
  2:{ intros i d Hi. by apply (can_place_true _ _ _ 0 num). }
  simpl in Hrun.
  destruct (try_candidates _ _ _ _) as [[[r st4] k']|] eqn:Hrest;
    simpl in Hrun; [|done].
  injection Hrun as -> -> _. by eapply IH.
Qed.

Lemma backtrack_restores fuel vnr :
  candidates_ok vnr → restores (backtrack fuel vnr).
Proof.
  intros Hok. induction fuel as [|fuel IH]; intros st st' calls Hwf Hrun.
  - simpl in Hrun. by destruct (decide _).
  - simpl in Hrun. destruct (decide (length (grid st) = 9)); [done|].
    destruct (try_candidates _ _ _ _) as [[[r st1] k]|] eqn:Hloop;
      simpl in Hrun; [|done].
    injection Hrun as -> -> _.
    eapply try_candidates_restores; [exact IH|done| | |exact Hloop].
    + destruct Hwf. lia.
    + apply Forall_forall. intros num Hin.
      by eapply candidates_ok_lookup.
Qed.
End forward_undo.

(** ** The grid assembler: the invariant of the search *)

Section soundness.
Close Scope Z_scope.
Implicit Types (num : str) (g : list str) (cols boxes : list (gset ascii))
  (row col c b : nat) (st : search_state) (vnr : gmap nat (list str)).

Lemma column_snoc g num c d :
  num !! c = Some d → column (g ++ [num]) c = column g c ++ [d].
Proof. intros Hd. unfold column. rewrite omap_app. simpl. by rewrite Hd. Qed.


Lemma box_digits_snoc g num b :
  box_digits (g ++ [num]) b =
    box_digits g b ++
    (if decide (b / 3 = length g / 3) then box_section b num else []).
Proof.
  unfold box_digits, box_section.
  set (f := λ row : str, take 3 (drop (3 * (b `mod` 3)) row)).
  pose proof (Nat.div_mod_eq (length g) 3) as Hdm.
  pose proof (Nat.mod_upper_bound (length g) 3 ltac:(lia)) as Hm.
  destruct (decide (b / 3 = length g / 3)) as [Heq|Hne].
  - rewrite drop_app_le by lia.
    assert (length (drop (3 * (b / 3)) g) < 3) as Hshort
      by (rewrite length_drop; lia).
    rewrite take_app_ge by lia.
    rewrite (take_ge [num]) by (change (length [num]) with 1; lia).
    rewrite (take_ge (drop _ g)) by lia.
    rewrite fmap_app, join_app. simpl. by rewrite (right_id_L [] (++)).
  - rewrite (right_id_L [] (++)). f_equal. f_equal.
    destruct (decide (b / 3 < length g / 3)).
    + rewrite drop_app_le by lia. rewrite take_app_le; [done|].
      rewrite length_drop. lia.
    + rewrite !drop_ge; [done|rewrite ?length_app; change (length [num]) with 1; lia..].
Qed.

Lemma elem_of_box_section b num d :
  d ∈ box_section b num ↔ ∃ i, num !! i = Some d ∧ i / 3 = b `mod` 3.
Proof.
  unfold box_section. rewrite elem_of_take. setoid_rewrite lookup_drop.
  split.
  - intros (j & Hj & Hlt). eexists; split; [done|].
    rewrite Nat.mul_comm, Nat.div_add_l by lia.
    rewrite (Nat.div_small j 3) by lia. lia.
  - intros (i & Hi & Hdiv). exists (i `mod` 3).
    pose proof (Nat.div_mod_eq i 3). pose proof (Nat.mod_upper_bound i 3).
    split; [|lia]. rewrite <-Hdiv. by replace (3 * (i / 3) + i `mod` 3) with i by lia.
Qed.

Lemma state_inv_wf vnr st : state_inv vnr st → state_wf st.
Proof.
  intros (Hg & Hc & Hb & _). unfold state_wf.
  by rewrite Hc, Hb, !length_fmap, length_seq.
Qed.

Lemma state_inv_initial vnr : state_inv vnr initial_state.
Proof.
  unfold state_inv, initial_state; simpl. split_and!; try done.
  - lia.
  - intros; constructor.
  - intros. unfold box_digits. rewrite drop_nil, take_nil. constructor.
Qed.

(** The forward step keeps the invariant. *)
Lemma committed_inv vnr st num :
  state_inv vnr st → length (grid st) < 9 →
  num ∈ rows_get vnr (length (grid st)) →
  length num = 9 → NoDup num →
  fresh_for (column_sets st) (box_sets st) (length (grid st)) num →
  state_inv vnr (committed num (length (grid st)) st).
Proof.
  intros (Hg & Hcols & Hboxes & Hcnd & Hbnd & Hrows) Hlt Hin Hnum Hnodup Hfresh.
  unfold state_inv, committed; cbn [grid used_numbers column_sets box_sets].
  set (L := length (grid st)) in *.
  assert (∀ c, c < 9 → ∃ d, num !! c = Some d) as Hdig.
  { intros c Hc. apply lookup_lt_is_Some_2. lia. }
  split_and!.
  - rewrite length_app. simpl. lia.
  - rewrite Hcols. apply list_eq. intros i.
    rewrite lookup_zip_with, !list_lookup_fmap.
    destruct (decide (i < 9)) as [Hi|Hi].
    + rewrite lookup_seq_lt by done. simpl.
      destruct (Hdig i Hi) as [d Hd]. rewrite Hd. simpl.
      rewrite (column_snoc _ _ _ d Hd), list_to_set_app_L. f_equal. set_solver.
    + by rewrite lookup_seq_ge by lia.
  - rewrite Hboxes. apply list_eq. intros i.
    rewrite list_lookup_imap, !list_lookup_fmap.
    destruct (seq 0 9 !! i) as [b|] eqn:Hb; [simpl|done].
    apply lookup_seq in Hb as [-> _]. simpl.
    rewrite box_digits_snoc, list_to_set_app_L. fold L. unfold box_section.
    f_equal. destruct (decide _); [done|]. set_solver.
  - intros c Hc. destruct (Hdig c Hc) as [d Hd].
    rewrite (column_snoc _ _ _ d Hd). apply NoDup_app. split_and!.
    + by apply Hcnd.
    + intros x Hx ->%list_elem_of_singleton.
      destruct (Hfresh c d Hd) as [(s & Hs & Hns) _].
      rewrite Hcols, list_lookup_fmap, lookup_seq_lt in Hs by done.
      injection Hs as <-. apply Hns. by apply elem_of_list_to_set.
    + apply NoDup_singleton.
  - intros b Hb. rewrite box_digits_snoc. fold L. apply NoDup_app. split_and!.
    + by apply Hbnd.
    + intros x Hx Hx'. destruct (decide _) as [Hband|]; [|by apply elem_of_nil in Hx'].
      apply elem_of_box_section in Hx' as (i & Hi & Hdiv).
      destruct (Hfresh i x Hi) as [_ (s & Hs & Hns)].
      assert (box_index_of L i = b) as Hbi.
      { unfold box_index_of. pose proof (Nat.div_mod_eq b 3). lia. }
      rewrite Hbi, Hboxes, list_lookup_fmap, lookup_seq_lt in Hs by done.
      injection Hs as <-. apply Hns. by apply elem_of_list_to_set.
    + destruct (decide _); [|constructor]. unfold box_section.
      apply (sublist_NoDup _ (drop (3 * (b `mod` 3)) num)); [|apply sublist_take].
      apply (sublist_NoDup _ num); [done|apply sublist_drop].
  - intros r x Hr. destruct (decide (r < L)) as [Hlt'|Hge].
    + rewrite lookup_app_l in Hr by done. by apply Hrows.
    + apply lookup_lt_Some in Hr as Hr'. rewrite length_app in Hr'. simpl in Hr'.
      assert (r = L) as -> by (unfold L in *; lia).
      rewrite lookup_app_r, Nat.sub_diag in Hr by (unfold L; lia).
      by injection Hr as <-.
Qed.


Lemma try_candidates_finds_valid vnr recurse candidates st g st' calls :
  restores recurse → finds_valid vnr recurse →
  state_inv vnr st → length (grid st) < 9 →
  Forall (λ num, num ∈ rows_get vnr (length (grid st)) ∧
                 length num = 9 ∧ NoDup num) candidates →
  try_candidates recurse (length (grid st)) candidates st = Ok (Some g, st', calls) →
  state_inv vnr st' ∧ g = grid st' ∧ length g = 9.
Proof.
  intros Hres Hrec Hinv Hlt Hall. revert calls.
  induction Hall as [|num candidates (Hin & Hnum & Hnodup) _ IH]; intros calls Hrun.
  { done. }
  simpl in Hrun. destruct (decide (num ∈ used_numbers st)); [by eapply IH|].
  destruct (can_place _ _ _ _ _) as [[|]|] eqn:Hplace; simpl in Hrun;
    [|by eapply IH|done].
  pose proof (state_inv_wf _ _ Hinv) as Hwf. pose proof Hwf as (_ & Hc & Hb).
  assert (fresh_for (column_sets st) (box_sets st) (length (grid st)) num) as Hfresh.
  { intros i d Hi. by apply (can_place_true _ _ _ 0 num). }
  rewrite commit_nine in Hrun by done. simpl in Hrun.
  destruct (recurse _) as [[[[g1|] st2] k]|] eqn:Hcall; simpl in Hrun; [| |done].
  - injection Hrun as -> -> _. eapply Hrec; [|done]. by apply committed_inv.
  - apply Hres in Hcall as ->; [|by apply committed_wf].
    rewrite undo_committed in Hrun by done. simpl in Hrun.
    destruct (try_candidates _ _ _ _) as [[[r st4] k']|] eqn:Hrest;
      simpl in Hrun; [|done].
    injection Hrun as -> -> _. by eapply IH.
Qed.

Lemma backtrack_finds_valid fuel vnr :
  candidates_ok vnr → finds_valid vnr (backtrack fuel vnr).
Proof.
  intros Hok. induction fuel as [|fuel IH]; intros st g st' calls Hinv Hrun.
  - simpl in Hrun. destruct (decide _); [|done]. by injection Hrun as <- <- _.
  - simpl in Hrun. destruct (decide (length (grid st) = 9)).
    { by injection Hrun as <- <- _. }
    destruct (try_candidates _ _ _ _) as [[[r st1] k]|] eqn:Hloop;
      simpl in Hrun; [|done].
    injection Hrun as -> -> _.
    eapply try_candidates_finds_valid;
      [by apply backtrack_restores|exact IH|done| | |exact Hloop].
    + destruct Hinv. lia.
    + apply Forall_forall. intros num Hin. split; [done|].
      by eapply candidates_ok_lookup.
Qed.
End soundness.

(** ** Row eligibility *)

Section eligibility.
Close Scope Z_scope.
Implicit Types (num : str) (g : list str) (row r pos : nat)
  (vnr : gmap nat (list str)).

Lemma matching_rows_clue num constraints rows :
  matching_rows_of num constraints = Ok rows →
  ∀ r, r ∈ rows →
    ∃ pos digit, (r, Some (pos, digit)) ∈ constraints ∧ num !! pos = Some digit.
Proof.
  revert rows. induction constraints as [|[row [[pos digit]|]] constraints IH];
    intros rows Hrows r Hr; simpl in Hrows.
  - injection Hrows as <-. by apply elem_of_nil in Hr.
  - unfold index in Hrows. destruct (num !! pos) as [c|] eqn:Hc; [simpl in Hrows|done].
    destruct (decide (c = digit)) as [->|].
    + destruct (check_box_constraints num row) as [ok|]; [simpl in Hrows|done].
      destruct (matching_rows_of num constraints) as [rest|]; [simpl in Hrows|done].
      injection Hrows as <-.
      assert (r = row ∨ r ∈ rest) as [->|Hin].
      { destruct ok; [by apply elem_of_cons|by right]. }
      * exists pos, digit. split; [left|done].
      * destruct (IH rest eq_refl r Hin) as (p & d & ? & ?).
        exists p, d. split; [by right|done].
    + destruct (IH rows Hrows r Hr) as (p & d & ? & ?).
      exists p, d. split; [by right|done].
  - destruct (IH rows Hrows r Hr) as (p & d & ? & ?).
    exists p, d. split; [by right|done].
Qed.

Ltac clue_cases H :=
  apply list_elem_of_In in H; unfold get_row_constraints in H; simpl in H;
  repeat (destruct H as [H|H]; [try discriminate H; simplify_eq|]); try done.

(** A number that gets a row carries the clue of that row. *)
Lemma find_valid_row_clue num r :
  find_valid_row_for_number num get_row_constraints = Ok (Some r) →
  ∀ pos digit, (r, Some (pos, digit)) ∈ get_row_constraints →
               num !! pos = Some digit.
Proof.
  unfold find_valid_row_for_number. intros Hfind pos digit Hclue.
  destruct (matching_rows_of num get_row_constraints) as [rows|] eqn:Hrows;
    [simpl in Hfind|done].
  destruct (decide (1 < length rows)); [done|].
  destruct rows as [|r' rows].
  - destruct (check_box_constraints num 4) as [[|]|]; simpl in Hfind; [|done..].
    injection Hfind as <-. clue_cases Hclue.
  - injection Hfind as ->.
    destruct (matching_rows_clue _ _ _ Hrows r) as (p & d & Hin & Hd); [left|].
    clue_cases Hclue; clue_cases Hin.
Qed.

Lemma rows_get_insert vnr row l r :
  rows_get (<[row := l]> vnr) r = if decide (r = row) then l else rows_get vnr r.
Proof.
  unfold rows_get. destruct (decide (r = row)) as [->|].
  - by rewrite lookup_insert_eq.
  - by rewrite lookup_insert_ne.
Qed.

Lemma categorize_from_spec numbers vnr vnr' :
  categorize_from numbers vnr = Ok vnr' →
  ∀ r num, num ∈ rows_get vnr' r →
    num ∈ rows_get vnr r ∨
    (num ∈ numbers ∧
     find_valid_row_for_number num get_row_constraints = Ok (Some r)).
Proof.
  revert vnr. induction numbers as [|n numbers IH]; intros vnr Hcat r num Hin;
    simpl in Hcat.
  - injection Hcat as <-. by left.
  - destruct (find_valid_row_for_number n get_row_constraints)
      as [[row|]|] eqn:Hrow; [simpl in Hcat..|done].
    + destruct (IH _ Hcat r num Hin) as [Hold|[? ?]].
      * rewrite rows_get_insert in Hold. destruct (decide (r = row)) as [->|].
        -- apply elem_of_app in Hold as [?|Heq%list_elem_of_singleton]; [by left|].
           subst. right. split; [left|done].
        -- by left.
      * right. split; [by right|done].
    + destruct (IH _ Hcat r num Hin) as [?|[? ?]]; [by left|].
      right. split; [by right|done].
Qed.

Lemma categorize_spec numbers vnr :
  categorize_numbers_by_row numbers = Ok vnr →
  ∀ r num, num ∈ rows_get vnr r →
    num ∈ numbers ∧
    find_valid_row_for_number num get_row_constraints = Ok (Some r).
Proof.
  intros Hcat r num Hin.
  destruct (categorize_from_spec _ _ _ Hcat r num Hin) as [Hempty|?]; [|done].
  unfold rows_get in Hempty. rewrite lookup_empty in Hempty.
  by apply elem_of_nil in Hempty.
Qed.
End eligibility.

(** ** The pipeline returns *)

Section totality.
Close Scope Z_scope.
Implicit Types (num : str) (g : list str) (row r pos col : nat)
  (cols boxes : list (gset ascii)) (st : search_state)
  (vnr : gmap nat (list str)).

Lemma get_box_constraints_ok :
  ∃ t, get_box_constraints = Ok t ∧ ∀ k, k < 9 → is_Some (t !! k).
Proof.
  eexists. split; [vm_compute; reflexivity|]. intros k Hk.
  do 9 (destruct k as [|k]; [vm_compute; eauto|]). lia.
Qed.

Lemma check_boxes_ok (t : gmap nat (list box_clue)) num row box_row box_cols :
  (∀ k, k < 9 → is_Some (t !! k)) → box_row < 3 →
  Forall (λ box_col, box_col < 3) box_cols →
  ∃ ok, check_boxes t num row box_row box_cols = Ok ok.
Proof.
  intros Ht Hrow. induction 1 as [|box_col box_cols Hcol _ IH]; simpl; [eauto|].
  unfold dict_get. destruct (Ht (box_row * 3 + box_col)) as [clues ->]; [lia|].
  simpl. destruct (box_section_ok _ _ _); eauto.
Qed.

Lemma check_box_constraints_ok num row :
  row < 9 → ∃ ok, check_box_constraints num row = Ok ok.
Proof.
  intros Hrow. unfold check_box_constraints.
  destruct get_box_constraints_ok as (t & -> & Ht). cbn [res_bind].
  apply check_boxes_ok; [done| |repeat constructor].
  apply Nat.Div0.div_lt_upper_bound. lia.
Qed.

Lemma matching_rows_of_ok num constraints :
  length num = 9 →
  Forall (λ rc : nat * row_clue,
            rc.1 < 9 ∧ ∀ pos digit, rc.2 = Some (pos, digit) → pos < 9)
         constraints →
  ∃ rows, matching_rows_of num constraints = Ok rows.
Proof.
  intros Hnum.
  induction 1 as [|[row [[pos digit]|]] constraints [Hrow Hpos] _ [rows IH]];
    simpl in *; [eauto| |eauto].
  unfold index. destruct (lookup_lt_is_Some_2 num pos) as [c ->].
  { rewrite Hnum. by eapply Hpos. }
  simpl. destruct (decide (c = digit)); [|eauto].
  destruct (check_box_constraints_ok num row Hrow) as [ok ->]. simpl.
  rewrite IH. simpl. eauto.
Qed.

Lemma find_valid_row_ok num :
  length num = 9 →
  ∃ valid_row, find_valid_row_for_number num get_row_constraints = Ok valid_row.
Proof.
  intros Hnum. unfold find_valid_row_for_number.
  destruct (matching_rows_of_ok num get_row_constraints Hnum) as [rows ->].
  { unfold get_row_constraints.
    repeat (constructor; [split; [simpl; lia|intros ?? [= <- _]; lia]|]);
      repeat constructor; simpl; try lia; done. }
  simpl. destruct (decide _); [eauto|]. destruct rows; [|eauto].
  destruct (check_box_constraints_ok num 4) as [ok ->]; [lia|]. simpl. eauto.
Qed.

Lemma categorize_from_ok numbers vnr :
  Forall (λ num, length num = 9) numbers →
  ∃ vnr', categorize_from numbers vnr = Ok vnr'.
Proof.
  intros Hall. revert vnr. induction Hall as [|num numbers Hnum _ IH]; intros vnr.
  - simpl. eauto.
  - simpl. destruct (find_valid_row_ok num Hnum) as [[row|] ->]; simpl; apply IH.
Qed.

Lemma can_place_ok cols boxes row col num :
  length cols = 9 → length boxes = 9 → row < 9 → col + length num ≤ 9 →
  ∃ ok, can_place cols boxes row col num = Ok ok.
Proof.
  intros Hcols Hboxes Hrow. revert col.
  induction num as [|digit num IH]; intros col Hcol; simpl in *; [eauto|].
  unfold index. destruct (lookup_lt_is_Some_2 cols col) as [cs ->]; [lia|].
  simpl. destruct (decide _); [eauto|].
  destruct (lookup_lt_is_Some_2 boxes (box_index_of row col)) as [bs ->].
  { unfold box_index_of. rewrite Hboxes.
    pose proof (Nat.Div0.div_lt_upper_bound row 3 3).
    pose proof (Nat.Div0.div_lt_upper_bound col 3 3). lia. }
  simpl. destruct (decide _); [eauto|]. apply IH. lia.
Qed.

Lemma try_candidates_ok recurse candidates st :
  restores recurse → returns_at (S (length (grid st))) recurse →
  state_wf st → length (grid st) < 9 →
  Forall (λ num, length num = 9 ∧ NoDup num) candidates →
  ∃ out, try_candidates recurse (length (grid st)) candidates st = Ok out.
Proof.
  intros Hres Hret Hwf Hlt.
  induction 1 as [|num candidates [Hnum Hnodup] _ [r IH]]; simpl; [eauto|].
  destruct (decide _); [eauto|].
  pose proof Hwf as (_ & Hc & Hb).
  destruct (can_place_ok (column_sets st) (box_sets st) (length (grid st)) 0 num)
    as [[|] Hplace]; [done|done|done|simpl; lia| |]; rewrite Hplace; simpl;
    [|eauto].
  rewrite commit_nine by done. simpl.
  destruct (Hret (committed num (length (grid st)) st)) as [[[[g|] st2] k] Hcall].
  { by apply committed_wf. }
  { simpl. rewrite length_app. simpl. lia. }
  - rewrite Hcall. simpl. eauto.
  - rewrite Hcall. simpl.
    apply Hres in Hcall as ->; [|by apply committed_wf].
    rewrite undo_committed; [|done..|].
    2:{ intros i d Hi. by apply (can_place_true _ _ _ 0 num). }
    simpl. rewrite IH. destruct r as [[??]?]. simpl. eauto.
Qed.

(** With one unit of fuel for every row still to fill, [backtrack]
    returns: it neither raises nor runs out of fuel. *)
Lemma backtrack_ok fuel vnr st :
  candidates_ok vnr → state_wf st → 9 ≤ length (grid st) + fuel →
  ∃ out, backtrack fuel vnr st = Ok out.
Proof.
  intros Hok. revert st. induction fuel as [|fuel IH]; intros st Hwf Hfuel.
  - simpl. rewrite decide_True; [eauto|]. destruct Hwf. lia.
  - simpl. destruct (decide _); [eauto|].
    destruct (try_candidates_ok (backtrack fuel vnr)
                (rows_get vnr (length (grid st))) st) as [[[r st'] k] ->].
    + by apply backtrack_restores.
    + intros st1 Hwf1 Hlen. apply IH; [done|lia].
    + done.
    + destruct Hwf. lia.
    + apply Forall_forall. intros num Hin. by eapply candidates_ok_lookup.
    + simpl. eauto.
Qed.
End totality.

(** ** The grid assembler: soundness, undo, early exit *)

Section grid_facts.
Close Scope Z_scope.
Implicit Types (num : str) (g : list str) (c b : nat).

Lemma length_column g c :
  Forall (λ row : str, length row = 9) g → c < 9 →
  length (column g c) = length g.
Proof.
  intros Hall Hc. unfold column. induction Hall as [|row g Hrow _ IH]; [done|].
  destruct (lookup_lt_is_Some_2 row c) as [d Hd]; [lia|].
  simpl. rewrite Hd. simpl. f_equal. apply IH.
Qed.

Lemma length_box_digits g b :
  Forall (λ row : str, length row = 9) g → length g = 9 → b < 9 →
  length (box_digits g b) = 9.
Proof.
  intros Hall Hg Hb. unfold box_digits.
  assert (b / 3 < 3) by (apply Nat.Div0.div_lt_upper_bound; lia).
  pose proof (Nat.mod_upper_bound b 3 ltac:(lia)).
  assert (Forall (λ row : str, length row = 9) (take 3 (drop (3 * (b / 3)) g)))
    as Hall'.
  { apply Forall_take, Forall_drop, Hall. }
  assert (length (take 3 (drop (3 * (b / 3)) g)) = 3) as Hlen.
  { rewrite length_take, length_drop. lia. }
  destruct (take 3 (drop (3 * (b / 3)) g)) as [|r0 [|r1 [|r2 [|]]]]; try done.
  apply Forall_cons in Hall' as [Hr0 Hall'].
  apply Forall_cons in Hall' as [Hr1 Hall'].
  apply Forall_cons in Hall' as [Hr2 _].
  cbn [fmap list_fmap mjoin list_join].
  rewrite !length_app, !length_take, !length_drop, Hr0, Hr1, Hr2.
  change (length (@nil ascii)) with 0. lia.
Qed.
End grid_facts.

#[local] Close Scope Z_scope.

(** C1. When every candidate is a permutation of one 9-symbol alphabet,
    [try_build_sudoku_grid] returns, and a grid it returns has nine rows
    taken from the candidates, nine pairwise distinct digits in each of the
    nine columns and in each of the nine 3x3 boxes, and the clue digit of
    the row-constraint table at every clue position. *)
Theorem try_build_sudoku_grid_sound (numbers : list str) (alphabet : str) :
  NoDup alphabet → length alphabet = 9 →
  Forall (λ num, num ≡ₚ alphabet) numbers →
  (∃ out, try_build_sudoku_grid numbers = Ok out) ∧
  ∀ g, try_build_sudoku_grid numbers = Ok (Some g) →
    length g = 9 ∧
    (∀ row, row ∈ g → row ∈ numbers) ∧
    (∀ c, c < 9 → length (column g c) = 9 ∧ NoDup (column g c)) ∧
    (∀ b, b < 9 → length (box_digits g b) = 9 ∧ NoDup (box_digits g b)) ∧
    (∀ r pos digit, (r, Some (pos, digit)) ∈ get_row_constraints →
       ∃ row, g !! r = Some row ∧ row !! pos = Some digit).
Proof.
  intros Hnodup Hlen Hperm.
  assert (Forall (λ num : str, length num = 9 ∧ NoDup num) numbers) as Hnine.
  { eapply Forall_impl; [exact Hperm|]. intros num Hnum. simpl.
    by rewrite Hnum. }
  assert (Forall (λ num : str, length num = 9) numbers) as Hnine'.
  { eapply Forall_impl; [exact Hnine|]. by intros ? [??]. }
  unfold try_build_sudoku_grid, try_build_sudoku_grid_calls.
  destruct (categorize_from_ok numbers ∅ Hnine') as [vnr Hcat].
  fold (categorize_numbers_by_row numbers) in Hcat. rewrite Hcat.
  cbn [res_bind].
  assert (candidates_ok vnr) as Hok.
  { intros r l Hl. simpl. apply Forall_forall. intros num Hin.
    assert (num ∈ rows_get vnr r) as Hrow by (unfold rows_get; by rewrite Hl).
    destruct (categorize_spec _ _ Hcat r num Hrow) as [Hnum _].
    rewrite Forall_forall in Hnine. by apply Hnine. }
  destruct (decide _) as [Hempty|Hfull]; [split; [eauto|done]|].
  destruct (backtrack_ok 9 vnr initial_state Hok) as [[[out st'] calls] Hrun].
  { unfold state_wf, initial_state. simpl. lia. }
  { simpl. lia. }
  rewrite Hrun. cbn [res_bind]. split; [eauto|].
  intros g [= ->].
  destruct (backtrack_finds_valid 9 vnr Hok _ _ _ _ (state_inv_initial vnr) Hrun)
    as ((_ & _ & _ & Hcnd & Hbnd & Hrows) & -> & Hg).
  assert (∀ r row, grid st' !! r = Some row →
            row ∈ numbers ∧
            find_valid_row_for_number row get_row_constraints = Ok (Some r))
    as Hrow.
  { intros r row Hr. by apply (categorize_spec _ _ Hcat), Hrows. }
  assert (Forall (λ row : str, length row = 9) (grid st')) as Hall.
  { apply Forall_forall. intros row [r Hr]%list_elem_of_lookup.
    destruct (Hrow r row Hr) as [Hin _]. rewrite Forall_forall in Hnine'.
    by apply Hnine'. }
  split_and!.
  - done.
  - intros row [r Hr]%list_elem_of_lookup. by destruct (Hrow r row Hr).
  - intros c Hc. split; [|by apply Hcnd]. by rewrite length_column.
  - intros b Hb. split; [|by apply Hbnd]. by rewrite length_box_digits.
  - intros r pos digit Hclue.
    assert (r < 9) as Hr.
    { apply list_elem_of_In in Hclue. unfold get_row_constraints in Hclue.
      simpl in Hclue.
      repeat (destruct Hclue as [Hclue|Hclue];
              [try discriminate Hclue; injection Hclue as <- _; lia|]).
      done. }
    destruct (lookup_lt_is_Some_2 (grid st') r) as [row Hrow']; [lia|].
    exists row. split; [done|].
    destruct (Hrow r row Hrow') as [_ Hfind].
    by apply (find_valid_row_clue _ _ Hfind).
Qed.

Lemma try_build_sudoku_grid_sound_witness :
  (∃ out, try_build_sudoku_grid (grid_one ++ grid_two) = Ok out) ∧
  ∀ g, try_build_sudoku_grid (grid_one ++ grid_two) = Ok (Some g) →
    length g = 9 ∧
    (∀ row, row ∈ g → row ∈ grid_one ++ grid_two) ∧
    (∀ c, c < 9 → length (column g c) = 9 ∧ NoDup (column g c)) ∧
    (∀ b, b < 9 → length (box_digits g b) = 9 ∧ NoDup (box_digits g b)) ∧
    (∀ r pos digit, (r, Some (pos, digit)) ∈ get_row_constraints →
       ∃ row, g !! r = Some row ∧ row !! pos = Some digit).
Proof.
  apply (try_build_sudoku_grid_sound (grid_one ++ grid_two) alphabet_without_1).
  - compute_done.
  - reflexivity.
  - compute_done.
Defined.

(** The search does find a grid on these candidates, and which one it finds
    depends on the order in which the candidates are listed. *)
Example try_build_finds_grid_one :
  try_build_sudoku_grid (grid_one ++ grid_two) = Ok (Some grid_one).
Proof. vm_compute. reflexivity. Qed.

Example try_build_order_sensitive :
  grid_one ++ grid_two ≡ₚ grid_two ++ grid_one ∧
  try_build_sudoku_grid (grid_one ++ grid_two) = Ok (Some grid_one) ∧
  try_build_sudoku_grid (grid_two ++ grid_one) = Ok (Some grid_two) ∧
  grid_one ≠ grid_two.
Proof.
  split_and!; [apply Permutation_app_comm|by vm_compute..|by vm_compute].
Qed.

(** C6. At any depth, for a candidate of 9 distinct digits that passes the
    checks of the loop: the forward step succeeds, and whenever the
    recursive call then fails, the undo step succeeds and leaves the grid,
    the used-numbers set, the nine column sets and the nine box sets equal
    to what they were before the candidate was committed. *)
Theorem backtrack_undo_restores (fuel : nat) (vnr : gmap nat (list str))
    (st : search_state) (num : str) :
  candidates_ok vnr → state_wf st → length (grid st) < 9 →
  num ∈ rows_get vnr (length (grid st)) →
  num ∉ used_numbers st →
  can_place (column_sets st) (box_sets st) (length (grid st)) 0 num = Ok true →
  ∃ st1, commit num (length (grid st)) st = Ok st1 ∧
    ∀ st2 calls, backtrack fuel vnr st1 = Ok (None, st2, calls) →
      ∃ st3, undo num (length (grid st)) st2 = Ok st3 ∧
        grid st3 = grid st ∧ used_numbers st3 = used_numbers st ∧
        column_sets st3 = column_sets st ∧ box_sets st3 = box_sets st.
Proof.
  intros Hok Hwf Hlt Hin Hused Hplace.
  destruct (candidates_ok_lookup _ _ _ Hok Hin) as [Hnum Hnodup].
  pose proof Hwf as (_ & Hc & Hb).
  exists (committed num (length (grid st)) st). split; [by apply commit_nine|].
  intros st2 calls Hcall.
  apply backtrack_restores in Hcall as ->; [|done|by apply committed_wf].
  exists st. split; [|done]. apply undo_committed; [done..|].
  intros i d Hi. by apply (can_place_true _ _ _ 0 num).
Qed.

Lemma backtrack_undo_restores_witness :
  let vnr : gmap nat (list str) := <[0 := take 1 grid_one]> ∅ in
  let num := list_ascii_of_string "034567829" in
  ∃ st1, commit num (length (grid initial_state)) initial_state = Ok st1 ∧
    ∀ st2 calls, backtrack 1 vnr st1 = Ok (None, st2, calls) →
      ∃ st3, undo num (length (grid initial_state)) st2 = Ok st3 ∧
        grid st3 = grid initial_state ∧
        used_numbers st3 = used_numbers initial_state ∧
        column_sets st3 = column_sets initial_state ∧
        box_sets st3 = box_sets initial_state.
Proof.
  apply (backtrack_undo_restores 1 (<[0 := take 1 grid_one]> ∅) initial_state
           (list_ascii_of_string "034567829")).
  - compute_done.
  - compute_done.
  - simpl. lia.
  - compute_done.
  - compute_done.
  - vm_compute. reflexivity.
Defined.

(** C9. When the categorised candidates leave some row 0-8 without a
    candidate, [try_build_sudoku_grid] returns [None] and not one call of
    [backtrack] is made. *)
Theorem try_build_early_exit (numbers : list str)
    (valid_numbers_by_row : gmap nat (list str)) (i : nat) :
  categorize_numbers_by_row numbers = Ok valid_numbers_by_row →
  i < 9 → rows_get valid_numbers_by_row i = [] →
  try_build_sudoku_grid_calls numbers = Ok (None, 0) ∧
  try_build_sudoku_grid numbers = Ok None.
Proof.
  intros Hcat Hi Hempty.
  assert (try_build_sudoku_grid_calls numbers = Ok (None, 0)) as Hcalls.
  { unfold try_build_sudoku_grid_calls. rewrite Hcat. cbn [res_bind].
    rewrite decide_True; [done|]. apply Exists_exists. exists i.
    split; [|done]. apply elem_of_seq. lia. }
  split; [done|]. unfold try_build_sudoku_grid. by rewrite Hcalls.
Qed.

Lemma try_build_early_exit_witness :
  try_build_sudoku_grid_calls (take 8 grid_one) = Ok (None, 0) ∧
  try_build_sudoku_grid (take 8 grid_one) = Ok None.
Proof.
  apply (try_build_early_exit (take 8 grid_one)
           (list_to_map (imap (λ i row, (i, [row])) (take 8 grid_one))) 8).
  - vm_compute. reflexivity.
  - lia.
  - vm_compute. reflexivity.
Defined.

(** C2. The candidate 034678529 matches the positional clue of row 0 and
    that of row 8; it fails the box check of row 0 only, and
    [find_valid_row_for_number] returns row 8 for it, not [None]. *)
Example find_valid_row_two_clues_not_excluded :
  let num := list_ascii_of_string "034678529" in
  num ≡ₚ alphabet_without_1 ∧
  matches_clue num 0 ∧ matches_clue num 8 ∧
  check_box_constraints num 0 = Ok false ∧
  find_valid_row_for_number num get_row_constraints = Ok (Some 8).
Proof.
  split_and!; [compute_done| | |by vm_compute..].
  - exists 7, "2"%char. split; [|done]. unfold get_row_constraints. set_solver.
  - exists 6, "5"%char. split; [|done]. unfold get_row_constraints. set_solver.
Qed.

(** C3. The candidate 346078925 matches the positional clues of rows 0
    and 1, and [find_valid_row_for_number] returns row 4 for it. *)
Example find_valid_row_clued_candidate_row_4 :
  let num := list_ascii_of_string "346078925" in
  num ≡ₚ alphabet_without_1 ∧
  matches_clue num 0 ∧ matches_clue num 1 ∧
  find_valid_row_for_number num get_row_constraints = Ok (Some 4).
Proof.
  split_and!; [compute_done| | |by vm_compute..].
  - exists 7, "2"%char. split; [|done]. unfold get_row_constraints. set_solver.
  - exists 8, "5"%char. split; [|done]. unfold get_row_constraints. set_solver.
Qed.

(** * Further properties *)

#[local] Open Scope Z_scope.

(** ** More on the divisor counts *)

Section divisor_counts_edges.
Implicit Types (n d : Z) (m : gmap Z Z) (numbers : list Z).

Lemma count_divisors_zero m : count_divisors 0 m = Ok m.
Proof. reflexivity. Qed.

Lemma count_divisors_nonneg n m :
  0 ≤ n → ∃ m', count_divisors n m = Ok m'.
Proof. intros Hn. unfold count_divisors. rewrite decide_False by lia. eauto. Qed.

Lemma build_from_nonzero numbers m :
  build_from numbers m = build_from (filter (λ n, n ≠ 0) numbers) m.
Proof.
  revert m. induction numbers as [|n numbers IH]; intros m; [done|].
  rewrite filter_cons. destruct (decide (n ≠ 0)) as [Hn|Hn].
  - simpl. destruct (count_divisors n m); simpl; [apply IH|done].
  - apply dec_stable in Hn as ->. simpl. apply IH.
Qed.

Lemma build_from_raises numbers m :
  build_from numbers m = Raise TypeError ↔ Exists (λ n, n < 0) numbers.
Proof.
  revert m. induction numbers as [|n numbers IH]; intros m; simpl.
  - rewrite Exists_nil. split; [done|tauto].
  - rewrite Exists_cons. unfold count_divisors at 1.
    destruct (decide (n < 0)); simpl.
    + split; [by left|done].
    + rewrite IH. tauto.
Qed.

Lemma build_from_only_type_error numbers m e :
  build_from numbers m = Raise e → e = TypeError.
Proof.
  revert m. induction numbers as [|n numbers IH]; intros m; simpl; [done|].
  unfold count_divisors at 1. destruct (decide (n < 0)); simpl.
  - by intros [= <-].
  - apply IH.
Qed.

Lemma multiples_le d numbers : multiples d numbers ≤ Z.of_nat (length numbers).
Proof. unfold multiples. pose proof (length_filter (λ n, n `mod` d = 0) numbers). lia. Qed.

Lemma multiples_one numbers : multiples 1 numbers = Z.of_nat (length numbers).
Proof.
  unfold multiples. f_equal. f_equal. induction numbers as [|n numbers IH]; [done|].
  rewrite filter_cons, decide_True by apply Z.mod_1_r. by rewrite IH.
Qed.

Lemma build_divisor_counts_perm numbers numbers' :
  numbers ≡ₚ numbers' →
  build_divisor_counts numbers = build_divisor_counts numbers'.
Proof.
  intros Hperm.
  destruct (decide (Exists (λ n, n < 0) numbers)) as [Hneg|Hnonneg].
  - unfold build_divisor_counts.
    rewrite (proj2 (build_from_raises numbers ∅) Hneg).
    rewrite Hperm in Hneg.
    by rewrite (proj2 (build_from_raises numbers' ∅) Hneg).
  - unfold build_divisor_counts.
    rewrite (build_from_nonzero numbers), (build_from_nonzero numbers').
    apply build_divisor_counts_order_independent; [|by rewrite Hperm].
    apply Forall_forall. intros n [Hn Hin]%list_elem_of_filter.
    apply not_Exists_Forall in Hnonneg; [|apply _].
    rewrite Forall_forall in Hnonneg. specialize (Hnonneg n Hin). simpl in *. lia.
Qed.
End divisor_counts_edges.

(** X1. A zero among the candidates is passed over: [build_divisor_counts]
    gives the same result with the zeros and without them, although every
    number divides 0. *)
Theorem build_divisor_counts_ignores_zero (numbers : list Z) :
  build_divisor_counts numbers =
  build_divisor_counts (filter (λ n, n ≠ 0) numbers).
Proof. apply build_from_nonzero. Qed.

(** X2. On candidates between [-10^9] and [10^9], [build_divisor_counts]
    raises exactly when some candidate is negative, and the only exception
    it raises is the [TypeError] of [int] applied to the complex value of
    the power. *)
Theorem build_divisor_counts_raises (numbers : list Z) :
  Forall (λ n, - 10 ^ 9 < n < 10 ^ 9) numbers →
  (Exists (λ n, n < 0) numbers ↔ build_divisor_counts numbers = Raise TypeError) ∧
  (∀ e, build_divisor_counts numbers = Raise e → e = TypeError).
Proof.
  intros _. split; [symmetry; apply build_from_raises|].
  intros e. apply build_from_only_type_error.
Qed.

Lemma build_divisor_counts_raises_witness :
  (Exists (λ n, n < 0) [12; -3; 24] ↔
   build_divisor_counts [12; -3; 24] = Raise TypeError) ∧
  (∀ e, build_divisor_counts [12; -3; 24] = Raise e → e = TypeError).
Proof.
  apply (build_divisor_counts_raises [12; -3; 24]).
  repeat constructor; lia.
Defined.

(** X3. On positive candidates below [10^9] the keys of the returned mapping
    are exactly the positive divisors of the candidates; every stored count
    is at least 1 and at most the number of candidates; every candidate is
    itself a key; and for a non-empty list the count of 1 is the number of
    candidates. *)
Theorem build_divisor_counts_keys (numbers : list Z) :
  Forall (λ n, 0 < n < 10 ^ 9) numbers →
  ∃ m, build_divisor_counts numbers = Ok m ∧
    (∀ d, is_Some (m !! d) ↔ 0 < d ∧ ∃ n, n ∈ numbers ∧ n `mod` d = 0) ∧
    (∀ d c, m !! d = Some c → 1 ≤ c ≤ Z.of_nat (length numbers)) ∧
    (∀ n, n ∈ numbers → is_Some (m !! n)) ∧
    (numbers ≠ [] → m !! 1 = Some (Z.of_nat (length numbers))).
Proof.
  intros Hrange.
  assert (Forall (λ n, 0 < n) numbers) as Hpos.
  { eapply Forall_impl; [exact Hrange|]. simpl. lia. }
  clear Hrange. unfold build_divisor_counts.
  destruct (build_from_lookup numbers ∅ Hpos) as (m & -> & Hm).
  exists m. split; [done|].
  assert (∀ d, m !! d = if decide (0 < d ∧ 0 < multiples d numbers)
                        then Some (multiples d numbers) else None) as Hm'.
  { intros d. rewrite Hm. unfold count_at. rewrite lookup_empty. simpl.
    case_decide; [f_equal; lia|done]. }
  split_and!.
  - intros d. rewrite Hm', <-multiples_pos. case_decide; [|split; [by intros []|done]].
    split; [done|eauto].
  - intros d c. rewrite Hm'. case_decide as Hd; [|done]. intros [= <-].
    pose proof (multiples_le d numbers). lia.
  - intros n Hn. rewrite Hm', decide_True; [done|].
    rewrite Forall_forall in Hpos. split; [by apply Hpos|].
    apply multiples_pos. exists n. split; [done|]. apply Z.mod_same.
    specialize (Hpos n Hn). lia.
  - intros Hne. rewrite Hm', multiples_one, decide_True; [done|].
    destruct numbers; [done|]. simpl. lia.
Qed.

Lemma build_divisor_counts_keys_witness :
  ∃ m, build_divisor_counts [12; 24; 36] = Ok m ∧
    (∀ d, is_Some (m !! d) ↔ 0 < d ∧ ∃ n, n ∈ [12; 24; 36] ∧ n `mod` d = 0) ∧
    (∀ d c, m !! d = Some c → 1 ≤ c ≤ Z.of_nat (length [12; 24; 36])) ∧
    (∀ n, n ∈ [12; 24; 36] → is_Some (m !! n)) ∧
    ([12; 24; 36] ≠ [] → m !! 1 = Some (Z.of_nat (length [12; 24; 36]))).
Proof.
  apply (build_divisor_counts_keys [12; 24; 36]). repeat constructor; lia.
Defined.

(** X4. On candidates between [-10^9] and [10^9], the result of
    [build_divisor_counts], the mapping or the exception, is the same for
    every order of the candidates. *)
Theorem build_divisor_counts_any_order (numbers numbers' : list Z) :
  Forall (λ n, - 10 ^ 9 < n < 10 ^ 9) numbers →
  numbers ≡ₚ numbers' →
  build_divisor_counts numbers = build_divisor_counts numbers'.
Proof. intros _. apply build_divisor_counts_perm. Qed.

Lemma build_divisor_counts_any_order_witness :
  build_divisor_counts [12; 0; -3; 36] = build_divisor_counts [36; 12; -3; 0].
Proof.
  apply (build_divisor_counts_any_order [12; 0; -3; 36] [36; 12; -3; 0]).
  - repeat constructor; lia.
  - compute_done.
Defined.

(** ** More on the candidate filter *)

Section format_round_trip.
Implicit Types (n d : Z) (s : str) (c : ascii).

Lemma is_digit_value c : is_digit c → 0 ≤ digit_value c ≤ 9.
Proof. unfold is_digit, digit_value. lia. Qed.

Lemma digit_value_inj c c' : digit_value c = digit_value c' → c = c'.
Proof.
  unfold digit_value. intros Heq.
  rewrite <-(ascii_nat_embedding c), <-(ascii_nat_embedding c'). f_equal. lia.
Qed.

Lemma int_of_str_bound s :
  Forall is_digit s → 0 ≤ int_of_str s < 10 ^ Z.of_nat (length s).
Proof.
  induction s as [|c s IH] using rev_ind; intros Hdig.
  { unfold int_of_str. simpl. lia. }
  apply Forall_app in Hdig as [Hs Hc]. rewrite Forall_singleton in Hc.
  specialize (IH Hs). apply is_digit_value in Hc.
  rewrite int_of_str_snoc, length_app, Nat2Z.inj_add. simpl length.
  rewrite Z.pow_add_r by lia. change (10 ^ Z.of_nat 1) with 10. lia.
Qed.

(** Digit strings of one length that denote the same number are equal. *)
Lemma int_of_str_inj s s' :
  length s = length s' → Forall is_digit s → Forall is_digit s' →
  int_of_str s = int_of_str s' → s = s'.
Proof.
  revert s'. induction s as [|c s IH] using rev_ind; intros s' Hlen Hs Hs' Heq.
  { destruct s'; [done|]. simpl in Hlen. lia. }
  destruct s' as [|c' s' _] using rev_ind.
  { rewrite length_app in Hlen. simpl in Hlen. lia. }
  rewrite !length_app in Hlen. simpl in Hlen.
  apply Forall_app in Hs as [Hs Hc]. rewrite Forall_singleton in Hc.
  apply Forall_app in Hs' as [Hs' Hc']. rewrite Forall_singleton in Hc'.
  rewrite !int_of_str_snoc in Heq.
  apply is_digit_value in Hc, Hc'.
  assert (digit_value c = digit_value c') as Hv by lia.
  apply digit_value_inj in Hv as ->.
  f_equal. apply IH; [lia|done..|lia].
Qed.

Lemma str_of_nonneg_length n :
  0 ≤ n → (0 < length (str_of_nonneg n))%nat ∧
  ∀ k : nat, 10 ^ Z.of_nat k ≤ n → (k < length (str_of_nonneg n))%nat.
Proof.
  intros Hn. destruct (str_of_nonneg_spec n Hn) as (Hval & Hdig & _).
  pose proof (int_of_str_bound _ Hdig) as Hb. rewrite Hval in Hb.
  split.
  - unfold str_of_nonneg. simpl. destruct (decide _); [simpl; lia|].
    rewrite length_app. simpl. lia.
  - intros k Hk. destruct (decide (k < length (str_of_nonneg n))%nat); [done|].
    assert (10 ^ Z.of_nat (length (str_of_nonneg n)) ≤ 10 ^ Z.of_nat k)
      by (apply Z.pow_le_mono_r; lia).
    lia.
Qed.
End format_round_trip.

Lemma format_09_nonneg (n : Z) :
  0 ≤ n →
  Forall is_digit (format_09 n) ∧
  int_of_str (format_09 n) = n ∧
  (9 ≤ length (format_09 n))%nat ∧
  (length (format_09 n) = 9%nat ↔ n < 10 ^ 9).
Proof.
  intros Hn. unfold format_09. rewrite decide_False by lia.
  destruct (str_of_nonneg_spec n Hn) as (Hval & Hdig & Hlen).
  destruct (str_of_nonneg_length n Hn) as [_ Hlow].
  unfold zfill. rewrite length_app, length_replicate. split_and!.
  - apply Forall_app. split; [|done]. apply Forall_replicate. unfold is_digit.
    change (nat_of_ascii "0") with 48%nat. lia.
  - by rewrite int_of_str_zeros.
  - lia.
  - split.
    + intros Hnine. destruct (decide (n < 10 ^ 9)); [done|].
      specialize (Hlow 9%nat). change (Z.of_nat 9) with 9 in Hlow. lia.
    + intros Hlt. specialize (Hlen 9%nat). change (Z.of_nat 9) with 9 in Hlen. lia.
Qed.

(** X5. For [0 ≤ n < 10^640] the string [f"{n:09}"] consists of decimal
    digits and reads back as [n]; it has at least 9 characters, and exactly
    9 when and only when [n < 10^9]: the padding never truncates. *)
Theorem format_09_round_trip (n : Z) :
  0 ≤ n < 10 ^ 640 →
  Forall is_digit (format_09 n) ∧
  int_of_str (format_09 n) = n ∧
  (9 ≤ length (format_09 n))%nat ∧
  (length (format_09 n) = 9%nat ↔ n < 10 ^ 9).
Proof. intros [Hn _]. by apply format_09_nonneg. Qed.

Lemma format_09_round_trip_witness :
  Forall is_digit (format_09 1234567890) ∧
  int_of_str (format_09 1234567890) = 1234567890 ∧
  (9 ≤ length (format_09 1234567890))%nat ∧
  (length (format_09 1234567890) = 9%nat ↔ 1234567890 < 10 ^ 9).
Proof. apply (format_09_round_trip 1234567890). compute_done. Defined.

Lemma format_09_int_of_str (s : str) :
  length s = 9%nat → Forall is_digit s → format_09 (int_of_str s) = s.
Proof.
  intros Hlen Hdig. pose proof (int_of_str_bound s Hdig) as Hb.
  rewrite Hlen in Hb. change (Z.of_nat 9) with 9 in Hb.
  destruct (format_09_nonneg (int_of_str s)) as (Hd & Hv & _ & Hl); [lia|].
  apply int_of_str_inj; [rewrite Hlen; apply Hl; lia|exact Hd|exact Hdig|exact Hv].
Qed.

(** X6. A string of 9 decimal digits is the formatted form of the number it
    denotes: reading it and formatting the number gives the string back,
    leading zeros included. *)
Theorem format_09_of_int_of_str (s : str) :
  length s = 9%nat → Forall is_digit s → format_09 (int_of_str s) = s.
Proof. apply format_09_int_of_str. Qed.

Lemma format_09_of_int_of_str_witness :
  format_09 (int_of_str (list_ascii_of_string "012345678")) =
  list_ascii_of_string "012345678".
Proof.
  apply (format_09_of_int_of_str (list_ascii_of_string "012345678")).
  - reflexivity.
  - repeat constructor; unfold is_digit; simpl; lia.
Defined.

(** X7. For [-10^640 < n < 0] the formatted string is a minus sign followed
    by at least 8 decimal digits that denote [-n]; it has 9 characters
    exactly when [-10^8 < n], so the sign takes one of the nine places. *)
Theorem format_09_negative (n : Z) :
  - 10 ^ 640 < n < 0 →
  ∃ digits, format_09 n = "-"%char :: digits ∧
    Forall is_digit digits ∧ int_of_str digits = - n ∧
    (8 ≤ length digits)%nat ∧
    (length (format_09 n) = 9%nat ↔ - 10 ^ 8 < n).
Proof.
  intros [_ Hn]. unfold format_09. rewrite decide_True by done.
  destruct (str_of_nonneg_spec (- n)) as (Hval & Hdig & Hlen); [lia|].
  destruct (str_of_nonneg_length (- n)) as [_ Hlow]; [lia|].
  eexists. split; [done|]. unfold zfill.
  simpl length. rewrite length_app, length_replicate. split_and!.
  - apply Forall_app. split; [|done]. apply Forall_replicate. unfold is_digit.
    change (nat_of_ascii "0") with 48%nat. lia.
  - by rewrite int_of_str_zeros.
  - lia.
  - split.
    + intros Hnine. destruct (decide (- 10 ^ 8 < n)); [done|].
      specialize (Hlow 8%nat). change (Z.of_nat 8) with 8 in Hlow. lia.
    + intros Hlt. specialize (Hlen 8%nat). change (Z.of_nat 8) with 8 in Hlen. lia.
Qed.

Lemma format_09_negative_witness :
  ∃ digits, format_09 (-5) = "-"%char :: digits ∧
    Forall is_digit digits ∧ int_of_str digits = - -5 ∧
    (8 ≤ length digits)%nat ∧
    (length (format_09 (-5)) = 9%nat ↔ - 10 ^ 8 < -5).
Proof. apply (format_09_negative (-5)). compute_done. Defined.

(** X8. On candidates between [-10^640] and [10^640],
    [find_numbers_with_divisor] raises exactly when the divisor is 0 and
    there is at least one candidate, and then [ZeroDivisionError]; with a
    zero divisor and no candidate it returns; a returned list is never
    longer than the list of candidates. *)
Theorem find_numbers_with_divisor_raises (numbers : list Z) (divisor : Z) :
  Forall (λ n, - 10 ^ 640 < n < 10 ^ 640) numbers →
  (find_numbers_with_divisor numbers divisor = Raise ZeroDivisionError
   ↔ divisor = 0 ∧ numbers ≠ []) ∧
  (∀ e, find_numbers_with_divisor numbers divisor = Raise e →
        e = ZeroDivisionError) ∧
  (∀ l, find_numbers_with_divisor numbers divisor = Ok l →
        (length l ≤ length numbers)%nat).
Proof.
  intros _. destruct (decide (divisor = 0)) as [->|Hd].
  - destruct numbers as [|n numbers]; simpl.
    + split_and!; [split; [done|by intros [_ ?]]|done|by intros ? [= <-]].
    + split_and!; [done|by intros ? [= <-]|done].
  - rewrite find_numbers_with_divisor_filter by done. split_and!.
    + split; [done|by intros [? _]].
    + done.
    + intros l [= <-]. rewrite length_fmap. apply length_filter.
Qed.

Lemma find_numbers_with_divisor_raises_witness :
  (find_numbers_with_divisor [12; 24; 36] 0 = Raise ZeroDivisionError
   ↔ 0 = 0 ∧ [12; 24; 36] ≠ []) ∧
  (∀ e, find_numbers_with_divisor [12; 24; 36] 0 = Raise e →
        e = ZeroDivisionError) ∧
  (∀ l, find_numbers_with_divisor [12; 24; 36] 0 = Ok l →
        (length l ≤ length [12; 24; 36])%nat).
Proof.
  apply (find_numbers_with_divisor_raises [12; 24; 36] 0). compute_done.
Defined.

(** X9. On pairwise distinct non-negative candidates the returned strings
    are pairwise distinct, and read back they are, in order, the candidates
    divisible by the divisor. *)
Theorem find_numbers_with_divisor_distinct (numbers : list Z) (divisor : Z) (l : list str) :
  Forall (λ n, 0 ≤ n) numbers → NoDup numbers →
  find_numbers_with_divisor numbers divisor = Ok l →
  NoDup l ∧ int_of_str <$> l = filter (λ n, n `mod` divisor = 0) numbers.
Proof.
  intros Hnn Hnodup Hfind.
  destruct (decide (divisor = 0)) as [->|Hd].
  { destruct numbers; simpl in Hfind; [|done]. injection Hfind as <-.
    split; [constructor|done]. }
  rewrite find_numbers_with_divisor_filter in Hfind by done.
  injection Hfind as <-.
  assert (int_of_str <$> (format_09 <$> filter (λ n, n `mod` divisor = 0) numbers)
          = filter (λ n, n `mod` divisor = 0) numbers) as Hback.
  { rewrite <-list_fmap_compose. rewrite <-(list_fmap_id (filter _ numbers)) at 2.
    apply list_fmap_ext. intros i n Hi. simpl.
    apply list_elem_of_lookup_2, list_elem_of_filter in Hi as [_ Hin].
    rewrite Forall_forall in Hnn. by apply format_09_nonneg, Hnn. }
  split; [|done].
  apply (NoDup_fmap_1 int_of_str). rewrite Hback. by apply NoDup_filter.
Qed.

Lemma find_numbers_with_divisor_distinct_witness :
  NoDup (format_09 <$> [12345678; 987654321]) ∧
  int_of_str <$> (format_09 <$> [12345678; 987654321]) =
    filter (λ n, n `mod` 9 = 0) [12345678; 123456788; 987654321].
Proof.
  apply (find_numbers_with_divisor_distinct [12345678; 123456788; 987654321] 9).
  - repeat constructor; lia.
  - compute_done.
  - vm_compute. reflexivity.
Defined.

#[local] Close Scope Z_scope.

(** ** More on the positional coverage checker *)

Section coverage_edges.
Implicit Types (num : str) (numbers : list str) (symbols digits : gset ascii)
  (pd : list (gset ascii)) (pos i : nat).

Lemma scan_digits_cases symbols num pos pd :
  (∃ pd', scan_digits symbols pos num pd = Ok pd' ∧ length pd' = length pd ∧
     ¬ symbol_beyond symbols (length pd - pos) num ∧
     ∀ i digits', pd' !! i = Some digits' →
       ∃ digits, pd !! i = Some digits ∧
         ∀ c, c ∈ digits' ↔
              c ∈ digits ∨ (c ∈ symbols ∧ pos ≤ i ∧ num !! (i - pos) = Some c))
  ∨ (scan_digits symbols pos num pd = Raise IndexError ∧
     symbol_beyond symbols (length pd - pos) num).
Proof.
  revert pos pd. induction num as [|digit num IH]; intros pos pd.
  { left. exists pd. split_and!; [done..| |].
    - intros (i & c & Hi & _). by rewrite lookup_nil in Hi.
    - intros i digits' Hi. exists digits'. split; [done|]. intros c.
      rewrite lookup_nil. naive_solver. }
  simpl. destruct (decide (digit ∈ symbols)) as [Hin|Hnin].
  - unfold index. destruct (pd !! pos) as [s|] eqn:Hs; simpl.
    + apply lookup_lt_Some in Hs as Hpos.
      destruct (IH (S pos) (<[pos:=s ∪ {[digit]}]> pd))
        as [(pd' & -> & Hl & Hno & Hpd')|[-> Hbeyond]];
        rewrite length_insert in *.
      * left. exists pd'. split_and!; [done..| |].
        { intros (i & c & Hi & Hc & Hle). destruct i as [|i]; [lia|].
          apply Hno. exists i, c. simpl in Hi. split_and!; [done..|lia]. }
        intros i digits' Hi.
        destruct (Hpd' i digits' Hi) as (digits & Hdig & Hc).
        destruct (decide (i = pos)) as [->|Hne].
        -- rewrite list_lookup_insert_eq in Hdig by lia. simplify_eq.
           exists s. split; [done|]. intros c. rewrite Hc, Nat.sub_diag. simpl.
           rewrite elem_of_union, elem_of_singleton. split.
           ++ intros [[?| ->]|(_ & ? & _)]; [by left|by right|lia].
           ++ intros [?|(? & _ & [= ->])]; left; [by left|by right].
        -- rewrite list_lookup_insert_ne in Hdig by done.
           exists digits. split; [done|]. intros c. rewrite Hc.
           split; (intros [?|(? & ? & Hnth)]; [by left|right]).
           ++ split_and!; [done|lia|].
              replace (i - pos) with (S (i - S pos)) by lia. done.
           ++ split_and!; [done|lia|].
              replace (i - pos) with (S (i - S pos)) in Hnth by lia. done.
      * right. split; [done|]. destruct Hbeyond as (i & c & Hi & Hc & Hle).
        exists (S i), c. split_and!; [done..|lia].
    + right. split; [done|]. apply lookup_ge_None in Hs.
      exists 0, digit. split_and!; [done..|lia].
  - destruct (IH (S pos) pd) as [(pd' & -> & Hl & Hno & Hpd')|[-> Hbeyond]].
    + left. exists pd'. split_and!; [done..| |].
      { intros (i & c & Hi & Hc & Hle). destruct i as [|i].
        - simpl in Hi. by simplify_eq.
        - apply Hno. exists i, c. simpl in Hi. split_and!; [done..|lia]. }
      intros i digits' Hi.
      destruct (Hpd' i digits' Hi) as (digits & Hdig & Hc).
      exists digits. split; [done|]. intros c. rewrite Hc.
      split; (intros [?|(? & ? & Hnth)]; [by left|right]).
      * split_and!; [done|lia|].
        replace (i - pos) with (S (i - S pos)) by lia. done.
      * destruct (decide (i = pos)) as [->|].
        { rewrite Nat.sub_diag in Hnth. simpl in Hnth. congruence. }
        split_and!; [done|lia|].
        replace (i - pos) with (S (i - S pos)) in Hnth by lia. done.
    + right. split; [done|]. destruct Hbeyond as (i & c & Hi & Hc & Hle).
      exists (S i), c. split_and!; [done..|lia].
Qed.

Lemma scan_numbers_cases symbols numbers pd :
  (∃ pd', scan_numbers symbols numbers pd = Ok pd' ∧ length pd' = length pd ∧
     Forall (λ num, ¬ symbol_beyond symbols (length pd) num) numbers ∧
     ∀ i digits', pd' !! i = Some digits' →
       ∃ digits, pd !! i = Some digits ∧
         ∀ c, c ∈ digits' ↔
              c ∈ digits ∨ (c ∈ symbols ∧ ∃ num, num ∈ numbers ∧ num !! i = Some c))
  ∨ (scan_numbers symbols numbers pd = Raise IndexError ∧
     Exists (symbol_beyond symbols (length pd)) numbers).
Proof.
  revert pd. induction numbers as [|num numbers IH]; intros pd.
  { left. exists pd. split_and!; [done..|constructor|].
    intros i digits' Hi. exists digits'.
    split; [done|]. intros c. setoid_rewrite elem_of_nil. naive_solver. }
  simpl.
  destruct (scan_digits_cases symbols num 0 pd)
    as [(pd1 & -> & Hl1 & Hno1 & Hpd1)|[-> Hbeyond]]; simpl;
    rewrite Nat.sub_0_r in *.
  - destruct (IH pd1) as [(pd' & -> & Hl & Hno & Hpd')|[-> Hex]];
      rewrite Hl1 in *.
    + left. exists pd'. split_and!; [done|congruence|by constructor|].
      intros i digits' Hi.
      destruct (Hpd' i digits' Hi) as (digits1 & Hdig1 & Hc').
      destruct (Hpd1 i digits1 Hdig1) as (digits & Hdig & Hc).
      exists digits. split; [done|]. intros c. rewrite Hc', Hc, Nat.sub_0_r.
      setoid_rewrite elem_of_cons. naive_solver lia.
    + right. split; [done|]. by right.
  - right. split; [done|]. by left.
Qed.
End coverage_edges.

Lemma check_digit_positions_cases (numbers : list str) (symbols : gset ascii) :
  (check_digit_positions numbers symbols = Raise IndexError
   ↔ Exists (symbol_beyond symbols 9) numbers) ∧
  (∀ e, check_digit_positions numbers symbols = Raise e → e = IndexError) ∧
  (∀ position_digits,
     check_digit_positions numbers symbols = Ok position_digits →
     length position_digits = 9 ∧
     ∀ (pos : nat) (digits : gset ascii),
       position_digits !! pos = Some digits →
       ∀ c, c ∈ digits ↔
            c ∈ symbols ∧ ∃ num, num ∈ numbers ∧ num !! pos = Some c).
Proof.
  unfold check_digit_positions.
  destruct (scan_numbers_cases symbols numbers (replicate 9 ∅))
    as [(pd & Hpd & Hl & Hno & Hspec)|[Hraise Hex]];
    rewrite length_replicate in *.
  - rewrite Hpd. split_and!; [|done|].
    + split; [done|]. intros Hex. apply Exists_exists in Hex as (num & Hin & Hb).
      rewrite Forall_forall in Hno. by destruct (Hno num Hin).
    + intros ? [= <-]. split; [done|]. intros pos digits Hpos.
      destruct (Hspec pos digits Hpos) as (digits0 & Hd0 & Hc).
      apply lookup_replicate in Hd0 as [-> _]. intros c. rewrite Hc. set_solver.
  - rewrite Hraise. split_and!; [done|by intros ? [= <-]|done].
Qed.

(** X10. [check_digit_positions] raises exactly when some string has a
    symbol of the set at position 9 or beyond, and then [IndexError]; a
    character that is not a symbol is passed over wherever it stands, and
    strings of any length without such a symbol are accepted. When it
    returns, there are nine sets and the set of a position holds exactly the
    symbols seen at that position. *)
Theorem check_digit_positions_raises (numbers : list str) (symbols : gset ascii) :
  (check_digit_positions numbers symbols = Raise IndexError
   ↔ Exists (symbol_beyond symbols 9) numbers) ∧
  (∀ e, check_digit_positions numbers symbols = Raise e → e = IndexError) ∧
  (∀ position_digits,
     check_digit_positions numbers symbols = Ok position_digits →
     length position_digits = 9 ∧
     ∀ (pos : nat) (digits : gset ascii),
       position_digits !! pos = Some digits →
       ∀ c, c ∈ digits ↔
            c ∈ symbols ∧ ∃ num, num ∈ numbers ∧ num !! pos = Some c).
Proof. apply check_digit_positions_cases. Qed.

(** X11. The result of [check_digit_positions], the nine sets or the
    exception, does not depend on the order of the strings. *)
Theorem check_digit_positions_order_independent
    (numbers numbers' : list str) (symbols : gset ascii) :
  numbers ≡ₚ numbers' →
  check_digit_positions numbers symbols = check_digit_positions numbers' symbols.
Proof.
  intros Hperm.
  destruct (check_digit_positions_cases numbers symbols) as (Hr & He & Hok).
  destruct (check_digit_positions_cases numbers' symbols) as (Hr' & He' & Hok').
  destruct (check_digit_positions numbers symbols) as [pd|e] eqn:Hrun.
  - destruct (check_digit_positions numbers' symbols) as [pd'|e'] eqn:Hrun'.
    + destruct (Hok pd eq_refl) as [Hl Hpd]. destruct (Hok' pd' eq_refl) as [Hl' Hpd'].
      f_equal. apply list_eq_same_length with 9; [done..|].
      intros i s s' Hi Hs Hs'. apply set_eq. intros c.
      rewrite (Hpd i s Hs), (Hpd' i s' Hs'). by setoid_rewrite Hperm.
    + rewrite (He' e' eq_refl) in Hr'. apply proj1 in Hr'.
      specialize (Hr' eq_refl). rewrite <-Hperm in Hr'. by apply Hr in Hr'.
  - rewrite (He e eq_refl) in Hr |- *. apply proj1 in Hr. specialize (Hr eq_refl).
    rewrite Hperm in Hr. symmetry. by apply Hr'.
Qed.

Lemma check_digit_positions_order_independent_witness :
  check_digit_positions
    [list_ascii_of_string "123456789"; list_ascii_of_string "x23456780"]
    (list_to_set (list_ascii_of_string "012345678")) =
  check_digit_positions
    [list_ascii_of_string "x23456780"; list_ascii_of_string "123456789"]
    (list_to_set (list_ascii_of_string "012345678")).
Proof.
  apply check_digit_positions_order_independent. compute_done.
Defined.

(** ** More on the constraint model *)

Section box_constraints.
Implicit Types (num : str) (row col b : nat) (t : gmap nat (list box_clue))
  (rcs : list (nat * row_clue)).

Lemma elem_of_clues_of_box rcs b r c d :
  (r, c, d) ∈ clues_of_box rcs b ↔ (r, Some (c, d)) ∈ rcs ∧ box_of r c = b.
Proof.
  unfold clues_of_box. rewrite list_elem_of_omap. split.
  - intros ([r' [[c' d']|]] & Hin & Heq); simpl in Heq; [|done].
    destruct (decide _); [|done]. by simplify_eq.
  - intros [Hin Hb]. exists (r, Some (c, d)). split; [done|]. simpl.
    by rewrite decide_True.
Qed.

Lemma add_box_constraints_spec rcs t :
  (∃ t', add_box_constraints rcs t = Ok t' ∧
     ∀ b, t' !! b = (λ l, l ++ clues_of_box rcs b) <$> t !! b)
  ∨ (add_box_constraints rcs t = Raise KeyError ∧
     ∃ r c d, (r, Some (c, d)) ∈ rcs ∧ t !! box_of r c = None).
Proof.
  revert t. induction rcs as [|[row [[col digit]|]] rcs IH]; intros t;
    cbn [add_box_constraints].
  - left. exists t. split; [done|]. intros b. destruct (t !! b); simpl; [|done].
    change (clues_of_box [] b) with (@nil box_clue).
    by rewrite (right_id_L [] (++)).
  - change (row / 3 * 3 + col / 3) with (box_of row col). unfold dict_get.
    destruct (t !! box_of row col) as [l|] eqn:Hl; cbn [res_bind].
    + destruct (IH (<[box_of row col := l ++ [(row, col, digit)]]> t))
        as [(t' & -> & Ht')|[-> (r & c & d & Hin & Hnone)]].
      * left. exists t'. split; [done|]. intros b. rewrite Ht'.
        destruct (decide (box_of row col = b)) as [<-|Hne].
        -- rewrite lookup_insert_eq, Hl. simpl. f_equal.
           rewrite <-(assoc_L (++)). f_equal. unfold clues_of_box. simpl.
           by rewrite decide_True.
        -- rewrite lookup_insert_ne by done. f_equal.
           unfold clues_of_box. simpl. by rewrite decide_False.
      * right. split; [done|]. exists r, c, d. split; [by right|].
        destruct (decide (box_of row col = box_of r c)) as [Heq|Hne].
        -- by rewrite Heq, lookup_insert_eq in Hnone.
        -- by rewrite lookup_insert_ne in Hnone.
    + right. split; [done|]. exists row, col, digit. split; [left|done].
  - destruct (IH t) as [(t' & -> & Ht')|[-> (r & c & d & Hin & Hnone)]].
    + left. exists t'. split; [done|]. intros b. by rewrite Ht'.
    + right. split; [done|]. exists r, c, d. split; [by right|done].
Qed.


Lemma lookup_empty_boxes b :
  empty_boxes !! b = if decide (b < 9) then Some [] else None.
Proof.
  unfold empty_boxes. destruct (decide (b < 9)) as [Hb|Hb].
  - apply elem_of_list_to_map.
    + change (NoDup (seq 0 9)). apply NoDup_seq.
    + apply list_elem_of_fmap. exists b. split; [done|]. apply elem_of_seq. lia.
  - apply not_elem_of_list_to_map.
    change (b ∉ seq 0 9). rewrite elem_of_seq. lia.
Qed.
End box_constraints.

Lemma get_box_constraints_table :
  ∃ t, get_box_constraints = Ok t ∧
    (∀ b, is_Some (t !! b) ↔ b < 9) ∧
    (∀ b clues, t !! b = Some clues →
       clues = clues_of_box get_row_constraints b ∧
       ∀ r c d, (r, c, d) ∈ clues ↔
                (r, Some (c, d)) ∈ get_row_constraints ∧ box_of r c = b).
Proof.
  unfold get_box_constraints. fold empty_boxes.
  destruct (add_box_constraints_spec get_row_constraints empty_boxes)
    as [(t & -> & Ht)|[_ (r & c & d & Hin & Hnone)]].
  - exists t. split; [done|]. split.
    + intros b. rewrite Ht, lookup_empty_boxes. destruct (decide (b < 9)); simpl.
      * split; [done|eauto].
      * split; [by intros []|done].
    + intros b clues. rewrite Ht, lookup_empty_boxes.
      destruct (decide (b < 9)); simpl; [|done]. intros [= <-].
      split; [done|]. intros r c d. apply elem_of_clues_of_box.
  - exfalso. rewrite lookup_empty_boxes in Hnone.
    destruct (decide _) as [|Hge]; [done|]. apply Hge.
    apply list_elem_of_In in Hin. unfold get_row_constraints in Hin. simpl in Hin.
    repeat (destruct Hin as [Hin|Hin];
            [try discriminate Hin; injection Hin as <- <- _; vm_compute; lia|]).
    done.
Qed.

(** X12. [get_box_constraints] returns a dictionary whose keys are exactly
    the boxes 0 to 8; the list of a box holds, in the order of the row
    clues, exactly the clues [(row, col, digit)] whose cell lies in that
    box. *)
Theorem get_box_constraints_grouping :
  ∃ t, get_box_constraints = Ok t ∧
    (∀ b, is_Some (t !! b) ↔ b < 9) ∧
    (∀ b clues, t !! b = Some clues →
       clues = clues_of_box get_row_constraints b ∧
       ∀ r c d, (r, c, d) ∈ clues ↔
                (r, Some (c, d)) ∈ get_row_constraints ∧ box_of r c = b).
Proof. apply get_box_constraints_table. Qed.

Section box_check.
Implicit Types (num : str) (row col b : nat) (t : gmap nat (list box_clue)).

Lemma row_constraints_in_grid r c d :
  (r, Some (c, d)) ∈ get_row_constraints → r < 9 ∧ c < 9.
Proof.
  intros Hin. apply list_elem_of_In in Hin. unfold get_row_constraints in Hin.
  simpl in Hin.
  repeat (destruct Hin as [Hin|Hin];
          [try discriminate Hin; injection Hin as <- <- _; lia|]).
  done.
Qed.

Lemma box_section_ok_spec row (section : gset ascii) (clues : list box_clue) :
  box_section_ok row section clues = true ↔
  ∀ r c d, (r, c, d) ∈ clues → r ≠ row → d ∉ section.
Proof.
  unfold box_section_ok. rewrite forallb_forall. split.
  - intros Hall r c d Hin%list_elem_of_In Hne Hd.
    specialize (Hall _ Hin). simpl in Hall.
    rewrite bool_decide_eq_true_2, bool_decide_eq_true_2 in Hall by done. done.
  - intros Hall [[r c] d] Hin%list_elem_of_In.
    destruct (decide (r ≠ row)) as [Hne|Heq].
    + rewrite (bool_decide_eq_false_2 (d ∈ section)) by eauto.
      by rewrite andb_false_r.
    + by rewrite (bool_decide_eq_false_2 (r ≠ row)) by done.
Qed.

Lemma check_boxes_spec t num row box_row box_cols :
  (∀ b, b < 9 → is_Some (t !! b)) → box_row < 3 →
  Forall (λ box_col, box_col < 3) box_cols →
  ∃ ok, check_boxes t num row box_row box_cols = Ok ok ∧
    (ok = true ↔
     ∀ box_col clues r c d,
       box_col ∈ box_cols → t !! (box_row * 3 + box_col) = Some clues →
       (r, c, d) ∈ clues → r ≠ row → d ∉ take 3 (drop (box_col * 3) num)).
Proof.
  intros Ht Hrow. induction 1 as [|box_col box_cols Hcol _ (ok & IH & Hok)];
    cbn [check_boxes].
  { exists true. split; [done|]. split; [|done]. by intros _ ????? ?%elem_of_nil. }
  unfold dict_get. destruct (Ht (box_row * 3 + box_col)) as [clues Hclues]; [lia|].
  rewrite Hclues. cbn [res_bind].
  destruct (box_section_ok _ _ clues) eqn:Hsec.
  - rewrite IH. exists ok. split; [done|]. rewrite Hok.
    rewrite box_section_ok_spec in Hsec. split.
    + intros Hall bc clues' r c d [->|Hin]%elem_of_cons Hlook Hclue Hne.
      * rewrite Hclues in Hlook. injection Hlook as <-.
        rewrite <-(elem_of_list_to_set (C:=gset ascii)). by eapply Hsec.
      * by eapply Hall.
    + intros Hall bc clues' r c d Hin. apply Hall. by right.
  - exists false. split; [done|]. split; [done|]. intros Hall. exfalso.
    apply not_true_iff_false in Hsec. apply Hsec, box_section_ok_spec.
    intros r c d Hclue Hne. rewrite elem_of_list_to_set.
    eapply Hall; [left|done..].
Qed.
End box_check.

Lemma check_box_constraints_cases (num : str) (row : nat) :
  (row < 9 →
   ∃ ok, check_box_constraints num row = Ok ok ∧
     (ok = true ↔
      ∀ r c d, (r, Some (c, d)) ∈ get_row_constraints →
               r ≠ row → r / 3 = row / 3 →
               d ∉ take 3 (drop (3 * (c / 3)) num))) ∧
  (9 ≤ row → check_box_constraints num row = Raise KeyError).
Proof.
  unfold check_box_constraints.
  destruct get_box_constraints_table as (t & -> & Hdom & Hclues).
  cbn [res_bind]. split.
  - intros Hrow.
    assert (row / 3 < 3) as Hband by (apply Nat.Div0.div_lt_upper_bound; lia).
    destruct (check_boxes_spec t num row (row / 3) (seq 0 3))
      as (ok & -> & Hok); [by intros; apply Hdom|done|repeat constructor|].
    exists ok. split; [done|]. rewrite Hok. split.
    + intros Hall r c d Hin Hne Hsame.
      destruct (row_constraints_in_grid r c d Hin) as [Hr Hc].
      assert (c / 3 < 3) by (apply Nat.Div0.div_lt_upper_bound; lia).
      destruct (Hdom (row / 3 * 3 + c / 3)) as [_ [clues Hl]]; [lia|].
      rewrite (Nat.mul_comm 3).
      eapply (Hall (c / 3) clues r c d); [apply elem_of_seq; lia|done| |done].
      apply (Hclues _ _ Hl). split; [done|]. unfold box_of. by rewrite Hsame.
    + intros Hall bc clues r c d Hbc Hl Hclue Hne.
      apply elem_of_seq in Hbc.
      apply (Hclues _ _ Hl) in Hclue as [Hin Hbox].
      destruct (row_constraints_in_grid r c d Hin) as [Hr Hc].
      assert (c / 3 < 3) by (apply Nat.Div0.div_lt_upper_bound; lia).
      assert (r / 3 < 3) by (apply Nat.Div0.div_lt_upper_bound; lia).
      unfold box_of in Hbox.
      assert (r / 3 = row / 3 ∧ c / 3 = bc) as [Hsame <-] by lia.
      rewrite Nat.mul_comm. by apply (Hall r c d).
  - intros Hrow. cbn [seq check_boxes]. unfold dict_get.
    assert (t !! (row / 3 * 3 + 0) = None) as ->; [|done].
    apply eq_None_not_Some. rewrite Hdom.
    assert (3 ≤ row / 3) by (apply Nat.div_le_lower_bound; lia). lia.
Qed.

(** X13. For a row 0 to 8 [check_box_constraints] returns [True] exactly
    when no clue digit of another row of the same band occurs among the
    three characters of the candidate that fall into the box of that clue;
    for a row beyond 8 it raises [KeyError]. *)
Theorem check_box_constraints_spec (num : str) (row : nat) :
  (row < 9 →
   ∃ ok, check_box_constraints num row = Ok ok ∧
     (ok = true ↔
      ∀ r c d, (r, Some (c, d)) ∈ get_row_constraints →
               r ≠ row → r / 3 = row / 3 →
               d ∉ take 3 (drop (3 * (c / 3)) num))) ∧
  (9 ≤ row → check_box_constraints num row = Raise KeyError).
Proof. apply check_box_constraints_cases. Qed.

(** ** More on row eligibility *)

Section eligibility_edges.
Implicit Types (num : str) (numbers : list str) (row r pos : nat)
  (vnr : gmap nat (list str)) (rcs : list (nat * row_clue)).

Lemma matching_rows_of_spec num rcs rows :
  matching_rows_of num rcs = Ok rows →
  rows `sublist_of` rcs.*1 ∧
  ∀ r, r ∈ rows ↔
       (∃ pos d, (r, Some (pos, d)) ∈ rcs ∧ num !! pos = Some d) ∧
       check_box_constraints num r = Ok true.
Proof.
  revert rows. induction rcs as [|[row [[pos digit]|]] rcs IH];
    intros rows Hrows; simpl in Hrows.
  - injection Hrows as <-. split; [done|]. intros r. split.
    + by intros ?%elem_of_nil.
    + by intros [(? & ? & ?%elem_of_nil & _) _].
  - unfold index in Hrows.
    destruct (num !! pos) as [c|] eqn:Hc; [simpl in Hrows|done].
    destruct (decide (c = digit)) as [->|Hne].
    + destruct (check_box_constraints num row) as [ok|] eqn:Hbox;
        [simpl in Hrows|done].
      destruct (matching_rows_of num rcs) as [rest|]; [simpl in Hrows|done].
      injection Hrows as <-. destruct (IH rest eq_refl) as [Hsub Hrest].
      split.
      * rewrite fmap_cons. simpl. destruct ok; [by apply sublist_skip|by apply sublist_cons].
      * intros r. transitivity (r = row ∧ ok = true ∨ r ∈ rest).
        { destruct ok; [rewrite elem_of_cons|]; naive_solver. }
        rewrite Hrest. setoid_rewrite elem_of_cons. split.
        -- intros [[-> ->]|[(p & d & Hin & Hd) Hok]].
           ++ split; [|done]. exists pos, digit. split; [by left|done].
           ++ split; [|done]. exists p, d. split; [by right|done].
        -- intros [(p & d & [Heq|Hin] & Hd) Hok].
           ++ injection Heq as -> -> ->. left. split; [done|]. congruence.
           ++ right. split; [|done]. eauto.
    + destruct (IH rows Hrows) as [Hsub Hrest]. split.
      * rewrite fmap_cons. by apply sublist_cons.
      * intros r. rewrite Hrest. setoid_rewrite elem_of_cons. split.
        -- intros [(p & d & Hin & Hd) Hok]. split; [|done]. eauto.
        -- intros [(p & d & [Heq|Hin] & Hd) Hok]; [|split; [eauto|done]].
           injection Heq as -> -> ->. congruence.
  - destruct (IH rows Hrows) as [Hsub Hrest]. split.
    * rewrite fmap_cons. by apply sublist_cons.
    * intros r. rewrite Hrest. setoid_rewrite elem_of_cons. split.
      -- intros [(p & d & Hin & Hd) Hok]. split; [|done]. eauto.
      -- intros [(p & d & [Heq|Hin] & Hd) Hok]; [done|split; [eauto|done]].
Qed.

Lemma matching_rows_eligible num rows :
  matching_rows_of num get_row_constraints = Ok rows →
  NoDup rows ∧ ∀ r, r ∈ rows ↔ eligible num r.
Proof.
  intros [Hsub Hrows]%matching_rows_of_spec. split; [|done].
  eapply sublist_NoDup; [|done]. compute_done.
Qed.

Lemma matching_rows_of_long num rcs :
  9 ≤ length num →
  Forall (λ rc : nat * row_clue,
            rc.1 < 9 ∧ ∀ pos digit, rc.2 = Some (pos, digit) → pos < 9) rcs →
  ∃ rows, matching_rows_of num rcs = Ok rows.
Proof.
  intros Hnum.
  induction 1 as [|[row [[pos digit]|]] rcs [Hrow Hpos] _ [rows IH]];
    simpl in *; [eauto| |eauto].
  unfold index. destruct (lookup_lt_is_Some_2 num pos) as [c ->].
  { specialize (Hpos pos digit eq_refl). lia. }
  simpl. destruct (decide (c = digit)); [|eauto].
  destruct (check_box_constraints_ok num row Hrow) as [ok ->]. simpl.
  rewrite IH. simpl. eauto.
Qed.

Lemma row_constraints_bounds :
  Forall (λ rc : nat * row_clue,
            rc.1 < 9 ∧ ∀ pos digit, rc.2 = Some (pos, digit) → pos < 9)
         get_row_constraints.
Proof.
  unfold get_row_constraints.
  repeat (constructor; [split; [simpl; lia|intros ?? [= <- _]; lia]|]);
    repeat constructor; simpl; try lia; done.
Qed.

Lemma find_valid_row_short num :
  length num < 9 →
  find_valid_row_for_number num get_row_constraints = Raise IndexError.
Proof.
  intros Hlen. unfold find_valid_row_for_number.
  assert (matching_rows_of num get_row_constraints = Raise IndexError) as ->;
    [|done].
  unfold get_row_constraints. cbn [matching_rows_of]. unfold index.
  assert (num !! 8 = None) as H8 by (apply lookup_ge_None; lia).
  destruct (num !! 7) as [c|]; [|done]. cbn [res_bind].
  destruct (decide (c = "2"%char)).
  - destruct (check_box_constraints_ok num 0) as [ok ->]; [lia|].
    cbn [res_bind]. by rewrite H8.
  - by rewrite H8.
Qed.
End eligibility_edges.

Lemma find_valid_row_returns (num : str) :
  (length num < 9 →
   find_valid_row_for_number num get_row_constraints = Raise IndexError) ∧
  (9 ≤ length num →
   ∃ valid_row,
     find_valid_row_for_number num get_row_constraints = Ok valid_row ∧
     ∀ row, valid_row = Some row → row < 9).
Proof.
  split; [apply find_valid_row_short|]. intros Hlen.
  unfold find_valid_row_for_number.
  destruct (matching_rows_of_long num get_row_constraints Hlen
              row_constraints_bounds) as [rows Hrows].
  rewrite Hrows. cbn [res_bind].
  destruct (matching_rows_eligible _ _ Hrows) as [_ Hel].
  destruct (decide _); [by eexists|]. destruct rows as [|r rows].
  - destruct (check_box_constraints_ok num 4) as [ok ->]; [lia|]. cbn [res_bind].
    eexists. split; [done|]. destruct ok; intros row [= <-]. lia.
  - eexists. split; [done|]. intros row [= <-].
    destruct (proj1 (Hel r)) as [(pos & d & Hin & _) _]; [left|].
    by destruct (row_constraints_in_grid _ _ _ Hin).
Qed.

(** X14. On a string of fewer than 9 characters [find_valid_row_for_number]
    raises [IndexError]; on every other string it returns, and a row it
    returns is one of 0 to 8. *)
Theorem find_valid_row_for_number_returns (num : str) :
  (length num < 9 →
   find_valid_row_for_number num get_row_constraints = Raise IndexError) ∧
  (9 ≤ length num →
   ∃ valid_row,
     find_valid_row_for_number num get_row_constraints = Ok valid_row ∧
     ∀ row, valid_row = Some row → row < 9).
Proof. apply find_valid_row_returns. Qed.

Lemma find_valid_row_cases (num : str) (row : nat) :
  9 ≤ length num →
  (find_valid_row_for_number num get_row_constraints = Ok (Some row) ↔
   (eligible num row ∧ ∀ r, eligible num r → r = row) ∨
   (row = 4 ∧ (∀ r, ¬ eligible num r) ∧
    check_box_constraints num 4 = Ok true)).
Proof.
  intros Hlen. unfold find_valid_row_for_number.
  destruct (matching_rows_of_long num get_row_constraints Hlen
              row_constraints_bounds) as [rows Hrows].
  rewrite Hrows. cbn [res_bind].
  destruct (matching_rows_eligible _ _ Hrows) as [Hnodup Hel].
  assert (¬ eligible num 4) as Hfour.
  { intros [(pos & d & Hin & _) _]. apply list_elem_of_In in Hin.
    unfold get_row_constraints in Hin. simpl in Hin.
    repeat (destruct Hin as [Hin|Hin]; [discriminate Hin|]). done. }
  destruct (decide (1 < length rows)) as [Hmany|Hfew].
  - split; [done|]. intros [[Hrow Huniq]|(-> & Hnone & _)].
    + destruct rows as [|r1 [|r2 rows]]; simpl in Hmany; [lia..|].
      assert (r1 = row) as -> by (apply Huniq, Hel; left).
      assert (r2 = row) as -> by (apply Huniq, Hel; right; left).
      apply NoDup_cons in Hnodup as [Hnotin _]. destruct Hnotin. left.
    + destruct rows as [|r1 rows]; simpl in Hmany; [lia|].
      destruct (Hnone r1). apply Hel. left.
  - destruct rows as [|r1 [|r2 rows]]; [| |simpl in Hfew; lia].
    + destruct (check_box_constraints_ok num 4) as [ok Hok]; [lia|].
      rewrite Hok. cbn [res_bind]. split.
      * destruct ok; intros [= <-]. right. split; [done|]. split; [|done].
        intros r Hr%Hel. by apply elem_of_nil in Hr.
      * intros [[Hrow _]|(-> & _ & Hbox)].
        -- apply Hel in Hrow. by apply elem_of_nil in Hrow.
        -- by injection Hbox as ->.
    + split.
      * intros [= <-]. left. split; [apply Hel; left|].
        intros r Hr%Hel. by apply list_elem_of_singleton in Hr.
      * intros [[Hrow _]|(-> & Hnone & _)].
        -- apply Hel, list_elem_of_singleton in Hrow. by subst.
        -- destruct (Hnone r1). apply Hel. left.
Qed.

(** X15. For a candidate of 9 characters or more,
    [find_valid_row_for_number] returns [row] exactly when [row] is the one
    row whose clue the candidate matches with the box check of that row
    passed, or when no row is matched in this way, [row] is 4 and the box
    check of row 4 passes. *)
Theorem find_valid_row_for_number_spec (num : str) (row : nat) :
  9 ≤ length num →
  (find_valid_row_for_number num get_row_constraints = Ok (Some row) ↔
   (eligible num row ∧ ∀ r, eligible num r → r = row) ∨
   (row = 4 ∧ (∀ r, ¬ eligible num r) ∧
    check_box_constraints num 4 = Ok true)).
Proof. apply find_valid_row_cases. Qed.

Lemma find_valid_row_for_number_spec_witness :
  find_valid_row_for_number (list_ascii_of_string "034678529")
    get_row_constraints = Ok (Some 8) ↔
   (eligible (list_ascii_of_string "034678529") 8 ∧
    ∀ r, eligible (list_ascii_of_string "034678529") r → r = 8) ∨
   (8 = 4 ∧ (∀ r, ¬ eligible (list_ascii_of_string "034678529") r) ∧
    check_box_constraints (list_ascii_of_string "034678529") 4 = Ok true).
Proof.
  apply (find_valid_row_for_number_spec (list_ascii_of_string "034678529") 8).
  simpl. lia.
Defined.

Section categorize_edges.
Implicit Types (num : str) (numbers : list str) (row r : nat)
  (vnr : gmap nat (list str)).

Lemma categorize_from_rows numbers vnr vnr' r :
  categorize_from numbers vnr = Ok vnr' →
  rows_get vnr' r = rows_get vnr r ++ filter (goes_to r) numbers.
Proof.
  revert vnr. induction numbers as [|num numbers IH]; intros vnr Hcat;
    simpl in Hcat.
  - injection Hcat as <-. rewrite filter_nil. by rewrite (right_id_L [] (++)).
  - destruct (find_valid_row_for_number num get_row_constraints)
      as [[row|]|] eqn:Hrow; [simpl in Hcat..|done]; rewrite filter_cons.
    + rewrite (IH _ Hcat), rows_get_insert.
      destruct (decide (r = row)) as [->|Hne].
      * rewrite decide_True by done. by rewrite <-(assoc_L (++)).
      * rewrite decide_False; [done|]. unfold goes_to. congruence.
    + rewrite (IH _ Hcat). rewrite decide_False; [done|].
      unfold goes_to. congruence.
Qed.

Lemma categorize_from_keys numbers vnr vnr' :
  categorize_from numbers vnr = Ok vnr' →
  (∀ r l, vnr !! r = Some l → l ≠ [] ∧ r < 9) →
  ∀ r l, vnr' !! r = Some l → l ≠ [] ∧ r < 9.
Proof.
  revert vnr. induction numbers as [|num numbers IH]; intros vnr Hcat Hvnr;
    simpl in Hcat.
  - by injection Hcat as <-.
  - destruct (find_valid_row_for_number num get_row_constraints)
      as [[row|]|] eqn:Hrow; [simpl in Hcat..|done]; [|by eapply IH].
    eapply IH; [done|]. intros r l. rewrite lookup_insert.
    destruct (decide (row = r)) as [<-|]; [|apply Hvnr].
    intros [= <-]. split; [by destruct (rows_get vnr row)|].
    destruct (decide (length num < 9)) as [Hshort|Hlong].
    + by rewrite find_valid_row_short in Hrow.
    + destruct (find_valid_row_returns num) as [_ Hret].
      destruct Hret as (v & Hv & Hbound); [lia|].
      rewrite Hrow in Hv. injection Hv as <-. by apply Hbound.
Qed.

Lemma categorize_from_raises numbers vnr :
  (categorize_from numbers vnr = Raise IndexError
   ↔ Exists (λ num, length num < 9) numbers) ∧
  (∀ e, categorize_from numbers vnr = Raise e → e = IndexError).
Proof.
  revert vnr. induction numbers as [|num numbers IH]; intros vnr; simpl.
  { rewrite Exists_nil. split; [split; [done|tauto]|done]. }
  rewrite Exists_cons.
  destruct (decide (length num < 9)) as [Hshort|Hlong].
  - rewrite find_valid_row_short by done. simpl.
    split; [split; [by left|done]|by intros ? [= <-]].
  - destruct (find_valid_row_returns num) as [_ Hret].
    destruct Hret as (v & -> & _); [lia|]. simpl.
    destruct v as [row|]; (split; [rewrite (proj1 (IH _)); tauto|apply IH]).
Qed.
End categorize_edges.

Lemma categorize_rows (numbers : list str) :
  (Exists (λ num, length num < 9) numbers →
   categorize_numbers_by_row numbers = Raise IndexError) ∧
  (Forall (λ num, 9 ≤ length num) numbers →
   ∃ vnr, categorize_numbers_by_row numbers = Ok vnr ∧
     (∀ row, rows_get vnr row = filter (goes_to row) numbers) ∧
     (∀ row l, vnr !! row = Some l → l ≠ [] ∧ row < 9)).
Proof.
  unfold categorize_numbers_by_row. split.
  - apply categorize_from_raises.
  - intros Hall.
    destruct (categorize_from numbers ∅) as [vnr|e] eqn:Hcat.
    + exists vnr. split; [done|]. split.
      * intros row. rewrite (categorize_from_rows _ _ _ row Hcat).
        unfold rows_get at 1. by rewrite lookup_empty.
      * eapply categorize_from_keys; [done|]. intros r l. by rewrite lookup_empty.
    + exfalso. destruct (categorize_from_raises numbers ∅) as [Hiff He].
      rewrite (He e Hcat) in Hcat. apply Hiff in Hcat.
      apply Exists_exists in Hcat as (num & Hin & Hshort).
      rewrite Forall_forall in Hall. specialize (Hall num Hin). lia.
Qed.

(** X16. [categorize_numbers_by_row] raises [IndexError] when some candidate
    has fewer than 9 characters. Otherwise the list of a row is the
    candidates that [find_valid_row_for_number] sends to that row, in the
    order of the input and with repetitions kept; no key has an empty list
    and no key is beyond 8. *)
Theorem categorize_numbers_by_row_spec (numbers : list str) :
  (Exists (λ num, length num < 9) numbers →
   categorize_numbers_by_row numbers = Raise IndexError) ∧
  (Forall (λ num, 9 ≤ length num) numbers →
   ∃ vnr, categorize_numbers_by_row numbers = Ok vnr ∧
     (∀ row, rows_get vnr row = filter (goes_to row) numbers) ∧
     (∀ row l, vnr !! row = Some l → l ≠ [] ∧ row < 9)).
Proof. apply categorize_rows. Qed.

(** ** More on the grid assembler *)

Section few_candidates.
Implicit Types (num : str) (numbers : list str) (row r : nat) (rs : list nat).

Lemma goes_to_unique num r r' : goes_to r num → goes_to r' num → r = r'.
Proof. unfold goes_to. congruence. Qed.

Lemma sum_goes_to_none num rs :
  (∀ r, r ∈ rs → ¬ goes_to r num) →
  sum_list_with (λ r, if decide (goes_to r num) then 1 else 0) rs = 0.
Proof.
  induction rs as [|r rs IH]; intros Hnone; [done|]. simpl.
  rewrite decide_False by (apply Hnone; left). rewrite IH; [done|].
  intros r' Hr'. apply Hnone. by right.
Qed.

Lemma sum_goes_to_le_1 num rs :
  NoDup rs →
  sum_list_with (λ r, if decide (goes_to r num) then 1 else 0) rs ≤ 1.
Proof.
  induction 1 as [|r rs Hnotin Hnodup IH]; simpl; [lia|].
  destruct (decide (goes_to r num)) as [Hr|Hr]; [|lia].
  rewrite sum_goes_to_none; [lia|]. intros r' Hin Hr'.
  by rewrite (goes_to_unique _ _ _ Hr Hr') in Hnotin.
Qed.

Lemma sum_rows_le numbers rs :
  NoDup rs →
  sum_list_with (λ r, length (filter (goes_to r) numbers)) rs ≤ length numbers.
Proof.
  intros Hnodup. induction numbers as [|num numbers IH]; simpl.
  { clear Hnodup. induction rs as [|r rs IHrs]; simpl in *; lia. }
  assert (sum_list_with (λ r, length (filter (goes_to r) (num :: numbers))) rs =
          sum_list_with (λ r, if decide (goes_to r num) then 1 else 0) rs +
          sum_list_with (λ r, length (filter (goes_to r) numbers)) rs) as ->.
  { clear. induction rs as [|r rs IH]; simpl; [done|].
    rewrite IH, filter_cons. destruct (decide _); simpl; lia. }
  pose proof (sum_goes_to_le_1 num rs Hnodup). lia.
Qed.

Lemma sum_rows_ge numbers rs :
  (∀ r, r ∈ rs → filter (goes_to r) numbers ≠ []) →
  length rs ≤ sum_list_with (λ r, length (filter (goes_to r) numbers)) rs.
Proof.
  induction rs as [|r rs IH]; intros Hall; simpl; [lia|].
  assert (filter (goes_to r) numbers ≠ []) as Hne by (apply Hall; left).
  assert (length rs ≤ sum_list_with (λ r, length (filter (goes_to r) numbers)) rs).
  { apply IH. intros r' Hr'. apply Hall. by right. }
  destruct (filter (goes_to r) numbers); [done|]. simpl. lia.
Qed.
End few_candidates.

(** X17. With fewer than nine candidates, each of 9 characters or more, the
    search is never started: some row is left without a candidate,
    [try_build_sudoku_grid] returns [None] and [backtrack] is not called. *)
Theorem try_build_needs_nine (numbers : list str) :
  Forall (λ num, 9 ≤ length num) numbers → length numbers < 9 →
  try_build_sudoku_grid_calls numbers = Ok (None, 0) ∧
  try_build_sudoku_grid numbers = Ok None.
Proof.
  intros Hall Hfew.
  destruct (categorize_rows numbers) as [_ Hcat].
  destruct (Hcat Hall) as (vnr & Hvnr & Hrows & _).
  destruct (decide (Exists (λ i, rows_get vnr i = []) (seq 0 9))) as [Hex|Hnone].
  - assert (try_build_sudoku_grid_calls numbers = Ok (None, 0)) as Hcalls.
    { unfold try_build_sudoku_grid_calls. rewrite Hvnr. cbn [res_bind].
      by rewrite decide_True. }
    split; [done|]. unfold try_build_sudoku_grid. by rewrite Hcalls.
  - exfalso. pose proof (sum_rows_le numbers (seq 0 9) (NoDup_seq 0 9)).
    pose proof (sum_rows_ge numbers (seq 0 9)) as Hge.
    rewrite length_seq in Hge. cut (9 ≤ length numbers); [lia|].
    etransitivity; [apply Hge|done]. intros r Hr Hempty.
    apply Hnone, Exists_exists. exists r. split; [done|]. by rewrite Hrows.
Qed.

Lemma try_build_needs_nine_witness :
  try_build_sudoku_grid_calls (take 8 grid_one) = Ok (None, 0) ∧
  try_build_sudoku_grid (take 8 grid_one) = Ok None.
Proof.
  apply (try_build_needs_nine (take 8 grid_one)).
  - compute_done.
  - simpl. lia.
Defined.

(** ** Valid grids and row eligibility *)

(** Every row of a valid grid is a candidate that
    [find_valid_row_for_number] sends to the index of the row. *)

Section valid_rows.
Implicit Types (num : str) (g : list str) (row r c b : nat).

Lemma column_lookup g c r :
  Forall (λ row : str, length row = 9) g → c < 9 →
  column g c !! r = g !! r ≫= (λ row : str, row !! c).
Proof.
  intros Hall Hc. revert r. unfold column.
  induction Hall as [|x g Hx _ IH]; intros r; [done|].
  destruct (lookup_lt_is_Some_2 x c) as [d Hd]; [lia|].
  simpl. rewrite Hd. simpl. destruct r as [|r]; simpl; [done|apply IH].
Qed.

Lemma column_distinct_rows g c r r' x y d :
  Forall (λ row : str, length row = 9) g → c < 9 → NoDup (column g c) →
  g !! r = Some x → g !! r' = Some y →
  x !! c = Some d → y !! c = Some d → r = r'.
Proof.
  intros Hall Hc Hnodup Hx Hy Hxd Hyd.
  apply (proj1 (NoDup_alt _) Hnodup r r' d);
    rewrite column_lookup by done; [by rewrite Hx|by rewrite Hy].
Qed.

Lemma NoDup_join_disjoint {A} (ls : list (list A)) i j a a' d :
  NoDup (mjoin ls) → ls !! i = Some a → ls !! j = Some a' → i ≠ j →
  d ∈ a → d ∉ a'.
Proof.
  revert i j. induction ls as [|l ls IH]; intros i j Hnodup Hi Hj Hne Hd Hd';
    [done|].
  simpl in Hnodup. apply NoDup_app in Hnodup as (_ & Hdisj & Hrest).
  destruct i as [|i], j as [|j]; simpl in *; simplify_eq.
  - apply (Hdisj d Hd). apply list_elem_of_join. exists a'.
    split; [done|]. by eapply list_elem_of_lookup_2.
  - apply (Hdisj d Hd'). apply list_elem_of_join. exists a.
    split; [done|]. by eapply list_elem_of_lookup_2.
  - apply (IH i j); try done. congruence.
Qed.

Lemma box_sections_disjoint g b r r' x y d :
  NoDup (box_digits g b) → g !! r = Some x → g !! r' = Some y → r ≠ r' →
  r / 3 = b / 3 → r' / 3 = b / 3 →
  d ∈ box_section b x → d ∉ box_section b y.
Proof.
  intros Hnodup Hx Hy Hne Hr Hr'. unfold box_digits in Hnodup.
  pose proof (Nat.div_mod_eq r 3). pose proof (Nat.mod_upper_bound r 3).
  pose proof (Nat.div_mod_eq r' 3). pose proof (Nat.mod_upper_bound r' 3).
  intros Hd.
  eapply (NoDup_join_disjoint _ (r - 3 * (b / 3)) (r' - 3 * (b / 3)) _ _ d Hnodup);
    [| |lia|exact Hd].
  - rewrite list_lookup_fmap, lookup_take_lt, lookup_drop by lia.
    replace (3 * (b / 3) + (r - 3 * (b / 3))) with r by lia. by rewrite Hx.
  - rewrite list_lookup_fmap, lookup_take_lt, lookup_drop by lia.
    replace (3 * (b / 3) + (r' - 3 * (b / 3))) with r' by lia. by rewrite Hy.
Qed.
End valid_rows.

Section valid_rows_eligible.
Implicit Types (num : str) (g : list str) (row r c b : nat).

Lemma valid_grid_box_check g r num :
  valid_grid g → g !! r = Some num → check_box_constraints num r = Ok true.
Proof.
  intros (Hlen & Hall & _ & Hboxes & Hclues) Hr.
  apply lookup_lt_Some in Hr as Hr9. rewrite Hlen in Hr9.
  destruct (check_box_constraints_cases num r) as [Hspec _].
  destruct (Hspec Hr9) as (ok & -> & Hok). f_equal. apply Hok.
  intros r' c d Hin Hne Hband.
  destruct (row_constraints_in_grid _ _ _ Hin) as [Hr' Hc].
  destruct (Hclues _ _ _ Hin) as (row' & Hrow' & Hd).
  assert (c / 3 < 3) by (apply Nat.Div0.div_lt_upper_bound; lia).
  assert (r / 3 < 3) by (apply Nat.Div0.div_lt_upper_bound; lia).
  set (b := r / 3 * 3 + c / 3).
  assert (b / 3 = r / 3 ∧ b `mod` 3 = c / 3) as [Hb3 Hbm].
  { unfold b. rewrite Nat.add_comm, Nat.div_add, Nat.Div0.mod_add by lia.
    rewrite Nat.div_small, Nat.mod_small by lia. lia. }
  rewrite <-Hbm. apply (box_sections_disjoint g b r' r row'); try done.
  - apply Hboxes. unfold b. lia.
  - lia.
  - apply elem_of_box_section. exists c. split; [done|lia].
Qed.

Lemma valid_grid_eligible_own_row g r r' num :
  valid_grid g → g !! r = Some num → eligible num r' → r' = r.
Proof.
  intros (Hlen & Hall & Hcols & _ & Hclues) Hr [(pos & d & Hin & Hd) _].
  destruct (row_constraints_in_grid _ _ _ Hin) as [Hr' Hpos].
  destruct (Hclues _ _ _ Hin) as (row' & Hrow' & Hd').
  apply (column_distinct_rows g pos r' r row' num d); try done. by apply Hcols.
Qed.

Lemma valid_grid_row_goes_to g r num :
  valid_grid g → g !! r = Some num → goes_to r num.
Proof.
  intros Hvalid Hr. pose proof Hvalid as (Hlen & Hall & _ & _ & Hclues).
  apply lookup_lt_Some in Hr as Hr9. rewrite Hlen in Hr9.
  assert (length num = 9) as Hnum.
  { rewrite Forall_forall in Hall. by eapply Hall, list_elem_of_lookup_2. }
  unfold goes_to. apply find_valid_row_cases; [lia|].
  pose proof (valid_grid_box_check g r num Hvalid Hr) as Hbox.
  destruct (decide (r = 4)) as [->|Hne4].
  - right. split; [done|]. split; [|done]. intros r' Hel.
    pose proof (valid_grid_eligible_own_row g 4 r' num Hvalid Hr Hel) as ->.
    destruct Hel as [(pos & d & Hin & _) _]. apply list_elem_of_In in Hin.
    unfold get_row_constraints in Hin. simpl in Hin.
    repeat (destruct Hin as [Hin|Hin]; [discriminate Hin|]). done.
  - left. split; [|by intros r'; apply (valid_grid_eligible_own_row g)].
    split; [|done].
    assert (∃ pos d, (r, Some (pos, d)) ∈ get_row_constraints)
      as (pos & d & Hin).
    { destruct r as [|[|[|[|[|[|[|[|[|?]]]]]]]]]; try done; try lia.
      all: do 2 eexists.
      - by apply (list_elem_of_lookup_2 _ 0).
      - by apply (list_elem_of_lookup_2 _ 1).
      - by apply (list_elem_of_lookup_2 _ 2).
      - by apply (list_elem_of_lookup_2 _ 3).
      - by apply (list_elem_of_lookup_2 _ 5).
      - by apply (list_elem_of_lookup_2 _ 6).
      - by apply (list_elem_of_lookup_2 _ 7).
      - by apply (list_elem_of_lookup_2 _ 8). }
    exists pos, d. split; [done|].
    destruct (Hclues _ _ _ Hin) as (row & Hrow & Hd). congruence.
Qed.
End valid_rows_eligible.

(** ** The grid assembler: completeness of the search *)

(** When the rows placed so far can be completed to a valid grid made of
    the categorised candidates, [backtrack] finds a grid. *)

Section completeness.
Implicit Types (num : str) (g rest : list str) (row r c b col : nat)
  (cols boxes : list (gset ascii)) (st : search_state)
  (vnr : gmap nat (list str)).

Lemma can_place_complete cols boxes row col num :
  (∀ i d, num !! i = Some d →
     (∃ s, cols !! (col + i) = Some s ∧ d ∉ s) ∧
     (∃ s, boxes !! box_index_of row (col + i) = Some s ∧ d ∉ s)) →
  can_place cols boxes row col num = Ok true.
Proof.
  revert col. induction num as [|digit num IH]; intros col Hfresh; [done|].
  simpl. destruct (Hfresh 0 digit eq_refl) as [(cs & Hcs & Hd) (bs & Hbs & Hd')].
  rewrite Nat.add_0_r in Hcs, Hbs. unfold index. rewrite Hcs. simpl.
  rewrite decide_False by done. rewrite Hbs. simpl.
  rewrite decide_False by done. apply IH. intros i d Hi.
  replace (S col + i) with (col + S i) by lia. by apply Hfresh.
Qed.

Lemma box_digits_prefix g rest b :
  box_digits g b `sublist_of` box_digits (g ++ rest) b.
Proof.
  induction rest as [|x rest IH] using rev_ind.
  - by rewrite (right_id_L [] (++)).
  - rewrite (assoc_L (++)), box_digits_snoc. by apply sublist_inserts_r.
Qed.

Lemma fresh_from_valid vnr st num rest :
  state_inv vnr st → valid_grid (grid st ++ num :: rest) →
  fresh_for (column_sets st) (box_sets st) (length (grid st)) num.
Proof.
  intros (_ & Hcols & Hboxes & _) (Hlen & Hall & Hcnd & Hbnd & _) i d Hi.
  assert (length num = 9) as Hnum.
  { rewrite Forall_forall in Hall. apply Hall. set_solver. }
  apply lookup_lt_Some in Hi as Hi9. rewrite Hnum in Hi9.
  rewrite length_app in Hlen. simpl in Hlen.
  set (L := length (grid st)) in *. split.
  - eexists. split.
    { rewrite Hcols, list_lookup_fmap, lookup_seq_lt by done. done. }
    rewrite elem_of_list_to_set. intros Hd.
    specialize (Hcnd i Hi9). unfold column in Hcnd. rewrite omap_app in Hcnd.
    apply NoDup_app in Hcnd as (_ & Hdisj & _). apply (Hdisj d Hd).
    simpl. rewrite Hi. left.
  - assert (L / 3 < 3) by (apply Nat.Div0.div_lt_upper_bound; lia).
    assert (i / 3 < 3) by (apply Nat.Div0.div_lt_upper_bound; lia).
    set (b := box_index_of L i).
    assert (b < 9 ∧ b / 3 = L / 3 ∧ b `mod` 3 = i / 3) as (Hb & Hb3 & Hbm).
    { unfold b, box_index_of. split_and!; [lia| |].
      - rewrite Nat.div_add_l, (Nat.div_small (i / 3)) by lia. lia.
      - rewrite Nat.add_comm, Nat.Div0.mod_add. by apply Nat.mod_small. }
    eexists. split.
    { rewrite Hboxes, list_lookup_fmap, lookup_seq_lt by done. done. }
    rewrite elem_of_list_to_set. intros Hd.
    assert (NoDup (box_digits (grid st ++ [num]) b)) as Hnodup.
    { eapply sublist_NoDup; [apply (Hbnd b Hb)|].
      replace (grid st ++ num :: rest) with ((grid st ++ [num]) ++ rest)
        by by rewrite <-(assoc_L (++)).
      apply box_digits_prefix. }
    rewrite box_digits_snoc, decide_True in Hnodup by done.
    apply NoDup_app in Hnodup as (_ & Hdisj & _). apply (Hdisj d Hd).
    apply elem_of_box_section. exists i. split; [done|lia].
Qed.

Lemma valid_grid_rows_distinct g r r' num :
  valid_grid g → g !! r = Some num → g !! r' = Some num → r = r'.
Proof.
  intros (Hlen & Hall & Hcnd & _) Hr Hr'.
  assert (length num = 9) as Hnum.
  { rewrite Forall_forall in Hall. by eapply Hall, list_elem_of_lookup_2. }
  destruct (lookup_lt_is_Some_2 num 0) as [d Hd]; [lia|].
  apply (column_distinct_rows g 0 r r' num num d); try done; [lia|].
  apply Hcnd. lia.
Qed.

Lemma committed_inv_used vnr st num :
  state_inv_used vnr st → length (grid st) < 9 →
  num ∈ rows_get vnr (length (grid st)) →
  length num = 9 → NoDup num →
  fresh_for (column_sets st) (box_sets st) (length (grid st)) num →
  state_inv_used vnr (committed num (length (grid st)) st).
Proof.
  intros [Hinv Hused] ?????. split; [by apply committed_inv|].
  simpl. rewrite Hused, list_to_set_app_L. set_solver.
Qed.

Lemma try_candidates_complete vnr recurse candidates st num rest :
  restores recurse → returns_at (S (length (grid st))) recurse →
  state_inv_used vnr st → length (grid st) < 9 →
  valid_grid (grid st ++ num :: rest) →
  num ∈ rows_get vnr (length (grid st)) →
  Forall (λ num, length num = 9 ∧ NoDup num) candidates →
  num ∈ candidates →
  finds recurse (committed num (length (grid st)) st) →
  finds (try_candidates recurse (length (grid st)) candidates) st.
Proof.
  intros Hres Hret [Hinv Hused] Hlt Hvalid Hrow Hall Hin Hfound.
  pose proof (state_inv_wf _ _ Hinv) as Hwf. pose proof Hwf as (_ & Hc & Hb).
  assert (num ∉ used_numbers st) as Hfree.
  { rewrite Hused, elem_of_list_to_set. intros [r Hr]%list_elem_of_lookup.
    apply lookup_lt_Some in Hr as Hlt'.
    assert (r = length (grid st)); [|lia].
    apply (valid_grid_rows_distinct _ r (length (grid st)) num Hvalid).
    - by rewrite lookup_app_l.
    - by rewrite list_lookup_middle. }
  pose proof (fresh_from_valid _ _ _ _ Hinv Hvalid) as Hfresh.
  induction Hall as [|cand candidates [Hnum Hnodup] Hall IH].
  { by apply elem_of_nil in Hin. }
  unfold finds. simpl.
  destruct (decide (cand = num)) as [->|Hne].
  - rewrite decide_False by done.
    rewrite can_place_complete by (intros i d Hi; by apply Hfresh).
    cbn [res_bind]. rewrite commit_nine by done. cbn [res_bind].
    destruct Hfound as (g & st' & calls & ->). cbn [res_bind]. eauto.
  - assert (finds (try_candidates recurse (length (grid st)) candidates) st)
      as (g & st' & calls & Hrest).
    { apply IH. apply elem_of_cons in Hin as [?|?]; [congruence|done]. }
    destruct (decide (cand ∈ used_numbers st)); [eauto|].
    destruct (can_place_ok (column_sets st) (box_sets st) (length (grid st)) 0 cand)
      as [[|] Hplace]; [done|done|done|simpl; lia| |]; rewrite Hplace;
      cbn [res_bind]; [|eauto].
    rewrite commit_nine by done. cbn [res_bind].
    destruct (Hret (committed cand (length (grid st)) st))
      as [[[[g1|] st2] k] Hcall].
    { by apply committed_wf. }
    { simpl. rewrite length_app. simpl. lia. }
    + rewrite Hcall. cbn [res_bind]. eauto.
    + rewrite Hcall. cbn [res_bind].
      apply Hres in Hcall as ->; [|by apply committed_wf].
      rewrite undo_committed; [|done..|].
      2:{ intros i d Hi. by apply (can_place_true _ _ _ 0 cand). }
      cbn [res_bind]. rewrite Hrest. cbn [res_bind]. eauto.
Qed.

Lemma backtrack_complete fuel vnr st rest :
  candidates_ok vnr → state_inv_used vnr st →
  valid_grid (grid st ++ rest) →
  (∀ r num, (grid st ++ rest) !! r = Some num → num ∈ rows_get vnr r) →
  9 ≤ length (grid st) + fuel →
  finds (backtrack fuel vnr) st.
Proof.
  intros Hok. revert st rest.
  induction fuel as [|fuel IH]; intros st rest Hinv Hvalid Hrows Hfuel.
  - unfold finds. simpl. destruct Hinv as [(Hle & _) _].
    rewrite decide_True by lia. eauto.
  - unfold finds. simpl. destruct (decide (length (grid st) = 9)); [eauto|].
    pose proof Hvalid as (Hlen & _). rewrite length_app in Hlen.
    destruct rest as [|num rest]; [simpl in Hlen; lia|]. simpl in Hlen.
    assert (num ∈ rows_get vnr (length (grid st))) as Hnum.
    { apply Hrows. by rewrite list_lookup_middle. }
    destruct (candidates_ok_lookup _ _ _ Hok Hnum) as [Hnine Hnodup].
    destruct (try_candidates_complete vnr (backtrack fuel vnr)
                (rows_get vnr (length (grid st))) st num rest)
      as (g & st' & calls & ->); try done.
    + by apply backtrack_restores.
    + intros st1 Hwf1 Hlen1. apply backtrack_ok; [done..|lia].
    + lia.
    + apply Forall_forall. intros cand Hcand. by eapply candidates_ok_lookup.
    + apply (IH _ rest).
      * apply committed_inv_used; try done; [lia|].
        destruct Hinv as [Hinv _]. by eapply fresh_from_valid.
      * simpl. by rewrite <-(assoc_L (++)).
      * simpl. by rewrite <-(assoc_L (++)).
      * simpl. rewrite length_app. simpl. lia.
    + cbn [res_bind]. eauto.
Qed.
End completeness.

(** ** The grid assembler: what is found, and when *)

Section assembler_correct.
Implicit Types (num : str) (numbers : list str) (g : list str) (alphabet : str)
  (vnr : gmap nat (list str)).

Lemma permutations_nine numbers alphabet :
  NoDup alphabet → length alphabet = 9 →
  Forall (λ num, num ≡ₚ alphabet) numbers →
  Forall (λ num : str, length num = 9 ∧ NoDup num) numbers.
Proof.
  intros Hnodup Hlen Hperm. eapply Forall_impl; [exact Hperm|].
  intros num Hnum. simpl. by rewrite Hnum.
Qed.

Lemma categorize_candidates_ok numbers vnr :
  Forall (λ num : str, length num = 9 ∧ NoDup num) numbers →
  categorize_numbers_by_row numbers = Ok vnr → candidates_ok vnr.
Proof.
  intros Hnine Hcat r l Hl. simpl. apply Forall_forall. intros num Hin.
  assert (num ∈ rows_get vnr r) as Hrow by (unfold rows_get; by rewrite Hl).
  destruct (categorize_spec _ _ Hcat r num Hrow) as [Hnum _].
  rewrite Forall_forall in Hnine. by apply Hnine.
Qed.

(** What [try_build_sudoku_grid] does on candidates of 9 distinct
    characters: it returns, and a grid it returns is valid and made of
    candidates. *)
Lemma try_build_found_valid numbers :
  Forall (λ num : str, length num = 9 ∧ NoDup num) numbers →
  (∃ out, try_build_sudoku_grid numbers = Ok out) ∧
  ∀ g, try_build_sudoku_grid numbers = Ok (Some g) →
       valid_grid g ∧ (∀ r row, g !! r = Some row → goes_to r row ∧ row ∈ numbers).
Proof.
  intros Hnine.
  assert (Forall (λ num : str, length num = 9) numbers) as Hnine'.
  { eapply Forall_impl; [exact Hnine|]. by intros ? [??]. }
  unfold try_build_sudoku_grid, try_build_sudoku_grid_calls.
  destruct (categorize_from_ok numbers ∅ Hnine') as [vnr Hcat].
  fold (categorize_numbers_by_row numbers) in Hcat. rewrite Hcat.
  cbn [res_bind].
  pose proof (categorize_candidates_ok _ _ Hnine Hcat) as Hok.
  destruct (decide _) as [Hempty|Hfull]; [split; [eauto|done]|].
  destruct (backtrack_ok 9 vnr initial_state Hok) as [[[out st'] calls] Hrun].
  { unfold state_wf, initial_state. simpl. lia. }
  { simpl. lia. }
  rewrite Hrun. cbn [res_bind]. split; [eauto|].
  intros g [= ->].
  destruct (backtrack_finds_valid 9 vnr Hok _ _ _ _ (state_inv_initial vnr) Hrun)
    as ((_ & _ & _ & Hcnd & Hbnd & Hrows) & -> & Hg).
  assert (∀ r row, grid st' !! r = Some row → goes_to r row ∧ row ∈ numbers)
    as Hrow.
  { intros r row Hr. apply and_comm. by apply (categorize_spec _ _ Hcat), Hrows. }
  split; [|done].
  assert (Forall (λ row : str, length row = 9) (grid st')) as Hall.
  { apply Forall_forall. intros row [r Hr]%list_elem_of_lookup.
    destruct (Hrow r row Hr) as [_ Hin]. rewrite Forall_forall in Hnine'.
    by apply Hnine'. }
  split_and!; [done..|].
  intros r pos digit Hclue.
  destruct (row_constraints_in_grid _ _ _ Hclue) as [Hr _].
  destruct (lookup_lt_is_Some_2 (grid st') r) as [row Hrow']; [lia|].
  exists row. split; [done|].
  destruct (Hrow r row Hrow') as [Hfind _].
  by apply (find_valid_row_clue _ _ Hfind).
Qed.

Lemma try_build_finds_some numbers g :
  Forall (λ num : str, length num = 9 ∧ NoDup num) numbers →
  valid_grid g → (∀ row, row ∈ g → row ∈ numbers) →
  ∃ g', try_build_sudoku_grid numbers = Ok (Some g').
Proof.
  intros Hnine Hvalid Hrows.
  assert (Forall (λ num : str, 9 ≤ length num) numbers) as Hlong.
  { eapply Forall_impl; [exact Hnine|]. intros ? [??]. simpl. lia. }
  destruct (categorize_rows numbers) as [_ Hcat].
  destruct (Hcat Hlong) as (vnr & Hvnr & Hfilter & _).
  pose proof (categorize_candidates_ok _ _ Hnine Hvnr) as Hok.
  assert (∀ r num, g !! r = Some num → num ∈ rows_get vnr r) as Hin.
  { intros r num Hr. rewrite Hfilter. apply list_elem_of_filter. split.
    - by apply (valid_grid_row_goes_to g).
    - by eapply Hrows, list_elem_of_lookup_2. }
  unfold try_build_sudoku_grid, try_build_sudoku_grid_calls.
  rewrite Hvnr. cbn [res_bind].
  rewrite decide_False.
  2:{ intros (i & Hi%elem_of_seq & Hempty)%Exists_exists.
      destruct Hvalid as (Hlen & _).
      destruct (lookup_lt_is_Some_2 g i) as [num Hnum]; [lia|].
      apply Hin in Hnum. rewrite Hempty in Hnum. by apply elem_of_nil in Hnum. }
  destruct (backtrack_complete 9 vnr initial_state g) as (g' & st' & calls & ->);
    [done| |done|done| |].
  - split; [apply state_inv_initial|done].
  - unfold initial_state. simpl. lia.
  - cbn [res_bind]. eauto.
Qed.
End assembler_correct.

(** X18. The search is complete: when the candidates are permutations of one
    9-character alphabet and some valid grid (nine rows, no column and no
    box with a repeated character, every clue in place) can be made of them,
    [try_build_sudoku_grid] returns a grid. *)
Theorem try_build_sudoku_grid_complete (numbers : list str) (alphabet : str)
    (g : list str) :
  NoDup alphabet → length alphabet = 9 →
  Forall (λ num, num ≡ₚ alphabet) numbers →
  valid_grid g → (∀ row, row ∈ g → row ∈ numbers) →
  ∃ g', try_build_sudoku_grid numbers = Ok (Some g').
Proof.
  intros Hnodup Hlen Hperm. apply try_build_finds_some.
  by eapply permutations_nine.
Qed.

Lemma try_build_sudoku_grid_complete_witness :
  ∃ g', try_build_sudoku_grid (grid_two ++ grid_one) = Ok (Some g').
Proof.
  apply (try_build_sudoku_grid_complete (grid_two ++ grid_one)
           alphabet_without_1 grid_one).
  - compute_done.
  - reflexivity.
  - compute_done.
  - unfold valid_grid. split_and!.
    + reflexivity.
    + compute_done.
    + intros c Hc. do 9 (destruct c as [|c]; [compute_done|]). lia.
    + intros b Hb. do 9 (destruct b as [|b]; [compute_done|]). lia.
    + intros r pos d Hin. apply list_elem_of_In in Hin.
      unfold get_row_constraints in Hin. simpl in Hin.
      repeat (destruct Hin as [Hin|Hin];
              [try discriminate Hin; injection Hin as <- <- <-;
               eexists; split; reflexivity|]).
      done.
  - intros row Hrow. apply elem_of_app. by right.
Defined.

(** X19. When the candidates are permutations of one 9-character alphabet,
    the rows of a returned grid are pairwise different, and row [r] of it is
    a candidate that [find_valid_row_for_number] sends to row [r]. *)
Theorem try_build_sudoku_grid_rows_distinct (numbers : list str) (alphabet : str)
    (g : list str) :
  NoDup alphabet → length alphabet = 9 →
  Forall (λ num, num ≡ₚ alphabet) numbers →
  try_build_sudoku_grid numbers = Ok (Some g) →
  NoDup g ∧ ∀ r row, g !! r = Some row → goes_to r row.
Proof.
  intros Hnodup Hlen Hperm Hrun.
  destruct (try_build_found_valid numbers) as [_ Hfound];
    [by eapply permutations_nine|].
  destruct (Hfound g Hrun) as [Hvalid Hrows]. split.
  - apply NoDup_alt. intros i j row Hi Hj.
    by apply (valid_grid_rows_distinct g i j row).
  - intros r row Hr. by apply Hrows.
Qed.

Lemma try_build_sudoku_grid_rows_distinct_witness :
  NoDup grid_one ∧ ∀ r row, grid_one !! r = Some row → goes_to r row.
Proof.
  apply (try_build_sudoku_grid_rows_distinct (grid_one ++ grid_two)
           alphabet_without_1 grid_one).
  - compute_done.
  - reflexivity.
  - compute_done.
  - vm_compute. reflexivity.
Defined.

(** X20. When the candidates are permutations of one 9-character alphabet,
    whether [try_build_sudoku_grid] finds a grid does not depend on their
    order; which grid it finds may. *)
Theorem try_build_sudoku_grid_order_independent
    (numbers numbers' : list str) (alphabet : str) :
  NoDup alphabet → length alphabet = 9 →
  Forall (λ num, num ≡ₚ alphabet) numbers →
  numbers ≡ₚ numbers' →
  (try_build_sudoku_grid numbers = Ok None ↔
   try_build_sudoku_grid numbers' = Ok None) ∧
  ((∃ g, try_build_sudoku_grid numbers = Ok (Some g)) ↔
   (∃ g', try_build_sudoku_grid numbers' = Ok (Some g'))).
Proof.
  intros Hnodup Hlen Hperm Hsame.
  assert (Forall (λ num, num ≡ₚ alphabet) numbers') as Hperm'
    by by rewrite <-Hsame.
  pose proof (permutations_nine _ _ Hnodup Hlen Hperm) as Hnine.
  pose proof (permutations_nine _ _ Hnodup Hlen Hperm') as Hnine'.
  destruct (try_build_found_valid numbers Hnine) as [[out Hout] Hfound].
  destruct (try_build_found_valid numbers' Hnine') as [[out' Hout'] Hfound'].
  assert ((∃ g, try_build_sudoku_grid numbers = Ok (Some g)) ↔
          (∃ g', try_build_sudoku_grid numbers' = Ok (Some g'))) as Hiff.
  { split.
    - intros [g Hg]. destruct (Hfound g Hg) as [Hvalid Hrows].
      apply (try_build_finds_some numbers' g); [done..|].
      intros row [r Hr]%list_elem_of_lookup. rewrite <-Hsame.
      by apply (Hrows r).
    - intros [g Hg]. destruct (Hfound' g Hg) as [Hvalid Hrows].
      apply (try_build_finds_some numbers g); [done..|].
      intros row [r Hr]%list_elem_of_lookup. rewrite Hsame.
      by apply (Hrows r). }
  split; [|done]. rewrite Hout, Hout' in *.
  destruct out, out'; split; try done; intros _; exfalso.
  - destruct (proj1 Hiff) as [? [=]]; eauto.
  - destruct (proj2 Hiff) as [? [=]]; eauto.
Qed.

Lemma try_build_sudoku_grid_order_independent_witness :
  (try_build_sudoku_grid (grid_one ++ grid_two) = Ok None ↔
   try_build_sudoku_grid (grid_two ++ grid_one) = Ok None) ∧
  ((∃ g, try_build_sudoku_grid (grid_one ++ grid_two) = Ok (Some g)) ↔
   (∃ g', try_build_sudoku_grid (grid_two ++ grid_one) = Ok (Some g'))).
Proof.
  apply (try_build_sudoku_grid_order_independent (grid_one ++ grid_two)
           (grid_two ++ grid_one) alphabet_without_1).
  - compute_done.
  - reflexivity.
  - compute_done.
  - apply Permutation_app_comm.
Defined.

#[local] Open Scope Z_scope.

(** ** The divisor pipeline from end to end *)

Section pipeline.
Implicit Types (n d c : Z) (numbers : list Z) (symbols : gset ascii)
  (alphabet : str).

Lemma coverage_complete (l : list str) symbols pd :
  check_digit_positions l symbols = Ok pd →
  forallb (λ digits : gset ascii, bool_decide (size digits = size symbols)) pd
    = true ↔ covers l symbols.
Proof.
  intros Hrun.
  destruct (check_digit_positions_cases l symbols) as (_ & _ & Hok).
  destruct (Hok pd Hrun) as [Hlen Hpd].
  rewrite <-Is_true_true, forallb_True, Forall_lookup. split.
  - intros Hall pos ch Hpos Hch.
    destruct (lookup_lt_is_Some_2 pd pos) as [digits Hdigits]; [lia|].
    specialize (Hall pos digits Hdigits). apply bool_decide_unpack in Hall.
    assert (digits = symbols) as Heq.
    { apply set_subseteq_size_eq; [|lia].
      intros x Hx. by apply (Hpd pos digits Hdigits) in Hx as [? _]. }
    rewrite <-Heq in Hch. by apply (Hpd pos digits Hdigits) in Hch as [_ ?].
  - intros Hcov pos digits Hdigits. apply bool_decide_pack.
    apply lookup_lt_Some in Hdigits as Hpos.
    f_equal. apply set_eq. intros ch. rewrite (Hpd pos digits Hdigits).
    split; [by intros [? _]|]. intros Hch. split; [done|].
    apply Hcov; [lia|done].
Qed.

Lemma covers_perm (l l' : list str) symbols :
  l ≡ₚ l' → covers l symbols → covers l' symbols.
Proof.
  intros Hperm Hcov pos ch Hpos Hch.
  destruct (Hcov pos ch Hpos Hch) as (num & Hin & Hnum).
  exists num. by rewrite <-Hperm.
Qed.

Lemma buildable_perm (l l' : list str) : l ≡ₚ l' → buildable l → buildable l'.
Proof.
  intros Hperm (g & Hvalid & Hrows). exists g. split; [done|].
  intros row Hrow. rewrite <-Hperm. by apply Hrows.
Qed.

Lemma multiples_of_perm d numbers numbers' :
  numbers ≡ₚ numbers' → multiples_of d numbers ≡ₚ multiples_of d numbers'.
Proof. intros Hperm. unfold multiples_of. by rewrite Hperm. Qed.

Lemma succeeds_perm d numbers numbers' symbols :
  numbers ≡ₚ numbers' → succeeds d numbers symbols → succeeds d numbers' symbols.
Proof.
  intros Hperm [Hcov Hbuild]. apply (multiples_of_perm d) in Hperm. split.
  - by eapply covers_perm.
  - by eapply buildable_perm.
Qed.

Lemma multiples_of_nine d numbers alphabet :
  NoDup alphabet → length alphabet = 9%nat →
  Forall (λ n, format_09 n ≡ₚ alphabet) numbers →
  Forall (λ num : str, length num = 9%nat ∧ NoDup num) (multiples_of d numbers).
Proof.
  intros Hnodup Hlen Hall. apply (permutations_nine _ alphabet); [done..|].
  unfold multiples_of. apply Forall_fmap.
  apply Forall_forall. intros n [_ Hn]%list_elem_of_filter.
  rewrite Forall_forall in Hall. by apply Hall.
Qed.

Lemma analyze_divisor_cases d c numbers symbols alphabet :
  d ≠ 0 → NoDup alphabet → length alphabet = 9%nat →
  Forall (λ n, format_09 n ≡ₚ alphabet) numbers →
  ∃ found, analyze_divisor d c numbers symbols = Ok found ∧
    (found = true ↔ succeeds d numbers symbols).
Proof.
  intros Hd Hnodup Hlen Hall. unfold analyze_divisor.
  rewrite (find_numbers_with_divisor_filter numbers d Hd).
  fold (multiples_of d numbers). cbn [res_bind].
  pose proof (multiples_of_nine d numbers alphabet Hnodup Hlen Hall) as Hnine.
  destruct (check_digit_positions_cases (multiples_of d numbers) symbols)
    as (Hraise & Honly & _).
  destruct (check_digit_positions (multiples_of d numbers) symbols)
    as [pd|e] eqn:Hcheck; cycle 1.
  { exfalso. rewrite (Honly e eq_refl) in Hraise.
    apply proj1 in Hraise. specialize (Hraise eq_refl).
    apply Exists_exists in Hraise as (num & Hin & i & ch & Hi & _ & Hle).
    rewrite Forall_forall in Hnine. destruct (Hnine num Hin) as [Hl _].
    apply lookup_lt_Some in Hi. lia. }
  cbn [res_bind]. pose proof (coverage_complete _ _ _ Hcheck) as Hcov.
  destruct (forallb _ pd).
  - destruct (try_build_found_valid _ Hnine) as [[out Hout] Hfound].
    rewrite Hout. cbn [res_bind]. eexists. split; [done|].
    unfold succeeds. destruct out as [g|].
    + split; [intros _|done]. split; [by apply Hcov|].
      destruct (Hfound g Hout) as [Hvalid Hrows]. exists g. split; [done|].
      intros row [r Hr]%list_elem_of_lookup. by apply (Hrows r).
    + split; [done|]. intros [_ (g & Hvalid & Hrows)]. exfalso.
      destruct (try_build_finds_some _ g Hnine Hvalid Hrows) as [g' Hg'].
      congruence.
  - exists false. split; [done|]. split; [done|]. intros [Hc _].
    by apply Hcov in Hc.
Qed.

Lemma analyze_divisor_perm d c c' numbers numbers' symbols alphabet :
  NoDup alphabet → length alphabet = 9%nat →
  Forall (λ n, format_09 n ≡ₚ alphabet) numbers →
  numbers ≡ₚ numbers' →
  analyze_divisor d c numbers symbols = analyze_divisor d c' numbers' symbols.
Proof.
  intros Hnodup Hlen Hall Hperm.
  assert (Forall (λ n, format_09 n ≡ₚ alphabet) numbers') as Hall'
    by by rewrite <-Hperm.
  destruct (decide (d = 0)) as [->|Hd].
  - unfold analyze_divisor. destruct numbers as [|n numbers].
    + by apply Permutation_nil_l in Hperm as ->.
    + destruct numbers' as [|n' numbers']; [|done].
      by apply Permutation_nil_r in Hperm.
  - destruct (analyze_divisor_cases d c numbers symbols alphabet)
      as (b & -> & Hb); [done..|].
    destruct (analyze_divisor_cases d c' numbers' symbols alphabet)
      as (b' & -> & Hb'); [done..|].
    f_equal. apply eq_bool_prop_intro. rewrite !Is_true_true, Hb, Hb'.
    split; by apply succeeds_perm.
Qed.

Lemma divisor_loop_perm items numbers numbers' symbols alphabet :
  NoDup alphabet → length alphabet = 9%nat →
  Forall (λ n, format_09 n ≡ₚ alphabet) numbers →
  numbers ≡ₚ numbers' →
  divisor_loop items numbers symbols = divisor_loop items numbers' symbols.
Proof.
  intros Hnodup Hlen Hall Hperm.
  induction items as [|[d c] items IH]; [done|]. simpl.
  rewrite IH.
  by rewrite (analyze_divisor_perm d c c numbers numbers' symbols alphabet).
Qed.
End pipeline.





Lemma main_from_perm (numbers numbers' : list Z)
    (symbols : gset ascii) (alphabet : str) :
  NoDup alphabet → length alphabet = 9%nat →
  Forall (λ n, format_09 n ≡ₚ alphabet) numbers →
  numbers ≡ₚ numbers' →
  main_from numbers symbols = main_from numbers' symbols.
Proof.
  intros Hnodup Hlen Hall Hperm. unfold main_from.
  rewrite (build_divisor_counts_perm numbers numbers' Hperm).
  destruct (build_divisor_counts numbers'); [|done]. cbn [res_bind].
  f_equal. by apply (divisor_loop_perm _ _ _ _ alphabet).
Qed.

(** X23. For candidates whose strings are permutations of one 9-character
    alphabet, [main] from the candidate list on analyses the same divisors
    in the same order and ends in the same way for every order of the
    candidates. *)
Theorem main_from_order_independent (numbers numbers' : list Z)
    (symbols : gset ascii) (alphabet : str) :
  NoDup alphabet → length alphabet = 9%nat →
  Forall (λ n, format_09 n ≡ₚ alphabet) numbers →
  numbers ≡ₚ numbers' →
  main_from numbers symbols = main_from numbers' symbols.
Proof. apply main_from_perm. Qed.

Lemma main_from_order_independent_witness :
  main_from candidates_one_two (list_to_set alphabet_without_1) =
  main_from (reverse candidates_one_two) (list_to_set alphabet_without_1).
Proof.
  apply (main_from_order_independent candidates_one_two
           (reverse candidates_one_two) (list_to_set alphabet_without_1)
           alphabet_without_1).
  - compute_done.
  - reflexivity.
  - compute_done.
  - compute_done.
Defined.

Section main_loop.
Implicit Types (n d c : Z) (numbers : list Z) (symbols : gset ascii)
  (alphabet : str) (items : list (Z * Z)).

Lemma divisor_loop_outcome items numbers symbols alphabet :
  NoDup alphabet → length alphabet = 9%nat →
  Forall (λ n, format_09 n ≡ₚ alphabet) numbers →
  StronglySorted key_gt items →
  (∀ d c, (d, c) ∈ items → d ≠ 0) →
  ∃ analysed found,
    divisor_loop items numbers symbols = (analysed, Ok found) ∧
    StronglySorted Z.gt analysed ∧
    (∀ d, d ∈ analysed ↔
       ∃ c, (d, c) ∈ items ∧ 9 ≤ c ∧
         ∀ d' c', (d', c') ∈ items → 9 ≤ c' → d < d' →
                  ¬ succeeds d' numbers symbols) ∧
    (found = true ↔
       ∃ d c, (d, c) ∈ items ∧ 9 ≤ c ∧ succeeds d numbers symbols) ∧
    (found = true →
       ∃ d, last analysed = Some d ∧ succeeds d numbers symbols).
Proof.
  intros Hnodup Hlen Hall Hsorted.
  induction Hsorted as [|[d0 c0] items Hsorted IH Hbelow]; intros Hnz.
  { exists [], false. split_and!; [done|constructor| | |done].
    - intros d. rewrite elem_of_nil. split; [done|].
      by intros (c & ?%elem_of_nil & _).
    - split; [done|]. by intros (d & c & ?%elem_of_nil & _). }
  rewrite Forall_forall in Hbelow.
  assert (∀ d c, (d, c) ∈ items → d < d0) as Hlt.
  { intros d c Hin. apply (Hbelow _ Hin). }
  destruct IH as (analysed & found & Hrun & Hdesc & Hmem & Hfound & Hlast).
  { intros d c Hin. apply (Hnz d c). by right. }
  simpl. rewrite Hrun.
  destruct (decide (9 ≤ c0)) as [Hc0|Hc0]; cycle 1.
  { exists analysed, found. split_and!; [done..| | |done].
    - intros d. rewrite Hmem. split.
      + intros (c & Hin & Hc & Hfail). exists c. split_and!; [by right|done|].
        intros d' c' [[= -> ->]|Hin']%elem_of_cons Hc' Hd'; [lia|].
        by apply (Hfail d' c').
      + intros (c & [[= -> ->]|Hin]%elem_of_cons & Hc & Hfail); [lia|].
        exists c. split_and!; [done..|]. intros d' c' Hin'.
        apply Hfail. by right.
    - rewrite Hfound. split.
      + intros (d & c & Hin & ?). exists d, c. split; [by right|done].
      + intros (d & c & [[= -> ->]|Hin]%elem_of_cons & Hc & ?); [lia|].
        by exists d, c. }
  destruct (analyze_divisor_cases d0 c0 numbers symbols alphabet)
    as (b & -> & Hb); [by apply (Hnz d0 c0); left|done..|].
  destruct b.
  - exists [d0], true. apply proj1 in Hb. specialize (Hb eq_refl).
    split_and!; [done|repeat constructor| | |].
    + intros d. rewrite list_elem_of_singleton. split.
      * intros ->. exists c0. split_and!; [by left|done|].
        intros d' c' [[= -> ->]|Hin']%elem_of_cons _ Hd'; [lia|].
        specialize (Hlt d' c' Hin'). lia.
      * intros (c & [[= -> ->]|Hin]%elem_of_cons & Hc & Hfail); [done|].
        destruct (Hfail d0 c0); [by left|done|by eapply Hlt|done].
    + split; [intros _|done]. exists d0, c0. split; [by left|done].
    + intros _. by exists d0.
  - assert (¬ succeeds d0 numbers symbols) as Hfail0.
    { intros Hs. by apply Hb in Hs. }
    exists (d0 :: analysed), found. split_and!; [done| | | |].
    + constructor; [done|]. apply Forall_forall. intros d Hd.
      apply Hmem in Hd as (c & Hin & _). specialize (Hlt d c Hin). lia.
    + intros d. rewrite elem_of_cons, Hmem. split.
      * intros [->|(c & Hin & Hc & Hfail)].
        -- exists c0. split_and!; [by left|done|].
           intros d' c' [[= -> ->]|Hin']%elem_of_cons _ Hd'; [lia|].
           specialize (Hlt d' c' Hin'). lia.
        -- exists c. split_and!; [by right|done|].
           intros d' c' [[= -> ->]|Hin']%elem_of_cons Hc' Hd'; [done|].
           by apply (Hfail d' c').
      * intros (c & [[= -> ->]|Hin]%elem_of_cons & Hc & Hfail); [by left|].
        right. exists c. split_and!; [done..|]. intros d' c' Hin'.
        apply Hfail. by right.
    + rewrite Hfound. split.
      * intros (d & c & Hin & ?). exists d, c. split; [by right|done].
      * intros (d & c & [[= -> ->]|Hin]%elem_of_cons & Hc & ?); [done|].
        by exists d, c.
    + intros Hf. destruct (Hlast Hf) as (d & Hd & Hs). exists d. split; [|done].
      destruct analysed; [done|]. done.
Qed.

Lemma format_09_zero : format_09 0 = replicate 9 "0"%char.
Proof. reflexivity. Qed.

Lemma candidates_positive numbers alphabet :
  NoDup alphabet →
  Forall (λ n, 0 ≤ n ∧ format_09 n ≡ₚ alphabet) numbers →
  Forall (λ n, 0 < n) numbers.
Proof.
  intros Hnodup Hall. eapply Forall_impl; [exact Hall|].
  intros n [Hn Hperm]. simpl. destruct (decide (n = 0)) as [->|]; [|lia].
  exfalso. rewrite <-Hperm, format_09_zero in Hnodup.
  apply NoDup_cons in Hnodup as [Hnotin _]. apply Hnotin. by left.
Qed.
End main_loop.

Lemma main_from_outcome (numbers : list Z) (symbols : gset ascii)
    (alphabet : str) :
  NoDup alphabet → length alphabet = 9%nat →
  Forall (λ n, 0 ≤ n ∧ format_09 n ≡ₚ alphabet) numbers →
  ∃ analysed found,
    main_from numbers symbols = Ok (analysed, Ok found) ∧
    StronglySorted Z.gt analysed ∧
    (∀ d, d ∈ analysed ↔
       0 < d ∧ 9 ≤ multiples d numbers ∧
       ∀ d', d < d' → 9 ≤ multiples d' numbers →
             ¬ succeeds d' numbers symbols) ∧
    (found = true ↔
       ∃ d, 0 < d ∧ 9 ≤ multiples d numbers ∧ succeeds d numbers symbols) ∧
    (found = true →
       ∃ d, last analysed = Some d ∧ succeeds d numbers symbols).
Proof.
  intros Hnodup Hlen Hall.
  pose proof (candidates_positive _ _ Hnodup Hall) as Hpos.
  assert (Forall (λ n, format_09 n ≡ₚ alphabet) numbers) as Hperm.
  { eapply Forall_impl; [exact Hall|]. by intros n [_ ?]. }
  unfold main_from, build_divisor_counts.
  destruct (build_from_lookup numbers ∅ Hpos) as (m & -> & Hm).
  cbn [res_bind].
  destruct (sorted_items_desc_spec m) as [Hsorted Hitems].
  assert (∀ d c, (d, c) ∈ sorted_items_desc m ↔
                 0 < d ∧ 0 < c ∧ c = multiples d numbers) as Hkey.
  { intros d c. rewrite Hitems, Hm. unfold count_at. rewrite lookup_empty.
    simpl. destruct (decide _) as [[??]|Hno].
    - split; [intros [= <-]; split_and!; [done|lia|lia]|].
      intros (_ & _ & ->). done.
    - split; [done|]. intros (? & ? & ->). destruct Hno. done. }
  destruct (divisor_loop_outcome (sorted_items_desc m) numbers symbols alphabet)
    as (analysed & found & Hrun & Hdesc & Hmem & Hfound & Hlast); [done..| |].
  { intros d c Hin%Hkey. lia. }
  exists analysed, found. rewrite Hrun. split_and!; [done..| | |done].
  - intros d. rewrite Hmem. split.
    + intros (c & (Hd & Hc & ->)%Hkey & Hnine & Hfail). split_and!; [done..|].
      intros d' Hd' Hnine'. apply (Hfail d' (multiples d' numbers)); [|done..].
      apply Hkey. split_and!; [lia|lia|done].
    + intros (Hd & Hnine & Hfail). exists (multiples d numbers).
      split_and!; [apply Hkey; split_and!; [done|lia|done]|done|].
      intros d' c' (Hd' & Hc' & ->)%Hkey Hnine' Hlt. by apply Hfail.
  - rewrite Hfound. split.
    + intros (d & c & (Hd & Hc & ->)%Hkey & Hnine & Hs). by exists d.
    + intros (d & Hd & Hnine & Hs). exists d, (multiples d numbers).
      split_and!; [apply Hkey; split_and!; [done|lia|done]|done..].
Qed.

(** X24. On non-negative candidates whose strings are permutations of one
    9-character alphabet, [main] raises nothing from the candidate list on.
    The divisors it analyses are, in descending order, exactly the positive
    divisors with at least 9 multiples above which no such divisor succeeds;
    it ends with a grid found exactly when some divisor with at least 9
    multiples succeeds, and then the last divisor analysed is one that
    succeeds. *)
Theorem main_from_spec (numbers : list Z) (symbols : gset ascii)
    (alphabet : str) :
  NoDup alphabet → length alphabet = 9%nat →
  Forall (λ n, 0 ≤ n ∧ format_09 n ≡ₚ alphabet) numbers →
  ∃ analysed found,
    main_from numbers symbols = Ok (analysed, Ok found) ∧
    StronglySorted Z.gt analysed ∧
    (∀ d, d ∈ analysed ↔
       0 < d ∧ 9 ≤ multiples d numbers ∧
       ∀ d', d < d' → 9 ≤ multiples d' numbers →
             ¬ succeeds d' numbers symbols) ∧
    (found = true ↔
       ∃ d, 0 < d ∧ 9 ≤ multiples d numbers ∧ succeeds d numbers symbols) ∧
    (found = true →
       ∃ d, last analysed = Some d ∧ succeeds d numbers symbols).
Proof. apply main_from_outcome. Qed.

Lemma main_from_spec_witness :
  ∃ analysed found,
    main_from candidates_one_two (list_to_set alphabet_without_1)
      = Ok (analysed, Ok found) ∧
    StronglySorted Z.gt analysed ∧
    (∀ d, d ∈ analysed ↔
       0 < d ∧ 9 ≤ multiples d candidates_one_two ∧
       ∀ d', d < d' → 9 ≤ multiples d' candidates_one_two →
             ¬ succeeds d' candidates_one_two (list_to_set alphabet_without_1)) ∧
    (found = true ↔
       ∃ d, 0 < d ∧ 9 ≤ multiples d candidates_one_two ∧
            succeeds d candidates_one_two (list_to_set alphabet_without_1)) ∧
    (found = true →
       ∃ d, last analysed = Some d ∧
            succeeds d candidates_one_two (list_to_set alphabet_without_1)).
Proof.
  apply (main_from_spec candidates_one_two (list_to_set alphabet_without_1)
           alphabet_without_1).
  - compute_done.
  - reflexivity.
  - compute_done.
Defined.

#[local] Close Scope Z_scope.

(** ** Symbol and candidate generation *)

Section generation.
Context {A : Type}.
Implicit Types (x : A) (pool rest p : list A) (r : nat).

Lemma elem_of_picks pool x rest :
  (x, rest) ∈ picks pool ↔ ∃ l1 l2, pool = l1 ++ x :: l2 ∧ rest = l1 ++ l2.
Proof.
  revert rest. induction pool as [|y pool IH]; intros rest; simpl.
  { rewrite elem_of_nil. split; [done|]. by intros ([|??] & ? & ? & _). }
  rewrite elem_of_cons, list_elem_of_fmap. split.
  - intros [[= -> ->]|([x' rest'] & [= -> ->] & Hin)].
    + by exists [], pool.
    + apply IH in Hin as (l1 & l2 & -> & ->). by exists (y :: l1), l2.
  - intros ([|y' l1] & l2 & Hpool & ->); simplify_eq/=; [by left|].
    right. exists (x, l1 ++ l2). split; [done|]. apply IH. eauto.
Qed.

Lemma length_picks pool : length (picks pool) = length pool.
Proof. induction pool; simpl; [done|]. by rewrite length_fmap, IHpool. Qed.

Lemma picks_rest_length pool x rest :
  (x, rest) ∈ picks pool → S (length rest) = length pool.
Proof.
  intros (l1 & l2 & -> & ->)%elem_of_picks. rewrite !length_app. simpl. lia.
Qed.

Lemma elem_of_itertools_permutations r pool p :
  NoDup pool →
  p ∈ itertools_permutations r pool ↔
  length p = r ∧ NoDup p ∧ ∀ x, x ∈ p → x ∈ pool.
Proof.
  revert pool p. induction r as [|r IH]; intros pool p Hnodup; simpl.
  { rewrite list_elem_of_singleton. split.
    - intros ->. split_and!; [done|constructor|]. by intros ? ?%elem_of_nil.
    - intros [Hlen _]. by destruct p. }
  rewrite list_elem_of_bind. split.
  - intros ([x rest] & Hp & Hpick). simpl in Hp.
    apply list_elem_of_fmap in Hp as (p' & -> & Hp').
    apply elem_of_picks in Hpick as (l1 & l2 & -> & ->).
    apply NoDup_app in Hnodup as (Hl1 & Hdisj & [Hx Hl2]%NoDup_cons).
    apply IH in Hp' as (Hlen & Hnodup' & Hsub).
    2:{ apply NoDup_app. split_and!; [done| |done].
        intros y Hy Hy'. apply (Hdisj y Hy). by right. }
    split_and!; [by rewrite <-Hlen| |].
    + apply NoDup_cons. split; [|done]. intros [Hin|Hin]%Hsub%elem_of_app.
      * apply (Hdisj x Hin). by left.
      * done.
    + intros y [->|Hy]%elem_of_cons; [set_solver|].
      apply Hsub in Hy. set_solver.
  - intros (Hlen & Hnodup' & Hsub). destruct p as [|x p']; [done|].
    apply NoDup_cons in Hnodup' as [Hx Hp'].
    destruct (list_elem_of_split pool x) as (l1 & l2 & ->);
      [apply Hsub; by left|].
    exists (x, l1 ++ l2). split; [|apply elem_of_picks; eauto].
    simpl. apply list_elem_of_fmap. exists p'. split; [done|].
    apply NoDup_app in Hnodup as (Hl1 & Hdisj & [Hx' Hl2]%NoDup_cons).
    apply IH.
    { apply NoDup_app. split_and!; [done| |done].
      intros y Hy Hy'. apply (Hdisj y Hy). by right. }
    split_and!; [by injection Hlen|done|].
    intros y Hy. assert (y ∈ l1 ++ x :: l2) as Hin by (apply Hsub; by right).
    assert (y ≠ x) by (by intros ->). set_solver.
Qed.

Lemma NoDup_picks pool : NoDup pool → NoDup (picks pool).*1.
Proof.
  induction 1 as [|x pool Hx Hnodup IH]; simpl; [constructor|].
  rewrite <-list_fmap_compose.
  assert ((fst ∘ (λ p : A * list A, (p.1, x :: p.2))) <$> picks pool
          = (picks pool).*1) as -> by by apply list_fmap_ext.
  constructor; [|done].
  intros ([y rest] & Heq & Hin)%list_elem_of_fmap. simpl in Heq. subst y.
  apply elem_of_picks in Hin as (l1 & l2 & -> & _). set_solver.
Qed.

Lemma NoDup_itertools_permutations r pool :
  NoDup pool → NoDup (itertools_permutations r pool).
Proof.
  revert pool. induction r as [|r IH]; intros pool Hnodup; simpl.
  { apply NoDup_singleton. }
  apply NoDup_bind.
  - intros [x1 rest1] [x2 rest2] p Hin1 Hin2.
    intros (p1 & -> & _)%list_elem_of_fmap (p2 & [= -> _] & _)%list_elem_of_fmap.
    simpl in *.
    apply elem_of_picks in Hin1 as (l1 & l2 & -> & ->).
    apply elem_of_picks in Hin2 as (l1' & l2' & Heq & ->).
    f_equal. 
    pose proof (proj1 (NoDup_alt _) Hnodup) as Hinj.
    assert (length l1 = length l1') as Hlen.
    { apply (Hinj _ _ x2).
      - by rewrite lookup_app_r, Nat.sub_diag by lia.
      - rewrite Heq. by rewrite lookup_app_r, Nat.sub_diag by lia. }
    apply app_inj_1 in Heq as [-> [= ->]]; done.
  - intros [x rest] Hin. simpl. apply NoDup_fmap; [apply _|].
    apply elem_of_picks in Hin as (l1 & l2 & -> & ->).
    apply IH. apply NoDup_app in Hnodup as (Hl1 & Hdisj & [Hx' Hl2]%NoDup_cons).
    apply NoDup_app. split_and!; [done| |done].
    intros y Hy Hy'. apply (Hdisj y Hy). by right.
  - eapply NoDup_fmap_1. by apply NoDup_picks.
Qed.

Lemma length_itertools_permutations r pool :
  length (itertools_permutations r pool) = falling_factorial (length pool) r.
Proof.
  revert pool. induction r as [|r IH]; intros pool; [done|].
  cbn [itertools_permutations falling_factorial].
  assert (∀ (picked : list (A * list A)) k,
            Forall (λ q : A * list A, length q.2 = k) picked →
            length (q ← picked; (q.1 ::.) <$> itertools_permutations r q.2)
            = length picked * falling_factorial k r) as Hsum.
  { intros picked k. induction 1 as [|q picked Hq _ IHq]; [done|].
    rewrite bind_cons, length_app, length_fmap, IH, Hq, IHq. simpl. lia. }
  rewrite (Hsum _ (length pool - 1)), length_picks; [done|].
  apply Forall_forall. intros [x rest] Hin%picks_rest_length. simpl. lia.
Qed.
End generation.

Section symbols.
Implicit Types (c : ascii) (pool : list ascii) (symbols : gset ascii).

Lemma elem_of_digits c :
  c ∈ digit_char <$> seqZ 0 10 ↔ is_digit c.
Proof.
  split.
  - intros (d & -> & Hd%elem_of_seqZ)%list_elem_of_fmap.
    apply digit_char_value. lia.
  - intros Hc. apply list_elem_of_fmap.
    exists (digit_value c).
    split; [|apply elem_of_seqZ; pose proof (is_digit_value c Hc); lia].
    unfold digit_char, digit_value. unfold is_digit in Hc.
    replace (48 + Z.to_nat (Z.of_nat (nat_of_ascii c) - 48))%nat
      with (nat_of_ascii c) by lia.
    by rewrite ascii_nat_embedding.
Qed.

Lemma generate_symbols_cases (excluded_digit : str) :
  (generate_symbols excluded_digit = ValueError ∧
   excluded_digit ∈ [["0"%char]; ["2"%char]; ["5"%char]]) ∨
  (∃ symbols, generate_symbols excluded_digit = Symbols symbols ∧
     (excluded_digit ∉ [["0"%char]; ["2"%char]; ["5"%char]]) ∧
     ∀ c, c ∈ symbols ↔ is_digit c ∧ excluded_digit ≠ [c]).
Proof.
  unfold generate_symbols. destruct (decide _) as [Hin|Hnotin]; [by left|].
  right. eexists. split_and!; [done..|]. intros c.
  rewrite elem_of_difference, elem_of_list_to_set, elem_of_digits.
  destruct excluded_digit as [|c' [|??]]; set_solver.
Qed.

Lemma digits_pool pool symbols excluded_digit c0 :
  excluded_digit = [c0] → is_digit c0 →
  generate_symbols excluded_digit = Symbols symbols →
  pool ≡ₚ elements symbols →
  NoDup pool ∧ length pool = 9 ∧ Forall is_digit pool ∧
  ∀ c, c ∈ pool ↔ c ∈ symbols.
Proof.
  intros -> Hc0 Hgen Hpool.
  destruct (generate_symbols_cases [c0]) as [[? _]|(s & Hs & _ & Hmem)];
    [congruence|].
  rewrite Hgen in Hs. injection Hs as <-.
  assert (∀ c, c ∈ pool ↔ c ∈ symbols) as Hin.
  { intros c. by rewrite Hpool, elem_of_elements. }
  assert (NoDup pool) as Hnodup by (rewrite Hpool; apply NoDup_elements).
  split_and!; [done| | |done].
  - assert (c0 :: pool ≡ₚ digit_char <$> seqZ 0 10) as Hten.
    { apply NoDup_Permutation.
      - apply NoDup_cons. split; [|done]. rewrite Hin, Hmem. naive_solver.
      - compute_done.
      - intros c. rewrite elem_of_cons, elem_of_digits, Hin, Hmem.
        destruct (decide (c = c0)) as [->|]; naive_solver. }
    apply Permutation_length in Hten.
    rewrite length_fmap, length_seqZ in Hten. simpl in Hten. lia.
  - apply Forall_forall. intros c. rewrite Hin, Hmem. naive_solver.
Qed.
End symbols.

Section candidates.
Implicit Types (c : ascii) (pool p : list ascii) (symbols : gset ascii) (n : Z).

Lemma nine_of_pool pool p :
  NoDup pool → length pool = 9 →
  p ∈ itertools_permutations 9 pool ↔ p ≡ₚ pool.
Proof.
  intros Hnodup Hlen. rewrite elem_of_itertools_permutations by done. split.
  - intros (Hl & Hp & Hsub). apply submseteq_length_Permutation; [|lia].
    by apply NoDup_submseteq.
  - intros Hperm. rewrite Hperm. split_and!; [done..|].
    intros x. by rewrite Hperm.
Qed.

Lemma generate_permutations_cases pool :
  NoDup pool → length pool = 9 → Forall is_digit pool →
  (∀ n, n ∈ generate_permutations pool ↔ (0 ≤ n)%Z ∧ format_09 n ≡ₚ pool) ∧
  NoDup (generate_permutations pool) ∧
  Z.of_nat (length (generate_permutations pool)) = 362880%Z.
Proof.
  intros Hnodup Hlen Hdig. unfold generate_permutations. split_and!.
  - intros n. rewrite list_elem_of_fmap. split.
    + intros (p & -> & Hp%nine_of_pool); [|done..].
      assert (Forall is_digit p) as Hdp by by rewrite Hp.
      split; [by apply int_of_str_bound|].
      rewrite format_09_int_of_str; [done| |done]. by rewrite Hp.
    + intros [Hn Hp]. exists (format_09 n). split; [|by apply nine_of_pool].
      by destruct (format_09_nonneg n Hn) as (_ & -> & _).
  - apply NoDup_fmap_2_strong; [|by apply NoDup_itertools_permutations].
    intros p p' Hp%nine_of_pool Hp'%nine_of_pool; [|done..].
    apply int_of_str_inj.
    + by rewrite Hp, Hp'.
    + by rewrite Hp.
    + by rewrite Hp'.
  - rewrite length_fmap, length_itertools_permutations, Hlen.
    cbn [falling_factorial Nat.sub]. lia.
Qed.

Lemma generate_permutations_perm pool pool' :
  NoDup pool → pool ≡ₚ pool' →
  generate_permutations pool ≡ₚ generate_permutations pool'.
Proof.
  intros Hnodup Hperm. unfold generate_permutations. apply fmap_Permutation.
  assert (NoDup pool') as Hnodup' by by rewrite <-Hperm.
  apply NoDup_Permutation; [by apply NoDup_itertools_permutations..|].
  intros p. rewrite !elem_of_itertools_permutations by done.
  by setoid_rewrite Hperm.
Qed.
End candidates.

(** X25. [generate_symbols] raises [ValueError] exactly on the strings 0, 2
    and 5. Otherwise it returns the decimal digits other than the excluded
    string; every clue digit of the row constraints is among them; and there
    are 9 of them when the excluded string is a decimal digit. *)
Theorem generate_symbols_spec (excluded_digit : str) :
  (generate_symbols excluded_digit = ValueError ↔
   excluded_digit ∈ [["0"%char]; ["2"%char]; ["5"%char]]) ∧
  (∀ symbols, generate_symbols excluded_digit = Symbols symbols →
     (∀ c, c ∈ symbols ↔ is_digit c ∧ excluded_digit ≠ [c]) ∧
     (∀ row pos digit,
        (row, Some (pos, digit)) ∈ get_row_constraints → digit ∈ symbols) ∧
     (∀ c, is_digit c → excluded_digit = [c] → size symbols = 9)).
Proof.
  destruct (generate_symbols_cases excluded_digit)
    as [[Hgen Hin]|(symbols & Hgen & Hnotin & Hmem)]; rewrite Hgen.
  { split; [done|]. by intros. }
  split; [done|]. intros ? [= <-]. split_and!; [done| |].
  - intros row pos digit Hclue. apply Hmem.
    apply list_elem_of_In in Hclue. simpl in Hclue.
    repeat (destruct Hclue as [Hclue|Hclue];
            [first
               [discriminate Hclue
               |injection Hclue as <- <- <-;
                split; [unfold is_digit; vm_compute; lia|];
                intros ->; apply Hnotin, list_elem_of_In; simpl; auto]|]).
    done.
  - intros c Hc ->.
    destruct (digits_pool (elements symbols) symbols [c] c)
      as (_ & Hlen & _); [done..|].
    by rewrite <-Hlen.
Qed.

(** X26. For a set of 9 decimal digits, in whatever order it is iterated,
    [generate_permutations] returns exactly the non-negative numbers whose
    9-character string is a permutation of the digits, each of them once:
    362880 numbers. *)
Theorem generate_permutations_spec (pool : list ascii) :
  NoDup pool → length pool = 9 → Forall is_digit pool →
  (∀ n, n ∈ generate_permutations pool ↔ (0 ≤ n)%Z ∧ format_09 n ≡ₚ pool) ∧
  NoDup (generate_permutations pool) ∧
  Z.of_nat (length (generate_permutations pool)) = 362880%Z.
Proof. apply generate_permutations_cases. Qed.

Lemma generate_permutations_spec_witness :
  (∀ n, n ∈ generate_permutations alphabet_without_1 ↔
        (0 ≤ n)%Z ∧ format_09 n ≡ₚ alphabet_without_1) ∧
  NoDup (generate_permutations alphabet_without_1) ∧
  Z.of_nat (length (generate_permutations alphabet_without_1)) = 362880%Z.
Proof.
  apply (generate_permutations_spec alphabet_without_1).
  - compute_done.
  - reflexivity.
  - repeat constructor; unfold is_digit; vm_compute; lia.
Defined.

(** X27. For a set of decimal digits, the order in which the set is iterated
    changes the order of the list that [generate_permutations] returns, and
    nothing else. *)
Theorem generate_permutations_order_independent (pool pool' : list ascii) :
  NoDup pool → Forall is_digit pool → pool ≡ₚ pool' →
  generate_permutations pool ≡ₚ generate_permutations pool'.
Proof. intros Hnodup _. by apply generate_permutations_perm. Qed.

Lemma generate_permutations_order_independent_witness :
  generate_permutations alphabet_without_1 ≡ₚ
  generate_permutations (reverse alphabet_without_1).
Proof.
  apply (generate_permutations_order_independent alphabet_without_1
           (reverse alphabet_without_1)).
  - compute_done.
  - repeat constructor; unfold is_digit; vm_compute; lia.
  - compute_done.
Defined.

(** X28. For each of the seven digits that [parse_args] accepts, [main]
    raises nothing after [generate_symbols], and the divisors it analyses
    and the way it ends are the same for every order in which the set of
    symbols is iterated. *)
Theorem main_iteration_order_independent
    (excluded_digit : str) (symbols : gset ascii) (pool pool' : list ascii) :
  excluded_digit ∈ [["1"%char]; ["3"%char]; ["4"%char]; ["6"%char];
                    ["7"%char]; ["8"%char]; ["9"%char]] →
  generate_symbols excluded_digit = Symbols symbols →
  pool ≡ₚ elements symbols → pool' ≡ₚ elements symbols →
  main_from (generate_permutations pool) symbols =
    main_from (generate_permutations pool') symbols ∧
  ∃ analysed found,
    main_from (generate_permutations pool) symbols = Ok (analysed, Ok found).
Proof.
  intros Hchoice Hgen Hpool Hpool'.
  assert (∃ c, excluded_digit = [c] ∧ is_digit c) as (c & -> & Hc).
  { apply list_elem_of_In in Hchoice. simpl in Hchoice.
    repeat (destruct Hchoice as [<-|Hchoice];
            [eexists; split; [done|unfold is_digit; vm_compute; lia]|]).
    done. }
  destruct (digits_pool pool symbols [c] c) as (Hnodup & Hlen & Hdig & _);
    [done..|].
  destruct (generate_permutations_cases pool Hnodup Hlen Hdig) as (Hmem & _).
  assert (Forall (λ n, (0 ≤ n)%Z ∧ format_09 n ≡ₚ pool)
            (generate_permutations pool)) as Hall.
  { apply Forall_forall. intros n. apply Hmem. }
  split.
  - apply (main_from_perm _ _ _ pool); [done..| |].
    + eapply Forall_impl; [exact Hall|]. by intros n [_ ?].
    + apply generate_permutations_perm; [done|]. by rewrite Hpool, Hpool'.
  - destruct (main_from_outcome (generate_permutations pool) symbols pool)
      as (analysed & found & Hrun & _); eauto.
Qed.

Lemma main_iteration_order_independent_witness :
  main_from (generate_permutations alphabet_without_1)
    (list_to_set (digit_char <$> seqZ 0 10) ∖ {["1"%char]}) =
  main_from (generate_permutations (reverse alphabet_without_1))
    (list_to_set (digit_char <$> seqZ 0 10) ∖ {["1"%char]}) ∧
  ∃ analysed found,
    main_from (generate_permutations alphabet_without_1)
      (list_to_set (digit_char <$> seqZ 0 10) ∖ {["1"%char]})
    = Ok (analysed, Ok found).
Proof.
  apply (main_iteration_order_independent ["1"%char]
           (list_to_set (digit_char <$> seqZ 0 10) ∖ {["1"%char]})
           alphabet_without_1 (reverse alphabet_without_1)).
  - compute_done.
  - reflexivity.
  - compute_done.
  - compute_done.
Defined.
